(** * solarSim: a shallow embedding of the solar plant simulator

    The development follows the Python sources [modules.py], [simulator.py]
    and [dataStores.py].

    - Python objects live in a heap and are addressed by reference; the
      data blocks of the register files live in a second heap, so that
      sharing between register files can be expressed.
    - A method is a computation in a state-and-exception monad over the
      world: heap, register files, the trace of register accesses, the
      source of random draws and the error log of the event loop.
    - Numbers are exact rationals ([Q]): Python's [int] values are
      embedded exactly and [float] arithmetic is idealised.  [math.sqrt]
      is an external function and is a parameter wherever the power factor
      is computed.
    - [MetStation] and [SmsStation] are never instantiated by the
      simulator and are left out. *)

From Stdlib Require Import ZArith QArith Qround Qabs Qminmax Lia Lqa.
From stdpp Require Import base option list gmap strings.

Local Open Scope Z_scope.

(** ** Python values *)

(** Built-in exceptions the modelled code can raise. *)
Inductive Exn : Type :=
  | KeyError (key : string)
  | IndexError
  | TypeError
  | AttributeError (attr : string)
  | NotImplementedError
  | NoSuchSlaveException (slave : nat).

(** [int(x)]: truncation toward zero. *)
Definition int (x : Q) : Z := Z.quot (Qnum x) (Zpos (Qden x)).

(** Truth value of a number: everything but zero is true. *)
Definition truthy (x : Z) : bool := negb (x =? 0).
Definition truthyQ (x : Q) : bool := negb (Qeq_bool x 0).

(** The sign of a rational: -1, 0 or 1. *)
Definition Qsign (x : Q) : Q := inject_Z (Z.sgn (Qnum x)).

(** [a < b] on numbers, as a boolean. *)
Definition Qltb (a b : Q) : bool := negb (Qle_bool b a).

(** [sum] of a list of numbers, starting from 0 the way the accumulators
    of the update loops do. *)
Definition Qsum (l : list Q) : Q := fold_left Qplus l 0%Q.

(** References to device objects: positions in the object heap. *)
Abbreviation ref := nat.

(** ** The topology description (parsed YAML) *)

(** One entry of a device group: a name and, optionally, the connection
    dictionary from group name to the list of device names. *)
Record DeviceEntry := {
  e_name : string;
  e_connections : option (list (string * list string))
}.

(** Dictionaries whose order matters are association lists.  [dict_get] is
    [d.get(k)]; [dict_set] is [d[k] = v], which keeps the position of a
    key that is already present. *)
Fixpoint dict_get {V} (d : list (string * V)) (k : string) : option V :=
  match d with
  | [] => None
  | (k', v) :: d' => if String.eqb k' k then Some v else dict_get d' k
  end.

Fixpoint dict_set {V} (d : list (string * V)) (k : string) (v : V)
  : list (string * V) :=
  match d with
  | [] => [(k, v)]
  | (k', v') :: d' =>
      if String.eqb k' k then (k, v) :: d' else (k', v') :: dict_set d' k v
  end.

(** ** Device classes ([modules.py]) *)

(** The fields every [Module] carries.  [modbusContext] is [None] until
    [buildContext] links the device to the server context; the model keeps
    one server context, so the field only records whether it is linked. *)
Record ModuleBase := {
  slaveId : nat;
  name : string;
  moduleGroup : string;
  modbusContext : bool;
  connections : list (string * list ref);
  config : option DeviceEntry
}.

Definition Module_init (slaveId : nat) : ModuleBase :=
  {| slaveId := slaveId; name := "Module"; moduleGroup := "Modules";
     modbusContext := false; connections := []; config := None |}.

Module Inverter.
Record t := {
  base : ModuleBase;
  irradiance : Q;
  realPowerSp : Q;
  reactivePowerSp : Q;
  isEnabled : Z;
  maxRealPower : Q;
  maxReactivePower : Q;
  voltageL1 : Q;
  voltageL2 : Q;
  voltageL3 : Q
}.

Definition init (slaveId : nat) : t :=
  {| base := Module_init slaveId; irradiance := 0; realPowerSp := 2000;
     reactivePowerSp := 0; isEnabled := 1; maxRealPower := 2000;
     maxReactivePower := 1500; voltageL1 := 34; voltageL2 := 34;
     voltageL3 := 34 |}.

Definition realPower (self : t) : Q :=
  if truthy (isEnabled self) then
    let newRealPower := (irradiance self / 950 * maxRealPower self)%Q in
    if Qltb (realPowerSp self) newRealPower then realPowerSp self
    else newRealPower
  else 0%Q.

Definition reactivePower (self : t) : Q :=
  if truthy (isEnabled self) then
    let newReactivePower := maxReactivePower self in
    if Qltb (reactivePowerSp self) newReactivePower then reactivePowerSp self
    else newReactivePower
  else 0%Q.
End Inverter.

Module Meter.
Record t := {
  base : ModuleBase;
  realPower : Q;
  reactivePower : Q;
  voltageL1 : Q;
  voltageL2 : Q;
  voltageL3 : Q;
  currentL1 : Q;
  currentL2 : Q;
  currentL3 : Q;
  frequency : Q
}.

Definition init (slaveId : nat) : t :=
  {| base := Module_init slaveId; realPower := 0; reactivePower := 0;
     voltageL1 := 0; voltageL2 := 0; voltageL3 := 0; currentL1 := 0;
     currentL2 := 0; currentL3 := 0; frequency := 60 |}.

Definition powerFactor (sqrt : Q -> Q) (self : t) : Q :=
  if truthyQ (reactivePower self) then
    (Qabs (reactivePower self) / reactivePower self * realPower self
     / sqrt (realPower self ^ 2 + reactivePower self ^ 2))%Q
  else 1%Q.
End Meter.

Module Breaker.
Record t := {
  base : ModuleBase;
  _realPower : Q;
  _reactivePower : Q;
  _voltageL1 : Q;
  _voltageL2 : Q;
  _voltageL3 : Q;
  _frequency : Q;
  closeCommand : Z;
  breakers : option (list ref);
  inverters : option (list ref);
  transformers : option (list ref)
}.

Definition init (slaveId : nat) : t :=
  {| base := Module_init slaveId; _realPower := 0; _reactivePower := 0;
     _voltageL1 := 0; _voltageL2 := 0; _voltageL3 := 0; _frequency := 60;
     closeCommand := 1; breakers := Some []; inverters := Some [];
     transformers := Some [] |}.

Definition isBreakerClosed (self : t) : bool :=
  negb (truthy (closeCommand self)).

Definition realPower (self : t) : Q :=
  if isBreakerClosed self then 0%Q else _realPower self.

Definition reactivePower (self : t) : Q :=
  if isBreakerClosed self then 0%Q else _reactivePower self.

Definition voltageL1 (self : t) : Q :=
  if isBreakerClosed self then 0%Q else _voltageL1 self.

Definition voltageL2 (self : t) : Q :=
  if isBreakerClosed self then 0%Q else _voltageL2 self.

Definition voltageL3 (self : t) : Q :=
  if isBreakerClosed self then 0%Q else _voltageL3 self.

Definition frequency (self : t) : Q :=
  if isBreakerClosed self then 0%Q else _frequency self.

Definition powerFactor (sqrt : Q -> Q) (self : t) : Q :=
  if truthyQ (reactivePower self) then
    (Qabs (reactivePower self) / reactivePower self * realPower self
     / sqrt (realPower self ^ 2 + reactivePower self ^ 2))%Q
  else 1%Q.
End Breaker.

Module Transformer.
Record t := {
  base : ModuleBase;
  _realPower : Q;
  _reactivePower : Q;
  _voltageL1 : Q;
  _voltageL2 : Q;
  _voltageL3 : Q;
  ratio : Q;
  breakers : option (list ref)
}.

Definition init (slaveId : nat) : t :=
  {| base := Module_init slaveId; _realPower := 0; _reactivePower := 0;
     _voltageL1 := 0; _voltageL2 := 0; _voltageL3 := 0; ratio := 38 # 10;
     breakers := Some [] |}.

Definition realPower (self : t) : Q := _realPower self.
Definition reactivePower (self : t) : Q := _reactivePower self.
Definition voltageL1 (self : t) : Q := (_voltageL1 self * ratio self)%Q.
Definition voltageL2 (self : t) : Q := (_voltageL2 self * ratio self)%Q.
Definition voltageL3 (self : t) : Q := (_voltageL3 self * ratio self)%Q.
End Transformer.

Module SimulationController.
Record t := {
  base : ModuleBase;
  simWeatherEnabled : bool;
  irradiance : Q;
  poaMax : Q;
  poaMin : Q;
  irradianceDeviation : Q;
  tempDeviation : Q;
  voltageStepDifference : Q;
  acLossRatio : Q;
  freqDroop : Q;
  voltageDeviation : Q;
  voltageHighLimit : Q;
  voltageLowLimit : Q;
  weatherState : Z;
  voltageStepCommand : Z;
  nominalGridVoltage : Q;
  voltageEffectPerVar : Q;
  voltageMaxDeviation : Q;
  voltageChangeFromPlant : Q;
  reactivePowerMaxDeviation : Q
}.

Definition init (slaveId : nat) : t :=
  {| base := Module_init slaveId; simWeatherEnabled := false;
     irradiance := 900; poaMax := 1000; poaMin := 0;
     irradianceDeviation := 20; tempDeviation := 0;
     voltageStepDifference := 0; acLossRatio := 98; freqDroop := 0;
     voltageDeviation := 5; voltageHighLimit := 142;
     voltageLowLimit := 134; weatherState := 0; voltageStepCommand := 0;
     nominalGridVoltage := 138; voltageEffectPerVar := 5 # 10000;
     voltageMaxDeviation := 5 # 100; voltageChangeFromPlant := 0;
     reactivePowerMaxDeviation := 25 |}.
End SimulationController.

(** Objects of the heap, tagged by their class. *)
Inductive Obj : Type :=
  | OInverter (o : Inverter.t)
  | OMeter (o : Meter.t)
  | OBreaker (o : Breaker.t)
  | OTransformer (o : Transformer.t)
  | OSimulationController (o : SimulationController.t).

Definition obj_base (o : Obj) : ModuleBase :=
  match o with
  | OInverter i => Inverter.base i
  | OMeter m => Meter.base m
  | OBreaker b => Breaker.base b
  | OTransformer t => Transformer.base t
  | OSimulationController s => SimulationController.base s
  end.

(** ** The pymodbus datastore

    [ModbusSequentialDataBlock] objects are mutable and live in a heap of
    their own; a [ModbusSlaveContext] holds references to its four blocks;
    the [ModbusServerContext] maps slave ids to slave contexts. *)
Record ModbusSequentialDataBlock := {
  address : nat;
  values : list Z
}.

Record ModbusSlaveContext := {
  di : nat;
  co : nat;
  hr : nat;
  ir : nat
}.

Record ModbusServerContext := {
  blocks : list ModbusSequentialDataBlock;
  slaves : gmap nat ModbusSlaveContext
}.

Inductive Bank : Type := BankD | BankC | BankH | BankI.

(** Function code to bank, as in pymodbus' [decode]; [None] is its
    [KeyError]. *)
Definition decode (fc : nat) : option Bank :=
  match fc with
  | 2%nat => Some BankD
  | 4%nat => Some BankI
  | 3%nat | 6%nat | 16%nat | 22%nat | 23%nat => Some BankH
  | 1%nat | 5%nat | 15%nat => Some BankC
  | _ => None
  end.

Definition bank_of (s : ModbusSlaveContext) (b : Bank) : nat :=
  match b with
  | BankD => di s
  | BankC => co s
  | BankH => hr s
  | BankI => ir s
  end.

(** The slave context is not in zero mode: it adds one to the address
    before it reaches the block. *)
Definition slave_address (a : nat) : nat := S a.

(** [values[start:start+count]] *)
Definition slice {A} (l : list A) (start count : nat) : list A :=
  take count (drop start l).

(** [values[start:start+len(new)] = new] *)
Definition slice_assign {A} (l : list A) (start : nat) (new : list A)
  : list A :=
  take start l ++ new ++ drop (start + length new) l.

Definition block_getValues (b : ModbusSequentialDataBlock) (a count : nat)
  : list Z :=
  slice (values b) (a - address b) count.

Definition block_setValues (b : ModbusSequentialDataBlock) (a : nat)
  (new : list Z) : ModbusSequentialDataBlock :=
  {| address := address b;
     values := slice_assign (values b) (a - address b) new |}.

(** Register accesses, recorded in the order in which they happen. *)
Inductive Event : Type :=
  | EvGetValues (slave fc addr count : nat)
  | EvSetValues (slave fc addr : nat) (new : list Z).

(** ** The state of the process and the monad of device code *)

Record World := {
  heap : list Obj;
  context : ModbusServerContext;
  trace : list Event;
  rand_src : nat -> Z;
  rand_pos : nat;
  errors : list Exn
}.

Inductive Res (A : Type) : Type :=
  | Ok (a : A)
  | Raise (e : Exn).
Arguments Ok {A} a.
Arguments Raise {A} e.

(** A computation may change the world and then return or raise; what it
    changed before raising stays changed. *)
Definition M (A : Type) : Type := World -> World * Res A.

Definition ret {A} (a : A) : M A := fun w => (w, Ok a).
Definition raise {A} (e : Exn) : M A := fun w => (w, Raise e).
Definition bind {A B} (m : M A) (k : A -> M B) : M B :=
  fun w => match m w with
           | (w', Ok a) => k a w'
           | (w', Raise e) => (w', Raise e)
           end.

Declare Scope py_scope.
Delimit Scope py_scope with py.
Notation "x <- c1 ;; c2" := (bind c1 (fun x => c2))
  (at level 100, c1 at next level, right associativity) : py_scope.
Notation "c1 ;;; c2" := (bind c1 (fun _ => c2))
  (at level 100, right associativity) : py_scope.
Local Open Scope py_scope.

(** [for x in l: body x] *)
Fixpoint for_each {A} (l : list A) (body : A -> M unit) : M unit :=
  match l with
  | [] => ret tt
  | x :: l' => body x ;;; for_each l' body
  end.

(** [for x in l: acc = step acc x], where [step] may raise. *)
Fixpoint fold_each {A S} (l : list A) (acc : S) (step : S -> A -> M S)
  : M S :=
  match l with
  | [] => ret acc
  | x :: l' => acc' <- step acc x ;; fold_each l' acc' step
  end.

Definition set_heap (h : list Obj) (w : World) : World :=
  {| heap := h; context := context w; trace := trace w;
     rand_src := rand_src w; rand_pos := rand_pos w; errors := errors w |}.

Definition set_context (c : ModbusServerContext) (w : World) : World :=
  {| heap := heap w; context := c; trace := trace w;
     rand_src := rand_src w; rand_pos := rand_pos w; errors := errors w |}.

Definition add_event (e : Event) (w : World) : World :=
  {| heap := heap w; context := context w; trace := trace w ++ [e];
     rand_src := rand_src w; rand_pos := rand_pos w; errors := errors w |}.

Definition add_error (e : Exn) (w : World) : World :=
  {| heap := heap w; context := context w; trace := trace w;
     rand_src := rand_src w; rand_pos := rand_pos w;
     errors := errors w ++ [e] |}.

(** [random.randint(a, b)]: the next draw of the source, brought into
    [a..b]. *)
Definition randint (a b : Z) : M Z :=
  fun w =>
    ({| heap := heap w; context := context w; trace := trace w;
        rand_src := rand_src w; rand_pos := S (rand_pos w);
        errors := errors w |},
     Ok (a + rand_src w (rand_pos w) mod (b - a + 1))).

(** Reading an object through a reference.  The object graph is typed by
    construction ([generateDevices] fills a connection group with objects
    of that group's class); where a reference does not hold an object of
    the class the code expects, the model raises [AttributeError]. *)
Definition getInverter (r : ref) : M Inverter.t :=
  fun w => match heap w !! r with
           | Some (OInverter o) => (w, Ok o)
           | _ => (w, Raise (AttributeError "Inverter"))
           end.

Definition getMeter (r : ref) : M Meter.t :=
  fun w => match heap w !! r with
           | Some (OMeter o) => (w, Ok o)
           | _ => (w, Raise (AttributeError "Meter"))
           end.

Definition getBreaker (r : ref) : M Breaker.t :=
  fun w => match heap w !! r with
           | Some (OBreaker o) => (w, Ok o)
           | _ => (w, Raise (AttributeError "Breaker"))
           end.

Definition getTransformer (r : ref) : M Transformer.t :=
  fun w => match heap w !! r with
           | Some (OTransformer o) => (w, Ok o)
           | _ => (w, Raise (AttributeError "Transformer"))
           end.

Definition getSimulationController (r : ref) : M SimulationController.t :=
  fun w => match heap w !! r with
           | Some (OSimulationController o) => (w, Ok o)
           | _ => (w, Raise (AttributeError "SimulationController"))
           end.

(** Storing the fields of an object back at its reference. *)
Definition putObj (r : ref) (o : Obj) : M unit :=
  fun w => (set_heap (<[r := o]> (heap w)) w, Ok tt).

(** [serverContext[slave]]: [None] is not subscriptable, and an id without
    a register file raises pymodbus' [NoSuchSlaveException]. *)
Definition context_getitem (self : ModuleBase) : M ModbusSlaveContext :=
  fun w =>
    if modbusContext self then
      match slaves (context w) !! slaveId self with
      | Some s => (w, Ok s)
      | None => (w, Raise (NoSuchSlaveException (slaveId self)))
      end
    else (w, Raise TypeError).

(** [serverContext[slave].getValues(fc, address, count)] *)
Definition getValues (self : ModuleBase) (fc addr count : nat)
  : M (list Z) :=
  s <- context_getitem self ;;
  fun w =>
    let w := add_event (EvGetValues (slaveId self) fc addr count) w in
    match decode fc with
    | None => (w, Raise (KeyError "fx"))
    | Some b =>
        match blocks (context w) !! bank_of s b with
        | Some blk => (w, Ok (block_getValues blk (slave_address addr) count))
        | None => (w, Raise (KeyError "store"))
        end
    end.

(** [serverContext[slave].setValues(fc, address, values)] *)
Definition setValues (self : ModuleBase) (fc addr : nat) (new : list Z)
  : M unit :=
  s <- context_getitem self ;;
  fun w =>
    let w := add_event (EvSetValues (slaveId self) fc addr new) w in
    match decode fc with
    | None => (w, Raise (KeyError "fx"))
    | Some b =>
        match blocks (context w) !! bank_of s b with
        | Some blk =>
            (set_context
               {| blocks := <[bank_of s b :=
                              block_setValues blk (slave_address addr) new]>
                              (blocks (context w));
                  slaves := slaves (context w) |} w, Ok tt)
        | None => (w, Raise (KeyError "store"))
        end
    end.

(** [l[i]] *)
Definition index {A} (l : list A) (i : nat) : M A :=
  match l !! i with
  | Some x => ret x
  | None => raise IndexError
  end.

(** [d[k]] *)
Definition getitem {V} (d : list (string * V)) (k : string) : M V :=
  match dict_get d k with
  | Some v => ret v
  | None => raise (KeyError k)
  end.

(** Truth value of a list that may be [None]. *)
Definition nonempty {A} (l : option (list A)) : bool :=
  match l with
  | Some (_ :: _) => true
  | _ => false
  end.

(** [for x in l], where [l] may be [None]. *)
Definition iterable {A} (l : option (list A)) : M (list A) :=
  match l with
  | Some l => ret l
  | None => raise TypeError
  end.

Definition Qlen {A} (l : list A) : Q := inject_Z (Z.of_nat (length l)).

(** The five accumulators of the update loops. *)
Record Combined := {
  CombinedRealPower : Q;
  CombinedReactivePower : Q;
  CombinedVoltageL1 : Q;
  CombinedVoltageL2 : Q;
  CombinedVoltageL3 : Q
}.

Definition Combined0 : Combined :=
  {| CombinedRealPower := 0; CombinedReactivePower := 0;
     CombinedVoltageL1 := 0; CombinedVoltageL2 := 0;
     CombinedVoltageL3 := 0 |}.

(** *** Field assignments *)

Definition Inverter_set_isEnabled (v : Z) (i : Inverter.t) : Inverter.t :=
  {| Inverter.base := Inverter.base i;
     Inverter.irradiance := Inverter.irradiance i;
     Inverter.realPowerSp := Inverter.realPowerSp i;
     Inverter.reactivePowerSp := Inverter.reactivePowerSp i;
     Inverter.isEnabled := v;
     Inverter.maxRealPower := Inverter.maxRealPower i;
     Inverter.maxReactivePower := Inverter.maxReactivePower i;
     Inverter.voltageL1 := Inverter.voltageL1 i;
     Inverter.voltageL2 := Inverter.voltageL2 i;
     Inverter.voltageL3 := Inverter.voltageL3 i |}.

Definition Inverter_set_irradiance (v : Q) (i : Inverter.t) : Inverter.t :=
  {| Inverter.base := Inverter.base i;
     Inverter.irradiance := v;
     Inverter.realPowerSp := Inverter.realPowerSp i;
     Inverter.reactivePowerSp := Inverter.reactivePowerSp i;
     Inverter.isEnabled := Inverter.isEnabled i;
     Inverter.maxRealPower := Inverter.maxRealPower i;
     Inverter.maxReactivePower := Inverter.maxReactivePower i;
     Inverter.voltageL1 := Inverter.voltageL1 i;
     Inverter.voltageL2 := Inverter.voltageL2 i;
     Inverter.voltageL3 := Inverter.voltageL3 i |}.


Definition Inverter_set_reactivePowerSp (v : Q) (i : Inverter.t)
  : Inverter.t :=
  {| Inverter.base := Inverter.base i;
     Inverter.irradiance := Inverter.irradiance i;
     Inverter.realPowerSp := Inverter.realPowerSp i;
     Inverter.reactivePowerSp := v;
     Inverter.isEnabled := Inverter.isEnabled i;
     Inverter.maxRealPower := Inverter.maxRealPower i;
     Inverter.maxReactivePower := Inverter.maxReactivePower i;
     Inverter.voltageL1 := Inverter.voltageL1 i;
     Inverter.voltageL2 := Inverter.voltageL2 i;
     Inverter.voltageL3 := Inverter.voltageL3 i |}.

Definition Breaker_set_connected (bks invs trs : option (list ref))
  (b : Breaker.t) : Breaker.t :=
  {| Breaker.base := Breaker.base b;
     Breaker._realPower := Breaker._realPower b;
     Breaker._reactivePower := Breaker._reactivePower b;
     Breaker._voltageL1 := Breaker._voltageL1 b;
     Breaker._voltageL2 := Breaker._voltageL2 b;
     Breaker._voltageL3 := Breaker._voltageL3 b;
     Breaker._frequency := Breaker._frequency b;
     Breaker.closeCommand := Breaker.closeCommand b;
     Breaker.breakers := bks;
     Breaker.inverters := invs;
     Breaker.transformers := trs |}.

Definition Breaker_set_combined (c : Combined) (b : Breaker.t) : Breaker.t :=
  {| Breaker.base := Breaker.base b;
     Breaker._realPower := CombinedRealPower c;
     Breaker._reactivePower := CombinedReactivePower c;
     Breaker._voltageL1 := CombinedVoltageL1 c;
     Breaker._voltageL2 := CombinedVoltageL2 c;
     Breaker._voltageL3 := CombinedVoltageL3 c;
     Breaker._frequency := Breaker._frequency b;
     Breaker.closeCommand := Breaker.closeCommand b;
     Breaker.breakers := Breaker.breakers b;
     Breaker.inverters := Breaker.inverters b;
     Breaker.transformers := Breaker.transformers b |}.

Definition Breaker_set_closeCommand (v : Z) (b : Breaker.t) : Breaker.t :=
  {| Breaker.base := Breaker.base b;
     Breaker._realPower := Breaker._realPower b;
     Breaker._reactivePower := Breaker._reactivePower b;
     Breaker._voltageL1 := Breaker._voltageL1 b;
     Breaker._voltageL2 := Breaker._voltageL2 b;
     Breaker._voltageL3 := Breaker._voltageL3 b;
     Breaker._frequency := Breaker._frequency b;
     Breaker.closeCommand := v;
     Breaker.breakers := Breaker.breakers b;
     Breaker.inverters := Breaker.inverters b;
     Breaker.transformers := Breaker.transformers b |}.

Definition Transformer_set_breakers (bs : option (list ref))
  (t : Transformer.t) : Transformer.t :=
  {| Transformer.base := Transformer.base t;
     Transformer._realPower := Transformer._realPower t;
     Transformer._reactivePower := Transformer._reactivePower t;
     Transformer._voltageL1 := Transformer._voltageL1 t;
     Transformer._voltageL2 := Transformer._voltageL2 t;
     Transformer._voltageL3 := Transformer._voltageL3 t;
     Transformer.ratio := Transformer.ratio t;
     Transformer.breakers := bs |}.

Definition Transformer_set_combined (c : Combined) (t : Transformer.t)
  : Transformer.t :=
  {| Transformer.base := Transformer.base t;
     Transformer._realPower := CombinedRealPower c;
     Transformer._reactivePower := CombinedReactivePower c;
     Transformer._voltageL1 := CombinedVoltageL1 c;
     Transformer._voltageL2 := CombinedVoltageL2 c;
     Transformer._voltageL3 := CombinedVoltageL3 c;
     Transformer.ratio := Transformer.ratio t;
     Transformer.breakers := Transformer.breakers t |}.


Definition Meter_set_grid (f v : Q) (m : Meter.t) : Meter.t :=
  {| Meter.base := Meter.base m;
     Meter.realPower := Meter.realPower m;
     Meter.reactivePower := Meter.reactivePower m;
     Meter.voltageL1 := v;
     Meter.voltageL2 := v;
     Meter.voltageL3 := v;
     Meter.currentL1 := Meter.currentL1 m;
     Meter.currentL2 := Meter.currentL2 m;
     Meter.currentL3 := Meter.currentL3 m;
     Meter.frequency := f |}.

Definition Meter_set_readouts (p q v : Q) (m : Meter.t) : Meter.t :=
  {| Meter.base := Meter.base m;
     Meter.realPower := p;
     Meter.reactivePower := q;
     Meter.voltageL1 := v;
     Meter.voltageL2 := v;
     Meter.voltageL3 := v;
     Meter.currentL1 := Meter.currentL1 m;
     Meter.currentL2 := Meter.currentL2 m;
     Meter.currentL3 := Meter.currentL3 m;
     Meter.frequency := Meter.frequency m |}.

(** *** Methods

    A method takes the reference of [self].  Properties are read from the
    object as it is in the heap at that moment. *)

Section Methods.
(** [math.sqrt] *)
Variable sqrt : Q -> Q.


Definition Inverter_writeModbus (r : ref) : M unit :=
  self <- getInverter r ;;
  let inputs := [
    Inverter.realPower self;
    Inverter.reactivePower self;
    Inverter.voltageL1 self * 100;
    Inverter.voltageL2 self * 100;
    Inverter.voltageL3 self * 100;
    Inverter.maxRealPower self;
    Inverter.maxReactivePower self
  ]%Q in
  let inputs := map int inputs in
  setValues (Inverter.base self) 4 1 inputs.


Definition Meter_writeModbus (r : ref) : M unit :=
  self <- getMeter r ;;
  let inputs := [
    Meter.voltageL1 self * 100;
    Meter.voltageL2 self * 100;
    Meter.voltageL3 self * 100;
    Meter.currentL1 self * 100;
    Meter.currentL2 self * 100;
    Meter.currentL3 self * 100;
    Meter.frequency self * 100;
    Meter.realPower self;
    Meter.reactivePower self;
    Meter.powerFactor sqrt self * 100
  ]%Q in
  let inputs := map int inputs in
  setValues (Meter.base self) 4 1 inputs.

Definition Breaker_writeModbus (r : ref) : M unit :=
  self <- getBreaker r ;;
  let inputs := [
    Breaker.voltageL1 self * 100;
    Breaker.voltageL2 self * 100;
    Breaker.voltageL3 self * 100;
    Breaker.realPower self;
    Breaker.reactivePower self;
    Breaker.powerFactor sqrt self * 100;
    Breaker.frequency self * 100
  ]%Q in
  let inputs := map int inputs in
  let discretes := [Breaker.isBreakerClosed self] in
  let discretes := map (fun b : bool => if b then 1 else 0) discretes in
  setValues (Breaker.base self) 4 1 inputs ;;;
  setValues (Breaker.base self) 2 1 discretes.


(** The loop of a feeder breaker over its inverters. *)
Definition Breaker_add_inverter (c : Combined) (i : ref) : M Combined :=
  i <- getInverter i ;;
  ret {| CombinedRealPower := CombinedRealPower c + Inverter.realPower i;
         CombinedReactivePower :=
           CombinedReactivePower c + Inverter.reactivePower i;
         CombinedVoltageL1 := CombinedVoltageL1 c + Inverter.voltageL1 i;
         CombinedVoltageL2 := CombinedVoltageL2 c + Inverter.voltageL2 i;
         CombinedVoltageL3 := CombinedVoltageL3 c + Inverter.voltageL3 i
      |}%Q.

(** [i.isEnabled = self.closeCommand] *)
Definition Breaker_enable_inverter (closeCommand : Z) (i : ref) : M unit :=
  o <- getInverter i ;;
  putObj i (OInverter (Inverter_set_isEnabled closeCommand o)).

(** The loops of a main breaker over its feeder breakers and over its
    transformers. *)
Definition Breaker_add_breaker (c : Combined) (b : ref) : M Combined :=
  b <- getBreaker b ;;
  ret {| CombinedRealPower := CombinedRealPower c + Breaker.realPower b;
         CombinedReactivePower :=
           CombinedReactivePower c + Breaker.reactivePower b;
         CombinedVoltageL1 := CombinedVoltageL1 c;
         CombinedVoltageL2 := CombinedVoltageL2 c;
         CombinedVoltageL3 := CombinedVoltageL3 c |}%Q.

Definition Breaker_add_transformer (c : Combined) (t : ref) : M Combined :=
  t <- getTransformer t ;;
  ret {| CombinedRealPower := CombinedRealPower c;
         CombinedReactivePower := CombinedReactivePower c;
         CombinedVoltageL1 := CombinedVoltageL1 c + Transformer.voltageL1 t;
         CombinedVoltageL2 := CombinedVoltageL2 c + Transformer.voltageL2 t;
         CombinedVoltageL3 := CombinedVoltageL3 c + Transformer.voltageL3 t
      |}%Q.

Definition Breaker_feeder_block (self : Breaker.t) : M Combined :=
  inverters <- iterable (Breaker.inverters self) ;;
  c <- fold_each inverters Combined0 Breaker_add_inverter ;;
  let c :=
    {| CombinedRealPower := CombinedRealPower c;
       CombinedReactivePower := CombinedReactivePower c;
       CombinedVoltageL1 := CombinedVoltageL1 c / Qlen inverters;
       CombinedVoltageL2 := CombinedVoltageL2 c / Qlen inverters;
       CombinedVoltageL3 := CombinedVoltageL3 c / Qlen inverters |}%Q in
  for_each inverters (Breaker_enable_inverter (Breaker.closeCommand self)) ;;;
  ret c.

Definition Breaker_main_block (self : Breaker.t) (c : Combined)
  : M Combined :=
  breakers <- iterable (Breaker.breakers self) ;;
  c <- fold_each breakers c Breaker_add_breaker ;;
  transformers <- iterable (Breaker.transformers self) ;;
  fold_each transformers c Breaker_add_transformer.

Definition Breaker_update (r : ref) : M unit :=
  self <- getBreaker r ;;
  let conn := connections (Breaker.base self) in
  let self :=
    Breaker_set_connected (dict_get conn "feederBreakers")
      (dict_get conn "inverters") (dict_get conn "transformers") self in
  putObj r (OBreaker self) ;;;
  let feeder := String.eqb (moduleGroup (Breaker.base self)) "feederBreakers" in
  let main := String.eqb (moduleGroup (Breaker.base self)) "mainBreakers" in
  if feeder && negb (nonempty (Breaker.inverters self)) then ret tt
  else
    c <- (if feeder then Breaker_feeder_block self else ret Combined0) ;;
    if main && negb (nonempty (Breaker.breakers self)) then ret tt
    else
      c <- (if main then Breaker_main_block self c else ret c) ;;
      putObj r (OBreaker (Breaker_set_combined c self)) ;;;
      Breaker_writeModbus r.

Definition Transformer_writeModbus (r : ref) : M unit :=
  self <- getTransformer r ;;
  let inputs := [
    Transformer._realPower self;
    Transformer._reactivePower self;
    Transformer._voltageL1 self * 100;
    Transformer._voltageL2 self * 100;
    Transformer._voltageL3 self * 100;
    Transformer.realPower self;
    Transformer.reactivePower self;
    Transformer.voltageL1 self * 100;
    Transformer.voltageL2 self * 100;
    Transformer.voltageL3 self * 100
  ]%Q in
  let inputs := map int inputs in
  setValues (Transformer.base self) 4 1 inputs.


Definition Transformer_add_breaker (c : Combined) (b : ref) : M Combined :=
  b <- getBreaker b ;;
  ret {| CombinedRealPower := CombinedRealPower c + Breaker.realPower b;
         CombinedReactivePower :=
           CombinedReactivePower c + Breaker.reactivePower b;
         CombinedVoltageL1 := CombinedVoltageL1 c + Breaker.voltageL1 b;
         CombinedVoltageL2 := CombinedVoltageL2 c + Breaker.voltageL2 b;
         CombinedVoltageL3 := CombinedVoltageL3 c + Breaker.voltageL3 b
      |}%Q.

Definition Transformer_update (r : ref) : M unit :=
  self <- getTransformer r ;;
  let conn := connections (Transformer.base self) in
  let self := Transformer_set_breakers (dict_get conn "feederBreakers") self in
  putObj r (OTransformer self) ;;;
  if negb (nonempty (Transformer.breakers self)) then ret tt
  else
    breakers <- iterable (Transformer.breakers self) ;;
    c <- fold_each breakers Combined0 Transformer_add_breaker ;;
    let c :=
      {| CombinedRealPower := CombinedRealPower c;
         CombinedReactivePower := CombinedReactivePower c;
         CombinedVoltageL1 := CombinedVoltageL1 c / Qlen breakers;
         CombinedVoltageL2 := CombinedVoltageL2 c / Qlen breakers;
         CombinedVoltageL3 := CombinedVoltageL3 c / Qlen breakers |}%Q in
    putObj r (OTransformer (Transformer_set_combined c self)) ;;;
    Transformer_writeModbus r.

(** *** The simulation controller *)

Definition SimulationController_set_base (v : ModuleBase)
  (s : SimulationController.t) : SimulationController.t :=
  {| SimulationController.base := v;
     SimulationController.simWeatherEnabled := SimulationController.simWeatherEnabled s;
     SimulationController.irradiance := SimulationController.irradiance s;
     SimulationController.poaMax := SimulationController.poaMax s;
     SimulationController.poaMin := SimulationController.poaMin s;
     SimulationController.irradianceDeviation := SimulationController.irradianceDeviation s;
     SimulationController.tempDeviation := SimulationController.tempDeviation s;
     SimulationController.voltageStepDifference := SimulationController.voltageStepDifference s;
     SimulationController.acLossRatio := SimulationController.acLossRatio s;
     SimulationController.freqDroop := SimulationController.freqDroop s;
     SimulationController.voltageDeviation := SimulationController.voltageDeviation s;
     SimulationController.voltageHighLimit := SimulationController.voltageHighLimit s;
     SimulationController.voltageLowLimit := SimulationController.voltageLowLimit s;
     SimulationController.weatherState := SimulationController.weatherState s;
     SimulationController.voltageStepCommand := SimulationController.voltageStepCommand s;
     SimulationController.nominalGridVoltage := SimulationController.nominalGridVoltage s;
     SimulationController.voltageEffectPerVar := SimulationController.voltageEffectPerVar s;
     SimulationController.voltageMaxDeviation := SimulationController.voltageMaxDeviation s;
     SimulationController.voltageChangeFromPlant := SimulationController.voltageChangeFromPlant s;
     SimulationController.reactivePowerMaxDeviation := SimulationController.reactivePowerMaxDeviation s |}.

Definition SimulationController_set_simWeatherEnabled (v : bool)
  (s : SimulationController.t) : SimulationController.t :=
  {| SimulationController.base := SimulationController.base s;
     SimulationController.simWeatherEnabled := v;
     SimulationController.irradiance := SimulationController.irradiance s;
     SimulationController.poaMax := SimulationController.poaMax s;
     SimulationController.poaMin := SimulationController.poaMin s;
     SimulationController.irradianceDeviation := SimulationController.irradianceDeviation s;
     SimulationController.tempDeviation := SimulationController.tempDeviation s;
     SimulationController.voltageStepDifference := SimulationController.voltageStepDifference s;
     SimulationController.acLossRatio := SimulationController.acLossRatio s;
     SimulationController.freqDroop := SimulationController.freqDroop s;
     SimulationController.voltageDeviation := SimulationController.voltageDeviation s;
     SimulationController.voltageHighLimit := SimulationController.voltageHighLimit s;
     SimulationController.voltageLowLimit := SimulationController.voltageLowLimit s;
     SimulationController.weatherState := SimulationController.weatherState s;
     SimulationController.voltageStepCommand := SimulationController.voltageStepCommand s;
     SimulationController.nominalGridVoltage := SimulationController.nominalGridVoltage s;
     SimulationController.voltageEffectPerVar := SimulationController.voltageEffectPerVar s;
     SimulationController.voltageMaxDeviation := SimulationController.voltageMaxDeviation s;
     SimulationController.voltageChangeFromPlant := SimulationController.voltageChangeFromPlant s;
     SimulationController.reactivePowerMaxDeviation := SimulationController.reactivePowerMaxDeviation s |}.

Definition SimulationController_set_irradiance (v : Q)
  (s : SimulationController.t) : SimulationController.t :=
  {| SimulationController.base := SimulationController.base s;
     SimulationController.simWeatherEnabled := SimulationController.simWeatherEnabled s;
     SimulationController.irradiance := v;
     SimulationController.poaMax := SimulationController.poaMax s;
     SimulationController.poaMin := SimulationController.poaMin s;
     SimulationController.irradianceDeviation := SimulationController.irradianceDeviation s;
     SimulationController.tempDeviation := SimulationController.tempDeviation s;
     SimulationController.voltageStepDifference := SimulationController.voltageStepDifference s;
     SimulationController.acLossRatio := SimulationController.acLossRatio s;
     SimulationController.freqDroop := SimulationController.freqDroop s;
     SimulationController.voltageDeviation := SimulationController.voltageDeviation s;
     SimulationController.voltageHighLimit := SimulationController.voltageHighLimit s;
     SimulationController.voltageLowLimit := SimulationController.voltageLowLimit s;
     SimulationController.weatherState := SimulationController.weatherState s;
     SimulationController.voltageStepCommand := SimulationController.voltageStepCommand s;
     SimulationController.nominalGridVoltage := SimulationController.nominalGridVoltage s;
     SimulationController.voltageEffectPerVar := SimulationController.voltageEffectPerVar s;
     SimulationController.voltageMaxDeviation := SimulationController.voltageMaxDeviation s;
     SimulationController.voltageChangeFromPlant := SimulationController.voltageChangeFromPlant s;
     SimulationController.reactivePowerMaxDeviation := SimulationController.reactivePowerMaxDeviation s |}.

Definition SimulationController_set_irradianceDeviation (v : Q)
  (s : SimulationController.t) : SimulationController.t :=
  {| SimulationController.base := SimulationController.base s;
     SimulationController.simWeatherEnabled := SimulationController.simWeatherEnabled s;
     SimulationController.irradiance := SimulationController.irradiance s;
     SimulationController.poaMax := SimulationController.poaMax s;
     SimulationController.poaMin := SimulationController.poaMin s;
     SimulationController.irradianceDeviation := v;
     SimulationController.tempDeviation := SimulationController.tempDeviation s;
     SimulationController.voltageStepDifference := SimulationController.voltageStepDifference s;
     SimulationController.acLossRatio := SimulationController.acLossRatio s;
     SimulationController.freqDroop := SimulationController.freqDroop s;
     SimulationController.voltageDeviation := SimulationController.voltageDeviation s;
     SimulationController.voltageHighLimit := SimulationController.voltageHighLimit s;
     SimulationController.voltageLowLimit := SimulationController.voltageLowLimit s;
     SimulationController.weatherState := SimulationController.weatherState s;
     SimulationController.voltageStepCommand := SimulationController.voltageStepCommand s;
     SimulationController.nominalGridVoltage := SimulationController.nominalGridVoltage s;
     SimulationController.voltageEffectPerVar := SimulationController.voltageEffectPerVar s;
     SimulationController.voltageMaxDeviation := SimulationController.voltageMaxDeviation s;
     SimulationController.voltageChangeFromPlant := SimulationController.voltageChangeFromPlant s;
     SimulationController.reactivePowerMaxDeviation := SimulationController.reactivePowerMaxDeviation s |}.

Definition SimulationController_set_tempDeviation (v : Q)
  (s : SimulationController.t) : SimulationController.t :=
  {| SimulationController.base := SimulationController.base s;
     SimulationController.simWeatherEnabled := SimulationController.simWeatherEnabled s;
     SimulationController.irradiance := SimulationController.irradiance s;
     SimulationController.poaMax := SimulationController.poaMax s;
     SimulationController.poaMin := SimulationController.poaMin s;
     SimulationController.irradianceDeviation := SimulationController.irradianceDeviation s;
     SimulationController.tempDeviation := v;
     SimulationController.voltageStepDifference := SimulationController.voltageStepDifference s;
     SimulationController.acLossRatio := SimulationController.acLossRatio s;
     SimulationController.freqDroop := SimulationController.freqDroop s;
     SimulationController.voltageDeviation := SimulationController.voltageDeviation s;
     SimulationController.voltageHighLimit := SimulationController.voltageHighLimit s;
     SimulationController.voltageLowLimit := SimulationController.voltageLowLimit s;
     SimulationController.weatherState := SimulationController.weatherState s;
     SimulationController.voltageStepCommand := SimulationController.voltageStepCommand s;
     SimulationController.nominalGridVoltage := SimulationController.nominalGridVoltage s;
     SimulationController.voltageEffectPerVar := SimulationController.voltageEffectPerVar s;
     SimulationController.voltageMaxDeviation := SimulationController.voltageMaxDeviation s;
     SimulationController.voltageChangeFromPlant := SimulationController.voltageChangeFromPlant s;
     SimulationController.reactivePowerMaxDeviation := SimulationController.reactivePowerMaxDeviation s |}.

Definition SimulationController_set_voltageStepDifference (v : Q)
  (s : SimulationController.t) : SimulationController.t :=
  {| SimulationController.base := SimulationController.base s;
     SimulationController.simWeatherEnabled := SimulationController.simWeatherEnabled s;
     SimulationController.irradiance := SimulationController.irradiance s;
     SimulationController.poaMax := SimulationController.poaMax s;
     SimulationController.poaMin := SimulationController.poaMin s;
     SimulationController.irradianceDeviation := SimulationController.irradianceDeviation s;
     SimulationController.tempDeviation := SimulationController.tempDeviation s;
     SimulationController.voltageStepDifference := v;
     SimulationController.acLossRatio := SimulationController.acLossRatio s;
     SimulationController.freqDroop := SimulationController.freqDroop s;
     SimulationController.voltageDeviation := SimulationController.voltageDeviation s;
     SimulationController.voltageHighLimit := SimulationController.voltageHighLimit s;
     SimulationController.voltageLowLimit := SimulationController.voltageLowLimit s;
     SimulationController.weatherState := SimulationController.weatherState s;
     SimulationController.voltageStepCommand := SimulationController.voltageStepCommand s;
     SimulationController.nominalGridVoltage := SimulationController.nominalGridVoltage s;
     SimulationController.voltageEffectPerVar := SimulationController.voltageEffectPerVar s;
     SimulationController.voltageMaxDeviation := SimulationController.voltageMaxDeviation s;
     SimulationController.voltageChangeFromPlant := SimulationController.voltageChangeFromPlant s;
     SimulationController.reactivePowerMaxDeviation := SimulationController.reactivePowerMaxDeviation s |}.

Definition SimulationController_set_acLossRatio (v : Q)
  (s : SimulationController.t) : SimulationController.t :=
  {| SimulationController.base := SimulationController.base s;
     SimulationController.simWeatherEnabled := SimulationController.simWeatherEnabled s;
     SimulationController.irradiance := SimulationController.irradiance s;
     SimulationController.poaMax := SimulationController.poaMax s;
     SimulationController.poaMin := SimulationController.poaMin s;
     SimulationController.irradianceDeviation := SimulationController.irradianceDeviation s;
     SimulationController.tempDeviation := SimulationController.tempDeviation s;
     SimulationController.voltageStepDifference := SimulationController.voltageStepDifference s;
     SimulationController.acLossRatio := v;
     SimulationController.freqDroop := SimulationController.freqDroop s;
     SimulationController.voltageDeviation := SimulationController.voltageDeviation s;
     SimulationController.voltageHighLimit := SimulationController.voltageHighLimit s;
     SimulationController.voltageLowLimit := SimulationController.voltageLowLimit s;
     SimulationController.weatherState := SimulationController.weatherState s;
     SimulationController.voltageStepCommand := SimulationController.voltageStepCommand s;
     SimulationController.nominalGridVoltage := SimulationController.nominalGridVoltage s;
     SimulationController.voltageEffectPerVar := SimulationController.voltageEffectPerVar s;
     SimulationController.voltageMaxDeviation := SimulationController.voltageMaxDeviation s;
     SimulationController.voltageChangeFromPlant := SimulationController.voltageChangeFromPlant s;
     SimulationController.reactivePowerMaxDeviation := SimulationController.reactivePowerMaxDeviation s |}.

Definition SimulationController_set_freqDroop (v : Q)
  (s : SimulationController.t) : SimulationController.t :=
  {| SimulationController.base := SimulationController.base s;
     SimulationController.simWeatherEnabled := SimulationController.simWeatherEnabled s;
     SimulationController.irradiance := SimulationController.irradiance s;
     SimulationController.poaMax := SimulationController.poaMax s;
     SimulationController.poaMin := SimulationController.poaMin s;
     SimulationController.irradianceDeviation := SimulationController.irradianceDeviation s;
     SimulationController.tempDeviation := SimulationController.tempDeviation s;
     SimulationController.voltageStepDifference := SimulationController.voltageStepDifference s;
     SimulationController.acLossRatio := SimulationController.acLossRatio s;
     SimulationController.freqDroop := v;
     SimulationController.voltageDeviation := SimulationController.voltageDeviation s;
     SimulationController.voltageHighLimit := SimulationController.voltageHighLimit s;
     SimulationController.voltageLowLimit := SimulationController.voltageLowLimit s;
     SimulationController.weatherState := SimulationController.weatherState s;
     SimulationController.voltageStepCommand := SimulationController.voltageStepCommand s;
     SimulationController.nominalGridVoltage := SimulationController.nominalGridVoltage s;
     SimulationController.voltageEffectPerVar := SimulationController.voltageEffectPerVar s;
     SimulationController.voltageMaxDeviation := SimulationController.voltageMaxDeviation s;
     SimulationController.voltageChangeFromPlant := SimulationController.voltageChangeFromPlant s;
     SimulationController.reactivePowerMaxDeviation := SimulationController.reactivePowerMaxDeviation s |}.

Definition SimulationController_set_voltageDeviation (v : Q)
  (s : SimulationController.t) : SimulationController.t :=
  {| SimulationController.base := SimulationController.base s;
     SimulationController.simWeatherEnabled := SimulationController.simWeatherEnabled s;
     SimulationController.irradiance := SimulationController.irradiance s;
     SimulationController.poaMax := SimulationController.poaMax s;
     SimulationController.poaMin := SimulationController.poaMin s;
     SimulationController.irradianceDeviation := SimulationController.irradianceDeviation s;
     SimulationController.tempDeviation := SimulationController.tempDeviation s;
     SimulationController.voltageStepDifference := SimulationController.voltageStepDifference s;
     SimulationController.acLossRatio := SimulationController.acLossRatio s;
     SimulationController.freqDroop := SimulationController.freqDroop s;
     SimulationController.voltageDeviation := v;
     SimulationController.voltageHighLimit := SimulationController.voltageHighLimit s;
     SimulationController.voltageLowLimit := SimulationController.voltageLowLimit s;
     SimulationController.weatherState := SimulationController.weatherState s;
     SimulationController.voltageStepCommand := SimulationController.voltageStepCommand s;
     SimulationController.nominalGridVoltage := SimulationController.nominalGridVoltage s;
     SimulationController.voltageEffectPerVar := SimulationController.voltageEffectPerVar s;
     SimulationController.voltageMaxDeviation := SimulationController.voltageMaxDeviation s;
     SimulationController.voltageChangeFromPlant := SimulationController.voltageChangeFromPlant s;
     SimulationController.reactivePowerMaxDeviation := SimulationController.reactivePowerMaxDeviation s |}.

Definition SimulationController_set_voltageHighLimit (v : Q)
  (s : SimulationController.t) : SimulationController.t :=
  {| SimulationController.base := SimulationController.base s;
     SimulationController.simWeatherEnabled := SimulationController.simWeatherEnabled s;
     SimulationController.irradiance := SimulationController.irradiance s;
     SimulationController.poaMax := SimulationController.poaMax s;
     SimulationController.poaMin := SimulationController.poaMin s;
     SimulationController.irradianceDeviation := SimulationController.irradianceDeviation s;
     SimulationController.tempDeviation := SimulationController.tempDeviation s;
     SimulationController.voltageStepDifference := SimulationController.voltageStepDifference s;
     SimulationController.acLossRatio := SimulationController.acLossRatio s;
     SimulationController.freqDroop := SimulationController.freqDroop s;
     SimulationController.voltageDeviation := SimulationController.voltageDeviation s;
     SimulationController.voltageHighLimit := v;
     SimulationController.voltageLowLimit := SimulationController.voltageLowLimit s;
     SimulationController.weatherState := SimulationController.weatherState s;
     SimulationController.voltageStepCommand := SimulationController.voltageStepCommand s;
     SimulationController.nominalGridVoltage := SimulationController.nominalGridVoltage s;
     SimulationController.voltageEffectPerVar := SimulationController.voltageEffectPerVar s;
     SimulationController.voltageMaxDeviation := SimulationController.voltageMaxDeviation s;
     SimulationController.voltageChangeFromPlant := SimulationController.voltageChangeFromPlant s;
     SimulationController.reactivePowerMaxDeviation := SimulationController.reactivePowerMaxDeviation s |}.

Definition SimulationController_set_voltageLowLimit (v : Q)
  (s : SimulationController.t) : SimulationController.t :=
  {| SimulationController.base := SimulationController.base s;
     SimulationController.simWeatherEnabled := SimulationController.simWeatherEnabled s;
     SimulationController.irradiance := SimulationController.irradiance s;
     SimulationController.poaMax := SimulationController.poaMax s;
     SimulationController.poaMin := SimulationController.poaMin s;
     SimulationController.irradianceDeviation := SimulationController.irradianceDeviation s;
     SimulationController.tempDeviation := SimulationController.tempDeviation s;
     SimulationController.voltageStepDifference := SimulationController.voltageStepDifference s;
     SimulationController.acLossRatio := SimulationController.acLossRatio s;
     SimulationController.freqDroop := SimulationController.freqDroop s;
     SimulationController.voltageDeviation := SimulationController.voltageDeviation s;
     SimulationController.voltageHighLimit := SimulationController.voltageHighLimit s;
     SimulationController.voltageLowLimit := v;
     SimulationController.weatherState := SimulationController.weatherState s;
     SimulationController.voltageStepCommand := SimulationController.voltageStepCommand s;
     SimulationController.nominalGridVoltage := SimulationController.nominalGridVoltage s;
     SimulationController.voltageEffectPerVar := SimulationController.voltageEffectPerVar s;
     SimulationController.voltageMaxDeviation := SimulationController.voltageMaxDeviation s;
     SimulationController.voltageChangeFromPlant := SimulationController.voltageChangeFromPlant s;
     SimulationController.reactivePowerMaxDeviation := SimulationController.reactivePowerMaxDeviation s |}.

Definition SimulationController_set_weatherState (v : Z)
  (s : SimulationController.t) : SimulationController.t :=
  {| SimulationController.base := SimulationController.base s;
     SimulationController.simWeatherEnabled := SimulationController.simWeatherEnabled s;
     SimulationController.irradiance := SimulationController.irradiance s;
     SimulationController.poaMax := SimulationController.poaMax s;
     SimulationController.poaMin := SimulationController.poaMin s;
     SimulationController.irradianceDeviation := SimulationController.irradianceDeviation s;
     SimulationController.tempDeviation := SimulationController.tempDeviation s;
     SimulationController.voltageStepDifference := SimulationController.voltageStepDifference s;
     SimulationController.acLossRatio := SimulationController.acLossRatio s;
     SimulationController.freqDroop := SimulationController.freqDroop s;
     SimulationController.voltageDeviation := SimulationController.voltageDeviation s;
     SimulationController.voltageHighLimit := SimulationController.voltageHighLimit s;
     SimulationController.voltageLowLimit := SimulationController.voltageLowLimit s;
     SimulationController.weatherState := v;
     SimulationController.voltageStepCommand := SimulationController.voltageStepCommand s;
     SimulationController.nominalGridVoltage := SimulationController.nominalGridVoltage s;
     SimulationController.voltageEffectPerVar := SimulationController.voltageEffectPerVar s;
     SimulationController.voltageMaxDeviation := SimulationController.voltageMaxDeviation s;
     SimulationController.voltageChangeFromPlant := SimulationController.voltageChangeFromPlant s;
     SimulationController.reactivePowerMaxDeviation := SimulationController.reactivePowerMaxDeviation s |}.

Definition SimulationController_set_voltageStepCommand (v : Z)
  (s : SimulationController.t) : SimulationController.t :=
  {| SimulationController.base := SimulationController.base s;
     SimulationController.simWeatherEnabled := SimulationController.simWeatherEnabled s;
     SimulationController.irradiance := SimulationController.irradiance s;
     SimulationController.poaMax := SimulationController.poaMax s;
     SimulationController.poaMin := SimulationController.poaMin s;
     SimulationController.irradianceDeviation := SimulationController.irradianceDeviation s;
     SimulationController.tempDeviation := SimulationController.tempDeviation s;
     SimulationController.voltageStepDifference := SimulationController.voltageStepDifference s;
     SimulationController.acLossRatio := SimulationController.acLossRatio s;
     SimulationController.freqDroop := SimulationController.freqDroop s;
     SimulationController.voltageDeviation := SimulationController.voltageDeviation s;
     SimulationController.voltageHighLimit := SimulationController.voltageHighLimit s;
     SimulationController.voltageLowLimit := SimulationController.voltageLowLimit s;
     SimulationController.weatherState := SimulationController.weatherState s;
     SimulationController.voltageStepCommand := v;
     SimulationController.nominalGridVoltage := SimulationController.nominalGridVoltage s;
     SimulationController.voltageEffectPerVar := SimulationController.voltageEffectPerVar s;
     SimulationController.voltageMaxDeviation := SimulationController.voltageMaxDeviation s;
     SimulationController.voltageChangeFromPlant := SimulationController.voltageChangeFromPlant s;
     SimulationController.reactivePowerMaxDeviation := SimulationController.reactivePowerMaxDeviation s |}.

(** [10] once in a while, else [1] (the pair is [40], [10] in state 2). *)
Definition poaDeviationMultiplier (spike calm : Q) : M Q :=
  c <- randint 0 30 ;;
  ret (if c =? 0 then spike else calm).

(** One perturbation of the irradiance, clamped to [poaMin..poaMax]. *)
Definition perturb (lo hi : Z) (spike calm : Q) (poaMin poaMax : Q)
  (self : SimulationController.t) : M SimulationController.t :=
  m <- poaDeviationMultiplier spike calm ;;
  d <- randint lo hi ;;
  let poaDeviation :=
    (inject_Z d * SimulationController.irradianceDeviation self * m / 100)%Q in
  let irradiance := (SimulationController.irradiance self + poaDeviation)%Q in
  let irradiance :=
    if Qltb poaMax irradiance then poaMax
    else if Qltb irradiance poaMin then poaMin
    else irradiance in
  ret (SimulationController_set_irradiance irradiance self).

(** State 0: [for i in range(0, 60)] with a rising band. *)
Fixpoint dawn_loop (n : nat) (poaMin poaMax : Q)
  (self : SimulationController.t) : M SimulationController.t :=
  match n with
  | O => ret self
  | S n' =>
      self <- perturb (-10) 75 10 1 poaMin poaMax self ;;
      dawn_loop n' (poaMin + 75)%Q (poaMax + 80)%Q self
  end.

(** State 4: [for i in range(0, 60)] with a falling band, floored at 0. *)
Fixpoint dusk_loop (n : nat) (poaMin poaMax : Q)
  (self : SimulationController.t) : M SimulationController.t :=
  match n with
  | O => ret self
  | S n' =>
      self <- perturb (-10) 75 10 1 poaMin poaMax self ;;
      let poaMin := (poaMin - 75)%Q in
      let poaMin := if Qltb poaMin 0 then 0%Q else poaMin in
      let poaMax := (poaMax - 80)%Q in
      let poaMax := if Qltb poaMax 0 then 0%Q else poaMax in
      dusk_loop n' poaMin poaMax self
  end.

(** State 5: [for i in range(0, 30): self.irradiance = 0] *)
Definition night_loop (self : SimulationController.t)
  : SimulationController.t :=
  Nat.iter 30 (SimulationController_set_irradiance 0) self.

(** The weather state machine: the chain of tests on [weatherState] in
    the body of [if self.simWeatherEnabled]. *)
Definition weatherSim (self : SimulationController.t)
  : M SimulationController.t :=
  self <- (if SimulationController.weatherState self =? 0 then
             self <- dawn_loop 60 0 200 self ;;
             ret (SimulationController_set_weatherState 1 self)
           else ret self) ;;
  self <- (if SimulationController.weatherState self =? 1 then
             perturb (-100) 100 10 1 800 950 self
           else if SimulationController.weatherState self =? 2 then
             perturb (-100) 100 40 10 300 950 self
           else ret self) ;;
  self <- (if SimulationController.weatherState self =? 4 then
             self <- dusk_loop 60 100 500 self ;;
             ret (SimulationController_set_weatherState 5 self)
           else ret self) ;;
  ret (if SimulationController.weatherState self =? 5 then
         SimulationController_set_weatherState 0 (night_loop self)
       else self).

(** [inverter.irradiance = self.irradiance + random.randint(-25, 25)],
    floored at zero. *)
Definition SimulationController_feed_inverter (irradiance : Q) (i : ref)
  : M unit :=
  d <- randint (-25) 25 ;;
  o <- getInverter i ;;
  let v := (irradiance + inject_Z d)%Q in
  let v := if Qltb v 0 then 0%Q else v in
  putObj i (OInverter (Inverter_set_irradiance v o)).

Definition SimulationController_add_reactive (acc : Q * Q) (i : ref)
  : M (Q * Q) :=
  o <- getInverter i ;;
  ret (fst acc + Inverter.reactivePower o,
       snd acc + Inverter.reactivePower o)%Q.

Definition SimulationController_writeModbus (r : ref) : M unit :=
  self <- getSimulationController r ;;
  let inputs := map int [
    SimulationController.irradianceDeviation self;
    SimulationController.tempDeviation self;
    SimulationController.voltageStepDifference self;
    SimulationController.acLossRatio self;
    SimulationController.freqDroop self;
    SimulationController.voltageDeviation self;
    SimulationController.voltageHighLimit self;
    SimulationController.voltageLowLimit self
  ] ++ [
    SimulationController.weatherState self;
    SimulationController.voltageStepCommand self
  ] in
  setValues (SimulationController.base self) 3 1 inputs.

Definition SimulationController_update (r : ref) : M unit :=
  self <- getSimulationController r ;;
  let conn := connections (SimulationController.base self) in
  breakers <- getitem conn "breakers" ;;
  mainBreaker <- index breakers 0 ;;
  meters <- getitem conn "meters" ;;
  checkMeter <- index meters 0 ;;
  (* Update meters and simulate grid *)
  let freqDeviation := (1 # 10)%Q in
  freqDeviationMultiplier <- randint (-100) 100 ;;
  m <- getMeter checkMeter ;;
  let m :=
    Meter_set_grid
      (Meter.frequency m + SimulationController.freqDroop self
       + freqDeviation * inject_Z freqDeviationMultiplier / 100)%Q
      (SimulationController.nominalGridVoltage self) m in
  putObj checkMeter (OMeter m) ;;;
  (* Get reactive power from inverters *)
  inverters <- getitem conn "inverters" ;;
  acc <- fold_each inverters (0%Q, 0%Q) SimulationController_add_reactive ;;
  let oldReactivePower := fst acc in
  let newReactivePower := snd acc in
  let deltaReactivePower := (newReactivePower - oldReactivePower)%Q in
  (* Grid voltage logic *)
  let voltageStep :=
    if truthy (SimulationController.voltageStepCommand self)
    then SimulationController.voltageStepDifference self else 0%Q in
  let self :=
    if truthy (SimulationController.voltageStepCommand self)
    then SimulationController_set_voltageStepCommand 0 self else self in
  putObj r (OSimulationController self) ;;;
  let voltageChangeFromPlant :=
    (deltaReactivePower * (SimulationController.acLossRatio self / 100)
     * SimulationController.voltageEffectPerVar self)%Q in
  voltageDeviationMultiplier <- randint (-100) 100 ;;
  let meterVoltage :=
    (Meter.voltageL1 m + voltageChangeFromPlant
     + inject_Z voltageDeviationMultiplier / 100
       * SimulationController.voltageMaxDeviation self
     + voltageStep)%Q in
  let meterVoltage :=
    if Qltb (SimulationController.voltageHighLimit self) meterVoltage
    then SimulationController.voltageHighLimit self else meterVoltage in
  let meterVoltage :=
    if Qltb meterVoltage (SimulationController.voltageLowLimit self)
    then SimulationController.voltageLowLimit self else meterVoltage in
  (* Grid reactive effect *)
  reactiveDeviationMultiplier <- randint (-100) 100 ;;
  b <- getBreaker mainBreaker ;;
  let meterReactivePower :=
    (Breaker.reactivePower b
     + inject_Z reactiveDeviationMultiplier / 100
       * SimulationController.reactivePowerMaxDeviation self)%Q in
  (* Update check meter with voltage *)
  putObj checkMeter
    (OMeter (Meter_set_readouts (Breaker.realPower b)
               (Qabs meterReactivePower) meterVoltage m)) ;;;
  (* Run weather sim if enabled *)
  (if SimulationController.simWeatherEnabled self then
     self <- weatherSim self ;;
     putObj r (OSimulationController self) ;;;
     for_each inverters
       (SimulationController_feed_inverter
          (SimulationController.irradiance self))
   else ret tt) ;;;
  SimulationController_writeModbus r.

(** [self.self] is looked up before the assignment to its attribute can
    take place.  Neither the class nor [Module] defines an attribute of
    that name, and no code assigns one. *)
Definition SimulationController_getattr_self (r : ref) : M ref :=
  raise (AttributeError "self").

Definition SimulationController_readModbus (r : ref) : M unit :=
  self <- getSimulationController r ;;
  values <- getValues (SimulationController.base self) 3 1 9 ;;
  v <- index values 0 ;;
  target <- SimulationController_getattr_self r ;;
  o <- getSimulationController target ;;
  putObj target
    (OSimulationController
       (SimulationController_set_irradianceDeviation (inject_Z v) o)) ;;;
  v <- index values 1 ;;
  let self := SimulationController_set_tempDeviation (inject_Z v) self in
  putObj r (OSimulationController self) ;;;
  v <- index values 2 ;;
  let self :=
    SimulationController_set_voltageStepDifference (inject_Z v) self in
  putObj r (OSimulationController self) ;;;
  v <- index values 3 ;;
  let self := SimulationController_set_acLossRatio (inject_Z v) self in
  putObj r (OSimulationController self) ;;;
  v <- index values 4 ;;
  let self := SimulationController_set_freqDroop (inject_Z v) self in
  putObj r (OSimulationController self) ;;;
  v <- index values 5 ;;
  let self := SimulationController_set_voltageDeviation (inject_Z v) self in
  putObj r (OSimulationController self) ;;;
  v <- index values 6 ;;
  let self := SimulationController_set_voltageHighLimit (inject_Z v) self in
  putObj r (OSimulationController self) ;;;
  v <- index values 7 ;;
  let self := SimulationController_set_voltageLowLimit (inject_Z v) self in
  putObj r (OSimulationController self) ;;;
  v <- index values 8 ;;
  let self := SimulationController_set_weatherState v self in
  putObj r (OSimulationController self) ;;;
  values <- getValues (SimulationController.base self) 1 1 1 ;;
  v <- index values 0 ;;
  putObj r
    (OSimulationController
       (SimulationController_set_voltageStepCommand v self)).

(** [Module.update]: export only. *)
Definition Module_update (writeModbus : ref -> M unit) (r : ref) : M unit :=
  writeModbus r.

(** [device.update()], dispatched on the class of the object. *)
Definition update (r : ref) : M unit :=
  fun w =>
    match heap w !! r with
    | Some (OInverter _) => Module_update Inverter_writeModbus r w
    | Some (OMeter _) => Module_update Meter_writeModbus r w
    | Some (OBreaker _) => Breaker_update r w
    | Some (OTransformer _) => Transformer_update r w
    | Some (OSimulationController _) => SimulationController_update r w
    | None => (w, Raise (AttributeError "update"))
    end.

End Methods.

(** ** The simulator ([simulator.py], [dataStores.py]) *)

Definition Inverter_set_base (v : ModuleBase) (i : Inverter.t) : Inverter.t :=
  {| Inverter.base := v;
     Inverter.irradiance := Inverter.irradiance i;
     Inverter.realPowerSp := Inverter.realPowerSp i;
     Inverter.reactivePowerSp := Inverter.reactivePowerSp i;
     Inverter.isEnabled := Inverter.isEnabled i;
     Inverter.maxRealPower := Inverter.maxRealPower i;
     Inverter.maxReactivePower := Inverter.maxReactivePower i;
     Inverter.voltageL1 := Inverter.voltageL1 i;
     Inverter.voltageL2 := Inverter.voltageL2 i;
     Inverter.voltageL3 := Inverter.voltageL3 i |}.

Definition Meter_set_base (v : ModuleBase) (m : Meter.t) : Meter.t :=
  {| Meter.base := v;
     Meter.realPower := Meter.realPower m;
     Meter.reactivePower := Meter.reactivePower m;
     Meter.voltageL1 := Meter.voltageL1 m;
     Meter.voltageL2 := Meter.voltageL2 m;
     Meter.voltageL3 := Meter.voltageL3 m;
     Meter.currentL1 := Meter.currentL1 m;
     Meter.currentL2 := Meter.currentL2 m;
     Meter.currentL3 := Meter.currentL3 m;
     Meter.frequency := Meter.frequency m |}.

Definition Breaker_set_base (v : ModuleBase) (b : Breaker.t) : Breaker.t :=
  {| Breaker.base := v;
     Breaker._realPower := Breaker._realPower b;
     Breaker._reactivePower := Breaker._reactivePower b;
     Breaker._voltageL1 := Breaker._voltageL1 b;
     Breaker._voltageL2 := Breaker._voltageL2 b;
     Breaker._voltageL3 := Breaker._voltageL3 b;
     Breaker._frequency := Breaker._frequency b;
     Breaker.closeCommand := Breaker.closeCommand b;
     Breaker.breakers := Breaker.breakers b;
     Breaker.inverters := Breaker.inverters b;
     Breaker.transformers := Breaker.transformers b |}.

Definition Transformer_set_base (v : ModuleBase) (t : Transformer.t)
  : Transformer.t :=
  {| Transformer.base := v;
     Transformer._realPower := Transformer._realPower t;
     Transformer._reactivePower := Transformer._reactivePower t;
     Transformer._voltageL1 := Transformer._voltageL1 t;
     Transformer._voltageL2 := Transformer._voltageL2 t;
     Transformer._voltageL3 := Transformer._voltageL3 t;
     Transformer.ratio := Transformer.ratio t;
     Transformer.breakers := Transformer.breakers t |}.

Definition obj_set_base (v : ModuleBase) (o : Obj) : Obj :=
  match o with
  | OInverter i => OInverter (Inverter_set_base v i)
  | OMeter m => OMeter (Meter_set_base v m)
  | OBreaker b => OBreaker (Breaker_set_base v b)
  | OTransformer t => OTransformer (Transformer_set_base v t)
  | OSimulationController s =>
      OSimulationController (SimulationController_set_base v s)
  end.

Definition set_connections (c : list (string * list ref)) (m : ModuleBase)
  : ModuleBase :=
  {| slaveId := slaveId m; name := name m; moduleGroup := moduleGroup m;
     modbusContext := modbusContext m; connections := c;
     config := config m |}.

Definition set_modbusContext (v : bool) (m : ModuleBase) : ModuleBase :=
  {| slaveId := slaveId m; name := name m; moduleGroup := moduleGroup m;
     modbusContext := v; connections := connections m;
     config := config m |}.

(** The attributes [generateDevices] sets on a fresh module.  Between the
    two passes [connections] holds the names of the description; the
    model keeps them in [config], which is the same dictionary entry, and
    leaves the field empty until the references are resolved. *)
Definition set_attributes (device : DeviceEntry) (deviceGroup : string)
  (m : ModuleBase) : ModuleBase :=
  {| slaveId := slaveId m; name := e_name device;
     moduleGroup := deviceGroup; modbusContext := modbusContext m;
     connections := []; config := Some device |}.

(** [self.modules]: the class of each device group. *)
Definition modules : list (string * (nat -> Obj)) :=
  [ ("inverters", fun slaveId => OInverter (Inverter.init slaveId));
    ("feederBreakers", fun slaveId => OBreaker (Breaker.init slaveId));
    ("transformers", fun slaveId => OTransformer (Transformer.init slaveId));
    ("mainBreakers", fun slaveId => OBreaker (Breaker.init slaveId));
    ("checkMeters", fun slaveId => OMeter (Meter.init slaveId)) ].

(** The device registry [self.devices]: group name to the devices of the
    group, in insertion order. *)
Definition Devices := list (string * list ref).

Definition getObj (r : ref) : M Obj :=
  fun w => match heap w !! r with
           | Some o => (w, Ok o)
           | None => (w, Raise (AttributeError "object"))
           end.

(** A new object; its reference is the next free position of the heap. *)
Definition newObj (o : Obj) : M ref :=
  fun w => (set_heap (heap w ++ [o]) w, Ok (length (heap w))).

(** [self.devices[group].append(r)] *)
Definition devices_append (devices : Devices) (group : string) (r : ref)
  : M Devices :=
  l <- getitem devices group ;;
  ret (dict_set devices group (l ++ [r])).

(** [[d for d in l if p d]] *)
Fixpoint filter_each {A} (l : list A) (p : A -> M bool) : M (list A) :=
  match l with
  | [] => ret []
  | x :: l' =>
      b <- p x ;;
      rest <- filter_each l' p ;;
      ret (if b then x :: rest else rest)
  end.

(** [d.name in names] *)
Definition name_in (names : list string) (d : ref) : M bool :=
  o <- getObj d ;;
  ret (existsb (String.eqb (name (obj_base o))) names).

(** First pass, one device of a group. *)
Definition instantiate (deviceGroup : string) (st : Devices * nat)
  (device : DeviceEntry) : M (Devices * nat) :=
  let '(devices, nextSlaveId) := st in
  class <- getitem modules deviceGroup ;;
  let module := class nextSlaveId in
  let module :=
    obj_set_base (set_attributes device deviceGroup (obj_base module))
      module in
  r <- newObj module ;;
  devices <- devices_append devices deviceGroup r ;;
  ret (devices, S nextSlaveId).

Definition instantiate_group (st : Devices * nat)
  (group : string * list DeviceEntry) : M (Devices * nat) :=
  let '(devices, nextSlaveId) := st in
  let '(deviceGroup, entries) := group in
  let devices := dict_set devices deviceGroup [] in
  fold_each entries (devices, nextSlaveId) (instantiate deviceGroup).

(** Second pass, one connection group of one device. *)
Definition resolve_input (devices : Devices)
  (connections : list (string * list ref))
  (input : string * list string) : M (list (string * list ref)) :=
  let '(inputType, names) := input in
  group <- getitem devices inputType ;;
  found <- filter_each group (name_in names) ;;
  ret (dict_set connections inputType found).

Definition resolve_device (devices : Devices) (device : ref) : M unit :=
  o <- getObj device ;;
  match config (obj_base o) ≫= e_connections with
  | None | Some [] => ret tt
  | Some raw =>
      connections <- fold_each raw [] (resolve_input devices) ;;
      putObj device
        (obj_set_base (set_connections connections (obj_base o)) o)
  end.

Definition resolve_group (devices : Devices) (group : string * list ref)
  : M unit :=
  for_each (snd group) (resolve_device devices).

Definition generateDevices (config_devices : list (string * list DeviceEntry))
  (simWeather : bool) : M Devices :=
  let nextSlaveId := 1%nat in
  (* Generate device structure *)
  st <- fold_each config_devices ([], nextSlaveId) instantiate_group ;;
  let '(devices, nextSlaveId) := st in
  (* Map the input devices for each device *)
  for_each devices (resolve_group devices) ;;;
  (* Add in simulator Device *)
  let devices := dict_set devices "simControl" [] in
  let module := SimulationController.init nextSlaveId in
  r <- newObj (OSimulationController module) ;;
  let connections := connections (SimulationController.base module) in
  inverters <- getitem devices "inverters" ;;
  let connections := dict_set connections "inverters" inverters in
  meters <- getitem devices "checkMeters" ;;
  let connections := dict_set connections "meters" meters in
  breakers <- getitem devices "mainBreakers" ;;
  let connections := dict_set connections "breakers" breakers in
  let base :=
    {| slaveId := nextSlaveId; name := "simControl";
       moduleGroup := moduleGroup (SimulationController.base module);
       modbusContext := modbusContext (SimulationController.base module);
       connections := connections;
       config := config (SimulationController.base module) |} in
  let module :=
    SimulationController_set_simWeatherEnabled simWeather
      (SimulationController_set_base base module) in
  putObj r (OSimulationController module) ;;;
  devices_append devices "simControl" r.

(** [baseDataStore]: four blocks of a hundred zero cells, allocated when
    the module is loaded. *)
Definition baseDataStore : ModbusSlaveContext :=
  {| di := 0; co := 1; hr := 2; ir := 3 |}.

Definition initial_blocks : list ModbusSequentialDataBlock :=
  replicate 4 {| address := 0; values := replicate 100 0 |}.

(** [copy.deepcopy] of one block: a new block with the same cells. *)
Definition copy_block (b : nat) : M nat :=
  fun w =>
    match blocks (context w) !! b with
    | Some blk =>
        (set_context {| blocks := blocks (context w) ++ [blk];
                        slaves := slaves (context w) |} w,
         Ok (length (blocks (context w))))
    | None => (w, Raise (KeyError "store"))
    end.

(** [copy.deepcopy] of a slave context whose four blocks are distinct
    objects, as those of [baseDataStore] are. *)
Definition deepcopy (s : ModbusSlaveContext) : M ModbusSlaveContext :=
  d <- copy_block (di s) ;;
  c <- copy_block (co s) ;;
  h <- copy_block (hr s) ;;
  i <- copy_block (ir s) ;;
  ret {| di := d; co := c; hr := h; ir := i |}.

(** [slaves[device.slaveId] = copy.deepcopy(baseDataStore)] *)
Definition create_datastore (device : ref) : M unit :=
  o <- getObj device ;;
  s <- deepcopy baseDataStore ;;
  fun w =>
    (set_context {| blocks := blocks (context w);
                    slaves := <[slaveId (obj_base o) := s]>
                                (slaves (context w)) |} w, Ok tt).

(** [device.modbusContext = context] *)
Definition link_context (device : ref) : M unit :=
  o <- getObj device ;;
  putObj device (obj_set_base (set_modbusContext true (obj_base o)) o).

Definition buildContext (devices : Devices) : M unit :=
  (* Create datastores *)
  for_each devices (fun group => for_each (snd group) create_datastore) ;;;
  (* Add context to all devices *)
  for_each devices (fun group => for_each (snd group) link_context).

Section Loop.
Variable sqrt : Q -> Q.

Definition updateDevices (devices : Devices) : M unit :=
  for_each devices (fun group => for_each (snd group) (update sqrt)).

(** One iteration of the event loop of [start]: a pass over the devices
    and one wait on the callback queue; the callback only writes a debug
    line.  Any exception is logged and the loop goes on. *)
Definition loop_iteration (devices : Devices) (w : World) : World :=
  match updateDevices devices w with
  | (w', Ok _) => w'
  | (w', Raise e) => add_error e w'
  end.

(** [start], stopped by a signal after [n] iterations. *)
Definition start (devices : Devices) (n : nat) (w : World) : World :=
  Nat.iter n (loop_iteration devices) w.
End Loop.

(** The process before [Simulator.__init__] runs: no device objects, the
    blocks of [baseDataStore], no register file. *)
Definition initial_world (rand : nat -> Z) : World :=
  {| heap := [];
     context := {| blocks := initial_blocks; slaves := ∅ |};
     trace := []; rand_src := rand; rand_pos := 0; errors := [] |}.

(** [Simulator.__init__], without the threads it starts. *)
Definition Simulator_init (config_devices : list (string * list DeviceEntry))
  (simWeather : bool) : M Devices :=
  devices <- generateDevices config_devices simWeather ;;
  buildContext devices ;;;
  ret devices.

(** The configuration the simulator writes when it finds no file. *)
Definition default_config : list (string * list DeviceEntry) :=
  [ ("inverters",
      [ {| e_name := "inverter1"; e_connections := None |};
        {| e_name := "inverter2"; e_connections := None |};
        {| e_name := "inverter3"; e_connections := None |};
        {| e_name := "inverter4"; e_connections := None |} ]);
    ("feederBreakers",
      [ {| e_name := "feeder1Breaker";
           e_connections :=
             Some [("inverters", ["inverter1"; "inverter2"])] |};
        {| e_name := "feeder2Breaker";
           e_connections :=
             Some [("inverters", ["inverter3"; "inverter4"])] |} ]);
    ("transformers",
      [ {| e_name := "transformer1";
           e_connections :=
             Some [("feederBreakers",
                    ["feeder1Breaker"; "feeder2Breaker"])] |} ]);
    ("mainBreakers",
      [ {| e_name := "mainBreaker1";
           e_connections :=
             Some [("feederBreakers", ["feeder1Breaker"; "feeder2Breaker"]);
                   ("transformers", ["transformer1"])] |} ]);
    ("checkMeters",
      [ {| e_name := "checkMeter1"; e_connections := None |} ]) ]%string.

(** A concrete stand-in for [math.sqrt] for running the model on examples:
    the integer square root of the value scaled by a million, over a
    thousand. *)
Definition sqrt_milli (x : Q) : Q :=
  Z.sqrt (Qnum x * 1000000 / Zpos (Qden x)) # 1000.

(** ** Definitions used to state the properties *)

(** The readouts of a breaker that the isolation property speaks of. *)
Definition Breaker_readouts (b : Breaker.t) : list Q :=
  [ Breaker.realPower b; Breaker.reactivePower b; Breaker.voltageL1 b;
    Breaker.voltageL2 b; Breaker.voltageL3 b; Breaker.frequency b ].

Definition Breaker_backing (b : Breaker.t) : list Q :=
  [ Breaker._realPower b; Breaker._reactivePower b; Breaker._voltageL1 b;
    Breaker._voltageL2 b; Breaker._voltageL3 b; Breaker._frequency b ].

(** A breaker that received the command value 0. *)
Definition breaker_cmd0 : Breaker.t :=
  Breaker_set_closeCommand 0 (Breaker.init 1).

(** A meter with real power 4 and reactive power -3. *)
Definition meter_4_3 : Meter.t :=
  Meter_set_readouts 4 (-3) 138 (Meter.init 1).

(** The class of an object. *)
Inductive Class : Type :=
  | CInverter | CMeter | CBreaker | CTransformer | CSimulationController.

Definition class_of (o : Obj) : Class :=
  match o with
  | OInverter _ => CInverter
  | OMeter _ => CMeter
  | OBreaker _ => CBreaker
  | OTransformer _ => CTransformer
  | OSimulationController _ => CSimulationController
  end.

(** [keeps I m Q]: the computation [m] preserves the invariant [I] of the
    world, whether it returns or raises, and what it returns satisfies
    [Q]. *)
Definition keeps {A} (I : World -> Prop) (m : M A) (Q : A -> Prop) : Prop :=
  forall w, I w -> I (fst (m w)) /\ forall a, snd (m w) = Ok a -> Q a.


(** Whether the device with the given slave id wrote to its register file
    in a trace. *)
Definition exported (slave : nat) (tr : list Event) : bool :=
  existsb (fun e => match e with
                    | EvSetValues s _ _ _ => (s =? slave)%nat
                    | EvGetValues _ _ _ _ => false
                    end) tr.

(** An object of the same class as [o0] which, when it is a simulation
    controller, satisfies [P]. *)
Definition obj_rel (P : SimulationController.t -> Prop) (o0 o : Obj) : Prop :=
  class_of o0 = class_of o /\
  forall s, o = OSimulationController s -> P s.

(** The invariant of a tick: every object has kept its class since the
    heap was [h0], every controller satisfies [P], and the trace
    satisfies [T]. *)
Definition tick_inv (P : SimulationController.t -> Prop) (h0 : list Obj)
  (T : list Event -> Prop) (w : World) : Prop :=
  Forall2 (obj_rel P) h0 (heap w) /\ T (trace w).


Definition irradiance_bounded (s : SimulationController.t) : Prop :=
  (0 <= SimulationController.irradiance s <= 1000)%Q.

(** What the last three tests of [weatherSim] do to a controller that
    has passed the test for state 0. *)
Definition weather_tail (self : SimulationController.t)
  : M SimulationController.t :=
  bind (if SimulationController.weatherState self =? 1 then
          perturb (-100) 100 10 1 800 950 self
        else if SimulationController.weatherState self =? 2 then
          perturb (-100) 100 40 10 300 950 self
        else ret self)
    (fun self =>
       bind (if SimulationController.weatherState self =? 4 then
               bind (dusk_loop 60 100 500 self)
                 (fun self => ret (SimulationController_set_weatherState 5 self))
             else ret self)
         (fun self =>
            ret (if SimulationController.weatherState self =? 5 then
                   SimulationController_set_weatherState 0 (night_loop self)
                 else self))).

(** ** Concrete plants *)

(** A write of the protocol server on behalf of a client: it changes the
    register file of the addressed slave and is no access of a device. *)
Definition server_setValues (slave fc addr : nat) (new : list Z) (w : World)
  : World :=
  match slaves (context w) !! slave, decode fc with
  | Some s, Some b =>
      match blocks (context w) !! bank_of s b with
      | Some blk =>
          set_context
            {| blocks := <[bank_of s b :=
                           block_setValues blk (slave_address addr) new]>
                           (blocks (context w));
               slaves := slaves (context w) |} w
      | None => w
      end
  | _, _ => w
  end.

(** A source of random draws that always yields zero. *)
Definition rand0 : nat -> Z := fun _ => 0.

(** The world and the registry after [Simulator.__init__]. *)
Definition plant_world (config_devices : list (string * list DeviceEntry))
  (simWeather : bool) : World :=
  fst (Simulator_init config_devices simWeather (initial_world rand0)).

Definition plant_devices (config_devices : list (string * list DeviceEntry))
  (simWeather : bool) : Devices :=
  match snd (Simulator_init config_devices simWeather (initial_world rand0))
  with
  | Ok devices => devices
  | Raise _ => []
  end.

Definition inverter_at (w : World) (r : ref) : option Inverter.t :=
  match heap w !! r with Some (OInverter o) => Some o | _ => None end.

Definition breaker_at (w : World) (r : ref) : option Breaker.t :=
  match heap w !! r with Some (OBreaker o) => Some o | _ => None end.

Definition transformer_at (w : World) (r : ref) : option Transformer.t :=
  match heap w !! r with Some (OTransformer o) => Some o | _ => None end.

Definition controller_at (w : World) (r : ref)
  : option SimulationController.t :=
  match heap w !! r with
  | Some (OSimulationController o) => Some o
  | _ => None
  end.

(** One inverter behind a feeder breaker, a main breaker fed by that
    feeder breaker, a check meter; no transformer. *)
Definition config_no_transformer : list (string * list DeviceEntry) :=
  [ ("inverters", [ {| e_name := "inverter1"; e_connections := None |} ]);
    ("feederBreakers",
      [ {| e_name := "feeder1Breaker";
           e_connections := Some [("inverters", ["inverter1"])] |} ]);
    ("mainBreakers",
      [ {| e_name := "mainBreaker1";
           e_connections :=
             Some [("feederBreakers", ["feeder1Breaker"])] |} ]);
    ("checkMeters",
      [ {| e_name := "checkMeter1"; e_connections := None |} ]) ]%string.

(** One inverter behind a feeder breaker, two transformers on that feeder
    breaker, a main breaker connected to the feeder breaker and to both
    transformers, a check meter. *)
Definition config_two_transformers : list (string * list DeviceEntry) :=
  [ ("inverters", [ {| e_name := "inverter1"; e_connections := None |} ]);
    ("feederBreakers",
      [ {| e_name := "feeder1Breaker";
           e_connections := Some [("inverters", ["inverter1"])] |} ]);
    ("transformers",
      [ {| e_name := "transformer1";
           e_connections :=
             Some [("feederBreakers", ["feeder1Breaker"])] |};
        {| e_name := "transformer2";
           e_connections :=
             Some [("feederBreakers", ["feeder1Breaker"])] |} ]);
    ("mainBreakers",
      [ {| e_name := "mainBreaker1";
           e_connections :=
             Some [("feederBreakers", ["feeder1Breaker"]);
                   ("transformers", ["transformer1"; "transformer2"])] |} ]);
    ("checkMeters",
      [ {| e_name := "checkMeter1"; e_connections := None |} ]) ]%string.

(** A feeder breaker that lists an inverter the description does not
    contain. *)
Definition config_unknown_name : list (string * list DeviceEntry) :=
  [ ("inverters", [ {| e_name := "inverter1"; e_connections := None |} ]);
    ("feederBreakers",
      [ {| e_name := "feeder1Breaker";
           e_connections :=
             Some [("inverters", ["inverter1"; "inverter9"])] |} ]);
    ("mainBreakers", []);
    ("checkMeters", []) ]%string.

(** ** Register files *)

Definition zero_block : ModbusSequentialDataBlock :=
  {| address := 0; values := replicate 100 0 |}.

(** The cells of one bank of a register file. *)
Definition bank_cells (c : ModbusServerContext) (s : ModbusSlaveContext)
  (b : Bank) : option (list Z) :=
  values <$> blocks c !! bank_of s b.

(** What [buildContext] maintains: the blocks of [baseDataStore] are
    untouched, every bank of every register file is a block of its own
    that is not shared with another slave id nor with [baseDataStore],
    and holds a hundred zero cells. *)
Definition context_fresh (c : ModbusServerContext) : Prop :=
  (forall i, (i < 4)%nat -> blocks c !! i = Some zero_block) /\
  (forall a s x, slaves c !! a = Some s ->
     (4 <= bank_of s x)%nat /\ blocks c !! bank_of s x = Some zero_block) /\
  (forall a b sa sb x y, slaves c !! a = Some sa -> slaves c !! b = Some sb ->
     bank_of sa x = bank_of sb y -> a = b).

(** ** Well-formed topology descriptions *)

(** Every group of the description has a class in [self.modules]. *)
Definition known_groups (config_devices : list (string * list DeviceEntry))
  : Prop :=
  forall g es, (g, es) ∈ config_devices -> is_Some (dict_get modules g).

(** An entry whose connections point to groups of the description. *)
Definition targets_listed (config_devices : list (string * list DeviceEntry))
  (e : DeviceEntry) : Prop :=
  forall raw t names,
    e_connections e = Some raw -> (t, names) ∈ raw ->
    t ∈ map fst config_devices.

(** The groups the simulation controller is wired to are present. *)
Definition required_groups (config_devices : list (string * list DeviceEntry))
  : Prop :=
  "inverters" ∈ map fst config_devices /\
  "checkMeters" ∈ map fst config_devices /\
  "mainBreakers" ∈ map fst config_devices.

(** Whether the device at [d] bears one of the listed names. *)
Definition name_listed (w : World) (names : list string) (d : ref) : bool :=
  match heap w !! d with
  | Some o => existsb (String.eqb (name (obj_base o))) names
  | None => false
  end.

(** The devices of a registry are objects that carry an entry of the
    description for which [ok] holds. *)
Definition registry_ok (ok : DeviceEntry -> Prop) (devices : Devices)
  (w : World) : Prop :=
  forall g refs r, (g, refs) ∈ devices -> r ∈ refs ->
    exists o e, heap w !! r = Some o /\ config (obj_base o) = Some e /\ ok e.

(** ** Failure inside an update *)

(** [triple Pre m Q X]: from a world that satisfies [Pre], the computation
    [m] either returns a value and a world that satisfy [Q], or raises in
    a world that satisfies [X]. *)
Definition triple {A} (Pre : World -> Prop) (m : M A)
  (Q : A -> World -> Prop) (X : World -> Prop) : Prop :=
  forall w, Pre w ->
    match m w with
    | (w', Ok a) => Q a w'
    | (w', Raise _) => X w'
    end.

(** The register file of a device is in place: the device is linked to
    the server context, its slave id has a register file, and the four
    banks of that file exist. *)
Definition exportable (c : ModbusServerContext) (self : ModuleBase) : Prop :=
  modbusContext self = true /\
  exists s, slaves c !! slaveId self = Some s /\
            forall x, is_Some (blocks c !! bank_of s x).

(** The state an update derives, per class. *)
Definition derived (o : Obj) : list Q :=
  match o with
  | OInverter i => [Inverter.realPower i; Inverter.reactivePower i]
  | OMeter m =>
      [ Meter.realPower m; Meter.reactivePower m; Meter.voltageL1 m;
        Meter.voltageL2 m; Meter.voltageL3 m; Meter.frequency m ]
  | OBreaker b => Breaker_backing b ++ Breaker_readouts b
  | OTransformer t =>
      [ Transformer._realPower t; Transformer._reactivePower t;
        Transformer._voltageL1 t; Transformer._voltageL2 t;
        Transformer._voltageL3 t; Transformer.voltageL1 t;
        Transformer.voltageL2 t; Transformer.voltageL3 t ]
  | OSimulationController s =>
      [ SimulationController.irradiance s;
        inject_Z (SimulationController.weatherState s) ]
  end.

(** The devices for which a failing update is known to leave the derived
    state alone: inverters and meters, breakers and transformers whose
    register file is in place, and a controller that lacks its main
    breaker or its check meter. *)
Definition fails_before_assignment (w : World) (o : Obj) : Prop :=
  match o with
  | OInverter _ | OMeter _ => True
  | OBreaker b => exportable (context w) (Breaker.base b)
  | OTransformer t => exportable (context w) (Transformer.base t)
  | OSimulationController s =>
      dict_get (connections (SimulationController.base s)) "breakers"
        = Some [] \/
      (exists b bs,
         dict_get (connections (SimulationController.base s)) "breakers"
           = Some (b :: bs)) /\
      dict_get (connections (SimulationController.base s)) "meters" = Some []
  end.

(** The object at [r] is [o] and the server context is [c]. *)
Definition obj_kept (r : ref) (o : Obj) (c : ModbusServerContext)
  (w : World) : Prop :=
  heap w !! r = Some o /\ context w = c.

(** The object at [r] is a breaker with the given base, close command and
    backing fields, and the server context is [c]. *)
Definition breaker_kept (r : ref) (base : ModuleBase) (cmd : Z)
  (backing : list Q) (c : ModbusServerContext) (w : World) : Prop :=
  (exists b, heap w !! r = Some (OBreaker b) /\ Breaker.base b = base /\
             Breaker.closeCommand b = cmd /\ Breaker_backing b = backing) /\
  context w = c.

Definition Transformer_backing (t : Transformer.t) : list Q :=
  [ Transformer._realPower t; Transformer._reactivePower t;
    Transformer._voltageL1 t; Transformer._voltageL2 t;
    Transformer._voltageL3 t ].

Definition transformer_kept (r : ref) (base : ModuleBase) (ratio : Q)
  (backing : list Q) (c : ModbusServerContext) (w : World) : Prop :=
  (exists t, heap w !! r = Some (OTransformer t) /\
             Transformer.base t = base /\ Transformer.ratio t = ratio /\
             Transformer_backing t = backing) /\
  context w = c.

(** The objects at a list of references, when all of them are there. *)
Fixpoint lookup_all {A} (f : ref -> option A) (l : list ref)
  : option (list A) :=
  match l with
  | [] => Some []
  | r :: l' =>
      match f r, lookup_all f l' with
      | Some a, Some rest => Some (a :: rest)
      | _, _ => None
      end
  end.

(** [acc + x1 + ... + xn], added up from the left as the loops do. *)
Definition Qsum_from (acc : Q) (l : list Q) : Q := fold_left Qplus l acc.

(** ** Definitions used to state further properties *)

(** What [i.isEnabled = closeCommand] does to an object. *)
Definition enable_obj (closeCommand : Z) (o : Obj) : Obj :=
  match o with
  | OInverter i => OInverter (Inverter_set_isEnabled closeCommand i)
  | _ => o
  end.

(** A breaker as its update leaves it when it returns early: only the
    three cached connection lists are refreshed. *)
Definition Breaker_refreshed (b : Breaker.t) : Breaker.t :=
  Breaker_set_connected
    (dict_get (connections (Breaker.base b)) "feederBreakers")
    (dict_get (connections (Breaker.base b)) "inverters")
    (dict_get (connections (Breaker.base b)) "transformers") b.

Definition Transformer_refreshed (t : Transformer.t) : Transformer.t :=
  Transformer_set_breakers
    (dict_get (connections (Transformer.base t)) "feederBreakers") t.

(** The world with the object at [r] replaced. *)
Definition with_obj (r : ref) (o : Obj) (w : World) : World :=
  set_heap (<[r := o]> (heap w)) w.

(** The weather step leaves a controller as it was, but for the weather
    state and the irradiance. *)
Definition weather_result (st : Z) (irr : Q) (s : SimulationController.t)
  : SimulationController.t :=
  SimulationController_set_weatherState st
    (SimulationController_set_irradiance irr s).

(** Two worlds that differ by random draws only. *)
Definition only_draws (w w' : World) : Prop :=
  heap w' = heap w /\ context w' = context w /\ trace w' = trace w /\
  errors w' = errors w /\ rand_src w' = rand_src w /\
  (rand_pos w <= rand_pos w')%nat.

(** Day mode: the controller is about to ramp up, or holds the daytime
    band. *)
Definition day_mode (s : SimulationController.t) : Prop :=
  SimulationController.weatherState s = 0 \/
  (SimulationController.weatherState s = 1 /\
   (800 <= SimulationController.irradiance s <= 950)%Q).

(** What no update assigns of a controller: its identity and wiring, the
    weather switch and the numeric settings. *)
Definition settings (s : SimulationController.t)
  : ModuleBase * bool * list Q :=
  (SimulationController.base s, SimulationController.simWeatherEnabled s,
   [ SimulationController.poaMax s;
     SimulationController.poaMin s;
     SimulationController.irradianceDeviation s;
     SimulationController.tempDeviation s;
     SimulationController.voltageStepDifference s;
     SimulationController.acLossRatio s;
     SimulationController.freqDroop s;
     SimulationController.voltageDeviation s;
     SimulationController.voltageHighLimit s;
     SimulationController.voltageLowLimit s;
     SimulationController.nominalGridVoltage s;
     SimulationController.voltageEffectPerVar s;
     SimulationController.voltageMaxDeviation s;
     SimulationController.voltageChangeFromPlant s;
     SimulationController.reactivePowerMaxDeviation s ]).

(** What the controller's feed does to a connected inverter: a new
    irradiance, never negative, within 25 of the controller's unless it
    was floored at zero. *)
Definition fed (irr : Q) (o o' : Obj) : Prop :=
  exists iv v,
    o = OInverter iv /\ o' = OInverter (Inverter_set_irradiance v iv) /\
    (0 <= v)%Q /\ (irr - 25 <= v)%Q /\ ((v <= irr + 25)%Q \/ v = 0%Q).

(** The register file of a device is in place and its banks reach the
    cell at [addr]: no block starts after that cell, and a slice that
    starts there lies inside the block or at its very end. *)
Definition readable (c : ModbusServerContext) (self : ModuleBase)
  (addr : nat) : Prop :=
  modbusContext self = true /\
  exists s, slaves c !! slaveId self = Some s /\
    forall x, exists blk,
      blocks c !! bank_of s x = Some blk /\
      (address blk <= slave_address addr)%nat /\
      (slave_address addr - address blk <= length (values blk))%nat.


(** What identifies a device on the wire and in the logs: its slave id,
    its name and its group. *)
Definition ident (o : Obj) : nat * string * string :=
  (slaveId (obj_base o), name (obj_base o), moduleGroup (obj_base o)).

(** The entries of a topology description in the order in which the
    first pass of [generateDevices] visits them, each with its group. *)
Definition entries (config_devices : list (string * list DeviceEntry))
  : list (string * DeviceEntry) :=
  flat_map (fun group => map (pair (fst group)) (snd group)) config_devices.

(** Consecutive slave ids from [first] on, one per entry. *)
Definition planned (first : nat) (l : list (string * DeviceEntry))
  : list (nat * string * string) :=
  imap (fun k ge => ((first + k)%nat, e_name (snd ge), fst ge)) l.

(** What [buildContext] does to a device: it links the device to the
    server context and leaves its other fields alone. *)
Definition link_obj (o : Obj) : Obj :=
  obj_set_base (set_modbusContext true (obj_base o)) o.

(** ** The static part of a plant *)

(** What no update is meant to change of an object: its class and the
    fields of [Module] (slave id, name, group, link to the server
    context, connections, description entry). *)
Definition shape (o : Obj) : Class * ModuleBase := (class_of o, obj_base o).

(** The static part of a world: the shape of every object, the register
    file of every slave id and the number of data blocks; with it, the
    log of errors, which no update touches. *)
Definition static_inv (B0 : list (Class * ModuleBase))
  (S0 : gmap nat ModbusSlaveContext) (n0 : nat) (E0 : list Exn) (w : World)
  : Prop :=
  shape <$> heap w = B0 /\
  slaves (context w) = S0 /\
  length (blocks (context w)) = n0 /\
  errors w = E0.

(** The register file of a device, seen from the static part: the device
    is linked, its slave id has a register file, and the banks of that
    file are among the data blocks. *)
Definition has_register_file (S0 : gmap nat ModbusSlaveContext) (n0 : nat)
  (self : ModuleBase) : Prop :=
  modbusContext self = true /\
  exists s, S0 !! slaveId self = Some s /\ forall x, (bank_of s x < n0)%nat.

(** Every reference of the list is an object of class [c]. *)
Definition all_of (B0 : list (Class * ModuleBase)) (c : Class)
  (refs : list ref) : Prop :=
  forall r, r ∈ refs -> exists b, B0 !! r = Some (c, b).

(** What the update of a device looks up, by class: a feeder breaker its
    inverters; a main breaker with feeder breakers those breakers and a
    list of transformers; a transformer its feeder breakers; the
    controller a main breaker, a check meter and its inverters. *)
Definition wired (B0 : list (Class * ModuleBase)) (cb : Class * ModuleBase)
  : Prop :=
  let conn := connections cb.2 in
  match cb.1 with
  | CInverter | CMeter => True
  | CBreaker =>
      (moduleGroup cb.2 = "feederBreakers" ->
       forall refs, dict_get conn "inverters" = Some refs ->
                    all_of B0 CInverter refs) /\
      (moduleGroup cb.2 = "mainBreakers" ->
       forall refs, dict_get conn "feederBreakers" = Some refs ->
                    refs <> [] ->
                    all_of B0 CBreaker refs /\
                    exists trs, dict_get conn "transformers" = Some trs /\
                                all_of B0 CTransformer trs)
  | CTransformer =>
      forall refs, dict_get conn "feederBreakers" = Some refs ->
                   all_of B0 CBreaker refs
  | CSimulationController =>
      exists mb bs cm ms invs,
        dict_get conn "breakers" = Some (mb :: bs) /\
        all_of B0 CBreaker [mb] /\
        dict_get conn "meters" = Some (cm :: ms) /\
        all_of B0 CMeter [cm] /\
        dict_get conn "inverters" = Some invs /\
        all_of B0 CInverter invs
  end.

(** A plant in which every device has its register file and finds what
    its update looks up. *)
Definition well_wired (B0 : list (Class * ModuleBase))
  (S0 : gmap nat ModbusSlaveContext) (n0 : nat) : Prop :=
  forall r cb, B0 !! r = Some cb ->
    has_register_file S0 n0 cb.2 /\ wired B0 cb.

(** The registry of the default plant, in the order of the default
    configuration. *)
Definition default_registry : Devices :=
  [ ("inverters", [0; 1; 2; 3]); ("feederBreakers", [4; 5]);
    ("transformers", [6]); ("mainBreakers", [7]);
    ("checkMeters", [8]); ("simControl", [9]) ]%nat.

(** What a breaker lets through: everything while its close command is
    set, nothing while it is 0. *)
Definition passes (closeCommand : Z) (x : Q) : Q :=
  if truthy closeCommand then x else 0%Q.

(** * Properties *)

(** ** Numbers *)

Lemma Qltb_lt (a b : Q) : Qltb a b = true <-> (a < b)%Q.
Proof.
  unfold Qltb. rewrite negb_true_iff. split.
  - intros H. apply Qnot_le_lt. intros Hle.
    apply Qle_bool_iff in Hle. congruence.
  - intros H. destruct (Qle_bool b a) eqn:E; [|reflexivity].
    apply Qle_bool_iff in E. exfalso. apply (Qlt_not_le _ _ H E).
Qed.

Lemma Qltb_ge (a b : Q) : Qltb a b = false <-> (b <= a)%Q.
Proof.
  unfold Qltb. rewrite negb_false_iff. apply Qle_bool_iff.
Qed.

Lemma truthyQ_true (x : Q) : truthyQ x = true <-> ~ (x == 0)%Q.
Proof.
  unfold truthyQ. rewrite negb_true_iff. split.
  - intros H Hx. apply Qeq_bool_iff in Hx. congruence.
  - intros H. destruct (Qeq_bool x 0) eqn:E; [|reflexivity].
    apply Qeq_bool_iff in E. contradiction.
Qed.

Lemma truthyQ_false (x : Q) : truthyQ x = false <-> (x == 0)%Q.
Proof.
  unfold truthyQ. rewrite negb_false_iff. apply Qeq_bool_iff.
Qed.

(** [abs(x) / x] is the sign of [x] when [x] is not zero. *)
Lemma Qabs_div_sign (x : Q) : ~ (x == 0)%Q -> (Qabs x / x == Qsign x)%Q.
Proof.
  intros Hx. unfold Qsign.
  destruct (Q_dec x 0) as [[Hneg | Hpos] | Hz]; [| |contradiction].
  - rewrite (Qabs_neg x (Qlt_le_weak _ _ Hneg)).
    assert (Hs : Z.sgn (Qnum x) = (-1)%Z).
    { apply Z.sgn_neg. unfold Qlt in Hneg. simpl in Hneg. lia. }
    rewrite Hs. change (inject_Z (-1)) with (-(1))%Q. field. exact Hx.
  - rewrite (Qabs_pos x (Qlt_le_weak _ _ Hpos)).
    assert (Hs : Z.sgn (Qnum x) = 1%Z).
    { apply Z.sgn_pos. unfold Qlt in Hpos. simpl in Hpos. lia. }
    rewrite Hs. change (inject_Z 1) with 1%Q. field. exact Hx.
Qed.

(** ** Inverter and power factor *)

(** C6: the real power of an inverter is the lesser of the commanded
    setpoint and irradiance/950 times the maximal real power while the
    enable flag is true, and zero while it is false. *)
Theorem Inverter_realPower_clamp (self : Inverter.t) :
  (Inverter.realPower self ==
   if truthy (Inverter.isEnabled self)
   then Qmin (Inverter.realPowerSp self)
             (Inverter.irradiance self / 950 * Inverter.maxRealPower self)
   else 0)%Q.
Proof.
  unfold Inverter.realPower.
  destruct (truthy (Inverter.isEnabled self)); [|reflexivity].
  cbv zeta.
  destruct (Qltb (Inverter.realPowerSp self) _) eqn:E.
  - apply Qltb_lt in E. symmetry. apply Q.min_l. apply Qlt_le_weak, E.
  - apply Qltb_ge in E. symmetry. apply Q.min_r. exact E.
Qed.

(** C7: for a meter and for a breaker, the power factor is exactly 1 when
    the reactive power is zero, and sign(q) * p / sqrt(p^2 + q^2) when it
    is not, whatever the real power. *)
Theorem powerFactor_formula (sqrt : Q -> Q) (m : Meter.t) (b : Breaker.t) :
  ((Meter.reactivePower m == 0)%Q -> Meter.powerFactor sqrt m = 1%Q) /\
  (~ (Meter.reactivePower m == 0)%Q ->
   (Meter.powerFactor sqrt m ==
    Qsign (Meter.reactivePower m) * Meter.realPower m
    / sqrt (Meter.realPower m ^ 2 + Meter.reactivePower m ^ 2))%Q) /\
  ((Breaker.reactivePower b == 0)%Q -> Breaker.powerFactor sqrt b = 1%Q) /\
  (~ (Breaker.reactivePower b == 0)%Q ->
   (Breaker.powerFactor sqrt b ==
    Qsign (Breaker.reactivePower b) * Breaker.realPower b
    / sqrt (Breaker.realPower b ^ 2 + Breaker.reactivePower b ^ 2))%Q).
Proof.
  unfold Meter.powerFactor, Breaker.powerFactor. repeat split.
  - intros H. apply truthyQ_false in H. rewrite H. reflexivity.
  - intros H. pose proof (proj2 (truthyQ_true _) H) as Ht. rewrite Ht.
    rewrite (Qabs_div_sign _ H). reflexivity.
  - intros H. apply truthyQ_false in H. rewrite H. reflexivity.
  - intros H. pose proof (proj2 (truthyQ_true _) H) as Ht. rewrite Ht.
    rewrite (Qabs_div_sign _ H). reflexivity.
Qed.

Lemma powerFactor_formula_witness :
  Meter.powerFactor sqrt_milli (Meter.init 1) = 1%Q /\
  (Meter.powerFactor sqrt_milli meter_4_3 ==
   Qsign (-3) * 4 / sqrt_milli (4 ^ 2 + (-3) ^ 2))%Q /\
  Breaker.powerFactor sqrt_milli (Breaker.init 1) = 1%Q.
Proof.
  pose proof (powerFactor_formula sqrt_milli (Meter.init 1) (Breaker.init 1))
    as (Hm & _ & Hb & _).
  pose proof (powerFactor_formula sqrt_milli meter_4_3 (Breaker.init 1))
    as (_ & Hn & _ & _).
  split; [apply Hm; reflexivity|].
  split; [apply Hn; discriminate|].
  apply Hb; reflexivity.
Defined.

(** ** Breaker isolation *)

(** C2, as stated, fails: a breaker in its default state has
    derived-closed false and still reads its backing frequency, 60. *)
Lemma Breaker_open_readout_not_zero :
  Breaker.isBreakerClosed (Breaker.init 1) = false /\
  ~ (Breaker.frequency (Breaker.init 1) == 0)%Q.
Proof. split; [reflexivity | discriminate]. Qed.

(** C2, amended: derived-closed is the negation of the close command,
    whose default is 1; the six readouts are exactly zero when
    derived-closed is true, whatever the backing fields hold, and are the
    backing fields themselves when it is false. *)
Theorem Breaker_isolation (b : Breaker.t) :
  Breaker.isBreakerClosed b = negb (truthy (Breaker.closeCommand b)) /\
  (forall slaveId, Breaker.closeCommand (Breaker.init slaveId) = 1) /\
  (Breaker.isBreakerClosed b = true ->
   Breaker_readouts b = [0; 0; 0; 0; 0; 0]%Q) /\
  (Breaker.isBreakerClosed b = false ->
   Breaker_readouts b = Breaker_backing b).
Proof.
  split; [reflexivity|]. split; [reflexivity|].
  unfold Breaker_readouts, Breaker_backing, Breaker.realPower,
    Breaker.reactivePower, Breaker.voltageL1, Breaker.voltageL2,
    Breaker.voltageL3, Breaker.frequency.
  split; intros ->; reflexivity.
Qed.

Lemma Breaker_isolation_witness :
  Breaker_readouts breaker_cmd0 = [0; 0; 0; 0; 0; 0]%Q /\
  Breaker_readouts (Breaker.init 1) = Breaker_backing (Breaker.init 1).
Proof.
  split.
  - apply (Breaker_isolation breaker_cmd0). reflexivity.
  - apply (Breaker_isolation (Breaker.init 1)). reflexivity.
Defined.

(** ** Reasoning about computations *)

Lemma bind_ok {A B} (m : M A) (k : A -> M B) w w' a :
  m w = (w', Ok a) -> bind m k w = k a w'.
Proof. unfold bind. intros ->. reflexivity. Qed.

Lemma bind_raise {A B} (m : M A) (k : A -> M B) w w' e :
  m w = (w', Raise e) -> bind m k w = (w', Raise e).
Proof. unfold bind. intros ->. reflexivity. Qed.

Lemma for_each_app {A} (l1 l2 : list A) (f : A -> M unit) w :
  for_each (l1 ++ l2) f w = bind (for_each l1 f) (fun _ => for_each l2 f) w.
Proof.
  revert w. induction l1 as [|x l1 IH]; intros w; simpl.
  - reflexivity.
  - unfold bind. destruct (f x w) as [w' [[]|e]]; [|reflexivity].
    rewrite IH. reflexivity.
Qed.

(** A pass over the groups is a pass over the devices in registry order. *)
Lemma for_each_groups {G} (groups : list (G * list ref)) (f : ref -> M unit) w :
  for_each groups (fun group => for_each (snd group) f) w =
  for_each (concat (map snd groups)) f w.
Proof.
  revert w. induction groups as [|g groups IH]; intros w; simpl.
  - reflexivity.
  - rewrite for_each_app. unfold bind.
    destruct (for_each (snd g) f w) as [w' [[]|e]]; [apply IH | reflexivity].
Qed.

(** An update that raises ends the pass: what follows it is not run. *)
Lemma for_each_raise {A} (before after : list A) (f : A -> M unit) x
  w w1 w2 e :
  for_each before f w = (w1, Ok tt) ->
  f x w1 = (w2, Raise e) ->
  for_each (before ++ x :: after) f w = (w2, Raise e).
Proof.
  intros Hb Hx. rewrite for_each_app. rewrite (bind_ok _ _ _ _ _ Hb).
  simpl. apply (bind_raise _ _ _ _ _ Hx).
Qed.

(** ** Invariants of computations *)

Lemma keeps_ret {A} (I : World -> Prop) (a : A) (Q : A -> Prop) :
  Q a -> keeps I (ret a) Q.
Proof. intros HQ w Hw. simpl. split; [exact Hw|]. intros a' [= <-]. exact HQ. Qed.

Lemma keeps_raise {A} (I : World -> Prop) (e : Exn) (Q : A -> Prop) :
  keeps I (raise e) Q.
Proof. intros w Hw. simpl. split; [exact Hw|]. intros a' [=]. Qed.

Lemma keeps_bind {A B} (I : World -> Prop) (m : M A) (k : A -> M B)
  (P : A -> Prop) (Q : B -> Prop) :
  keeps I m P -> (forall a, P a -> keeps I (k a) Q) -> keeps I (bind m k) Q.
Proof.
  intros Hm Hk w Hw. unfold bind.
  destruct (Hm w Hw) as [H1 H2].
  destruct (m w) as [w' [a|e]]; simpl in *.
  - apply (Hk a (H2 a eq_refl) w' H1).
  - split; [exact H1|]. intros a [=].
Qed.

Lemma keeps_for_each {A} (I : World -> Prop) (l : list A) (f : A -> M unit) :
  (forall x, keeps I (f x) (fun _ => True)) ->
  keeps I (for_each l f) (fun _ => True).
Proof.
  intros Hf. induction l as [|x l IH]; simpl.
  - apply keeps_ret. exact Logic.I.
  - eapply keeps_bind; [apply Hf|]. intros _ _. exact IH.
Qed.

Lemma keeps_fold_each {A S} (I : World -> Prop) (l : list A) (acc : S)
  (step : S -> A -> M S) :
  (forall acc x, keeps I (step acc x) (fun _ => True)) ->
  keeps I (fold_each l acc step) (fun _ => True).
Proof.
  intros Hf. revert acc. induction l as [|x l IH]; intros acc; simpl.
  - apply keeps_ret. exact Logic.I.
  - eapply keeps_bind; [apply Hf|]. intros acc' _. apply IH.
Qed.

Lemma keeps_index {A} (I : World -> Prop) (l : list A) (i : nat) :
  keeps I (index l i) (fun _ => True).
Proof.
  unfold index. destruct (l !! i); [apply keeps_ret; exact Logic.I|].
  apply keeps_raise.
Qed.

Lemma keeps_getitem {V} (I : World -> Prop) (d : list (string * V)) k :
  keeps I (getitem d k) (fun _ => True).
Proof.
  unfold getitem. destruct (dict_get d k); [apply keeps_ret; exact Logic.I|].
  apply keeps_raise.
Qed.

Lemma keeps_iterable {A} (I : World -> Prop) (l : option (list A)) :
  keeps I (iterable l) (fun _ => True).
Proof.
  unfold iterable. destruct l; [apply keeps_ret; exact Logic.I|].
  apply keeps_raise.
Qed.
(** ** What a tick preserves

    No update reads a register, no update changes the class of an object,
    and a property of the controller that the weather step and the reset
    of the step command preserve holds after every update. *)
Section TickInvariant.
Variable sqrt : Q -> Q.
Variable P : SimulationController.t -> Prop.
Variable h0 : list Obj.
Variable T : list Event -> Prop.
Hypothesis T_write :
  forall tr slave fc addr new,
    T tr -> T (tr ++ [EvSetValues slave fc addr new]).
Hypothesis P_voltageStepCommand :
  forall v s, P s -> P (SimulationController_set_voltageStepCommand v s).
Hypothesis P_weatherSim :
  forall s w s', P s -> snd (weatherSim s w) = Ok s' -> P s'.

Local Abbreviation Inv := (tick_inv P h0 T).
Local Abbreviation has_class r c := (class_of <$> h0 !! r = Some c).

Lemma tick_inv_class w r o :
  Inv w -> heap w !! r = Some o -> has_class r (class_of o).
Proof.
  intros [Hh _] Hr.
  destruct (Forall2_lookup_r _ _ _ _ _ Hh Hr) as (o0 & H0 & Hc & _).
  rewrite H0. simpl. congruence.
Qed.

Lemma tick_inv_P w r s :
  Inv w -> heap w !! r = Some (OSimulationController s) -> P s.
Proof.
  intros [Hh _] Hr.
  destruct (Forall2_lookup_r _ _ _ _ _ Hh Hr) as (o0 & H0 & _ & HP).
  apply HP. reflexivity.
Qed.

Lemma keeps_getInverter r :
  keeps Inv (getInverter r) (fun _ => has_class r CInverter).
Proof.
  intros w Hw. unfold getInverter.
  destruct (heap w !! r) as [[]|] eqn:E; simpl; (split; [exact Hw|]);
    intros a [=]. apply (tick_inv_class _ _ _ Hw E).
Qed.

Lemma keeps_getMeter r :
  keeps Inv (getMeter r) (fun _ => has_class r CMeter).
Proof.
  intros w Hw. unfold getMeter.
  destruct (heap w !! r) as [[]|] eqn:E; simpl; (split; [exact Hw|]);
    intros a [=]. apply (tick_inv_class _ _ _ Hw E).
Qed.

Lemma keeps_getBreaker r :
  keeps Inv (getBreaker r) (fun _ => has_class r CBreaker).
Proof.
  intros w Hw. unfold getBreaker.
  destruct (heap w !! r) as [[]|] eqn:E; simpl; (split; [exact Hw|]);
    intros a [=]. apply (tick_inv_class _ _ _ Hw E).
Qed.

Lemma keeps_getTransformer r :
  keeps Inv (getTransformer r) (fun _ => has_class r CTransformer).
Proof.
  intros w Hw. unfold getTransformer.
  destruct (heap w !! r) as [[]|] eqn:E; simpl; (split; [exact Hw|]);
    intros a [=]. apply (tick_inv_class _ _ _ Hw E).
Qed.

Lemma keeps_getSimulationController r :
  keeps Inv (getSimulationController r)
    (fun s => has_class r CSimulationController /\ P s).
Proof.
  intros w Hw. unfold getSimulationController.
  destruct (heap w !! r) as [[]|] eqn:E; simpl; (split; [exact Hw|]);
    intros a [=]. subst a. split.
  - apply (tick_inv_class _ _ _ Hw E).
  - apply (tick_inv_P _ _ _ Hw E).
Qed.

Lemma keeps_putObj r o :
  has_class r (class_of o) ->
  (forall s, o = OSimulationController s -> P s) ->
  keeps Inv (putObj r o) (fun _ => True).
Proof.
  intros Hc HP w [Hh Ht]. unfold putObj. simpl.
  split; [|intros; exact Logic.I]. split; [|exact Ht]. simpl.
  destruct (h0 !! r) as [o0|] eqn:E0; [|discriminate].
  rewrite <- (list_insert_id h0 r o0 E0).
  apply Forall2_insert; [exact Hh|].
  split; [simpl in Hc; congruence | exact HP].
Qed.

Lemma keeps_randint a b : keeps Inv (randint a b) (fun _ => True).
Proof.
  intros w [Hh Ht]. unfold randint. simpl. split; [|intros; exact Logic.I].
  split; assumption.
Qed.

Lemma keeps_setValues self fc addr new :
  keeps Inv (setValues self fc addr new) (fun _ => True).
Proof.
  intros w [Hh Ht]. split; [|intros; exact Logic.I].
  unfold setValues, bind, context_getitem.
  destruct (modbusContext self); [|split; assumption].
  destruct (slaves (context w) !! slaveId self); [|split; assumption].
  unfold add_event, set_context. simpl. destruct (decode fc);
    [destruct (blocks (context w) !! _)|]; simpl;
    (split; simpl; [exact Hh | apply T_write; exact Ht]).
Qed.

Lemma keeps_post {A} (m : M A) (Q1 Q2 : A -> Prop) :
  keeps Inv m Q1 -> (forall w a, snd (m w) = Ok a -> Q2 a) ->
  keeps Inv m Q2.
Proof.
  intros Hm HQ w Hw. destruct (Hm w Hw) as [H1 _].
  split; [exact H1|]. intros a Ha. apply (HQ w a Ha).
Qed.
Ltac keeps_prim :=
  first [ apply keeps_getInverter | apply keeps_getMeter
        | apply keeps_getBreaker | apply keeps_getTransformer
        | apply keeps_getSimulationController | apply keeps_randint
        | apply keeps_setValues | apply keeps_index | apply keeps_getitem
        | apply keeps_iterable | apply keeps_raise
        | apply keeps_ret; exact Logic.I ].

Ltac keeps_bind_prim := eapply keeps_bind; [keeps_prim | intros ? ?].

Ltac keeps_put H :=
  eapply keeps_bind;
  [apply keeps_putObj; [exact H | try (intros ? [=])] | intros _ _].

Lemma keeps_Inverter_writeModbus r :
  keeps Inv (Inverter_writeModbus r) (fun _ => True).
Proof. unfold Inverter_writeModbus. keeps_bind_prim. keeps_prim. Qed.

Lemma keeps_Meter_writeModbus r :
  keeps Inv (Meter_writeModbus sqrt r) (fun _ => True).
Proof. unfold Meter_writeModbus. keeps_bind_prim. keeps_prim. Qed.

Lemma keeps_Breaker_writeModbus r :
  keeps Inv (Breaker_writeModbus sqrt r) (fun _ => True).
Proof.
  unfold Breaker_writeModbus. keeps_bind_prim. keeps_bind_prim. keeps_prim.
Qed.

Lemma keeps_Transformer_writeModbus r :
  keeps Inv (Transformer_writeModbus r) (fun _ => True).
Proof. unfold Transformer_writeModbus. keeps_bind_prim. keeps_prim. Qed.

Lemma keeps_SimulationController_writeModbus r :
  keeps Inv (SimulationController_writeModbus r) (fun _ => True).
Proof.
  unfold SimulationController_writeModbus. keeps_bind_prim. keeps_prim.
Qed.

Lemma keeps_Breaker_enable_inverter v i :
  keeps Inv (Breaker_enable_inverter v i) (fun _ => True).
Proof.
  unfold Breaker_enable_inverter. keeps_bind_prim.
  apply keeps_putObj; [assumption | intros ? [=]].
Qed.

Lemma keeps_Breaker_feeder_block self :
  keeps Inv (Breaker_feeder_block self) (fun _ => True).
Proof.
  unfold Breaker_feeder_block. keeps_bind_prim.
  eapply keeps_bind.
  { apply keeps_fold_each. intros acc x. unfold Breaker_add_inverter.
    keeps_bind_prim. keeps_prim. }
  intros c _. eapply keeps_bind.
  { apply keeps_for_each. intros x. apply keeps_Breaker_enable_inverter. }
  intros _ _. keeps_prim.
Qed.

Lemma keeps_Breaker_main_block self c :
  keeps Inv (Breaker_main_block self c) (fun _ => True).
Proof.
  unfold Breaker_main_block. keeps_bind_prim.
  eapply keeps_bind.
  { apply keeps_fold_each. intros acc x. unfold Breaker_add_breaker.
    keeps_bind_prim. keeps_prim. }
  intros c' _. keeps_bind_prim.
  apply keeps_fold_each. intros acc x. unfold Breaker_add_transformer.
  keeps_bind_prim. keeps_prim.
Qed.

Lemma keeps_Breaker_update r :
  keeps Inv (Breaker_update sqrt r) (fun _ => True).
Proof.
  unfold Breaker_update. keeps_bind_prim. keeps_put H.
  destruct (_ && _); [keeps_prim|].
  eapply keeps_bind.
  { destruct (String.eqb _ _); [apply keeps_Breaker_feeder_block | keeps_prim]. }
  intros c _. destruct (_ && _); [keeps_prim|].
  eapply keeps_bind.
  { destruct (String.eqb _ _); [apply keeps_Breaker_main_block | keeps_prim]. }
  intros c' _. keeps_put H. apply keeps_Breaker_writeModbus.
Qed.

Lemma keeps_Transformer_update r :
  keeps Inv (Transformer_update r) (fun _ => True).
Proof.
  unfold Transformer_update. keeps_bind_prim. keeps_put H.
  destruct (negb _); [keeps_prim|].
  keeps_bind_prim. eapply keeps_bind.
  { apply keeps_fold_each. intros acc x. unfold Transformer_add_breaker.
    keeps_bind_prim. keeps_prim. }
  intros c _. keeps_put H. apply keeps_Transformer_writeModbus.
Qed.

Lemma keeps_perturb lo hi spike calm poaMin poaMax s :
  keeps Inv (perturb lo hi spike calm poaMin poaMax s) (fun _ => True).
Proof.
  unfold perturb, poaDeviationMultiplier.
  apply keeps_bind with (P := fun _ => True).
  { keeps_bind_prim. keeps_prim. }
  intros m _. keeps_bind_prim. keeps_prim.
Qed.

Lemma keeps_dawn_loop k poaMin poaMax s :
  keeps Inv (dawn_loop k poaMin poaMax s) (fun _ => True).
Proof.
  revert poaMin poaMax s. induction k as [|k IH]; intros poaMin poaMax s; simpl.
  - keeps_prim.
  - eapply keeps_bind; [apply keeps_perturb|]. intros s' _. apply IH.
Qed.

Lemma keeps_dusk_loop k poaMin poaMax s :
  keeps Inv (dusk_loop k poaMin poaMax s) (fun _ => True).
Proof.
  revert poaMin poaMax s. induction k as [|k IH]; intros poaMin poaMax s; simpl.
  - keeps_prim.
  - eapply keeps_bind; [apply keeps_perturb|]. intros s' _. apply IH.
Qed.

Lemma keeps_weatherSim s :
  P s -> keeps Inv (weatherSim s) P.
Proof.
  intros Hs. apply keeps_post with (Q1 := fun _ => True).
  - unfold weatherSim.
    eapply keeps_bind.
    { destruct (_ =? _); [|keeps_prim].
      eapply keeps_bind; [apply keeps_dawn_loop|]. intros; keeps_prim. }
    intros s1 _. eapply keeps_bind.
    { destruct (_ =? _); [apply keeps_perturb|].
      destruct (_ =? _); [apply keeps_perturb | keeps_prim]. }
    intros s2 _. eapply keeps_bind.
    { destruct (_ =? _); [|keeps_prim].
      eapply keeps_bind; [apply keeps_dusk_loop|]. intros; keeps_prim. }
    intros s3 _. keeps_prim.
  - intros w s' Hw. exact (P_weatherSim s w s' Hs Hw).
Qed.

Lemma keeps_SimulationController_feed_inverter irr i :
  keeps Inv (SimulationController_feed_inverter irr i) (fun _ => True).
Proof.
  unfold SimulationController_feed_inverter.
  keeps_bind_prim. keeps_bind_prim.
  apply keeps_putObj; [assumption | intros ? [=]].
Qed.

Lemma keeps_SimulationController_update r :
  keeps Inv (SimulationController_update r) (fun _ => True).
Proof.
  unfold SimulationController_update.
  eapply keeps_bind; [apply keeps_getSimulationController|].
  intros self [Hc HP].
  do 5 keeps_bind_prim.
  eapply keeps_bind; [apply keeps_getMeter|]. intros m Hm.
  keeps_put Hm. keeps_bind_prim.
  eapply keeps_bind.
  { apply keeps_fold_each. intros acc x.
    unfold SimulationController_add_reactive. keeps_bind_prim. keeps_prim. }
  intros acc _.
  assert (HP' : P (if truthy (SimulationController.voltageStepCommand self)
                   then SimulationController_set_voltageStepCommand 0 self
                   else self)).
  { destruct (truthy _); [apply P_voltageStepCommand|]; exact HP. }
  eapply keeps_bind.
  { apply keeps_putObj; [exact Hc | intros ? [= <-]; exact HP']. }
  intros _ _. do 3 keeps_bind_prim. keeps_put Hm.
  apply keeps_bind with (P := fun _ => True);
    [|intros _ _; apply keeps_SimulationController_writeModbus].
  destruct (SimulationController.simWeatherEnabled _); [|keeps_prim].
  eapply keeps_bind; [apply keeps_weatherSim; exact HP'|].
  intros s' Hs'. eapply keeps_bind.
  { apply keeps_putObj; [exact Hc | intros ? [= <-]; exact Hs']. }
  intros _ _. apply keeps_for_each. intros x.
  apply keeps_SimulationController_feed_inverter.
Qed.

Lemma keeps_update r : keeps Inv (update sqrt r) (fun _ => True).
Proof.
  intros w Hw. unfold update, Module_update.
  destruct (heap w !! r) as [[]|].
  - apply keeps_Inverter_writeModbus, Hw.
  - apply keeps_Meter_writeModbus, Hw.
  - apply keeps_Breaker_update, Hw.
  - apply keeps_Transformer_update, Hw.
  - apply keeps_SimulationController_update, Hw.
  - simpl. split; [exact Hw | intros; exact Logic.I].
Qed.

Lemma keeps_updateDevices devices :
  keeps Inv (updateDevices sqrt devices) (fun _ => True).
Proof.
  unfold updateDevices. apply keeps_for_each. intros g.
  apply keeps_for_each. intros r. apply keeps_update.
Qed.

Lemma loop_iteration_inv devices w :
  Inv w -> Inv (loop_iteration sqrt devices w).
Proof.
  intros Hw. unfold loop_iteration.
  destruct (keeps_updateDevices devices w Hw) as [H _].
  destruct (updateDevices sqrt devices w) as [w' [a|e]]; simpl in *.
  - exact H.
  - destruct H as [Hh Ht]. split; assumption.
Qed.

Lemma start_inv devices k w : Inv w -> Inv (start sqrt devices k w).
Proof.
  intros Hw. unfold start. induction k as [|k IH]; simpl.
  - exact Hw.
  - apply loop_iteration_inv, IH.
Qed.
End TickInvariant.

(** ** The weather state machine *)

(** A perturbation returns, keeps the weather state, and leaves the
    irradiance inside the band. *)
Lemma perturb_ok lo hi spike calm poaMin poaMax s w :
  exists w' s',
    perturb lo hi spike calm poaMin poaMax s w = (w', Ok s') /\
    SimulationController.weatherState s' = SimulationController.weatherState s /\
    ((poaMin <= poaMax)%Q ->
     (poaMin <= SimulationController.irradiance s' <= poaMax)%Q).
Proof.
  unfold perturb, poaDeviationMultiplier, bind, randint, ret. simpl.
  do 2 eexists. split; [reflexivity|]. split; [reflexivity|].
  intros Hband. simpl.
  match goal with |- context [Qltb poaMax ?x] => set (irr := x) end.
  destruct (Qltb poaMax irr) eqn:E1.
  - split; [exact Hband | apply Qle_refl].
  - apply Qltb_ge in E1. destruct (Qltb irr poaMin) eqn:E2.
    + split; [apply Qle_refl | exact Hband].
    + apply Qltb_ge in E2. split; assumption.
Qed.

Lemma dawn_loop_ok k poaMin poaMax s w :
  exists w' s',
    dawn_loop k poaMin poaMax s w = (w', Ok s') /\
    SimulationController.weatherState s' = SimulationController.weatherState s.
Proof.
  revert poaMin poaMax s w.
  induction k as [|k IH]; intros poaMin poaMax s w; simpl.
  - do 2 eexists. split; reflexivity.
  - destruct (perturb_ok (-10) 75 10 1 poaMin poaMax s w)
      as (w1 & s1 & E1 & Hs1 & _).
    rewrite (bind_ok _ _ _ _ _ E1).
    destruct (IH (poaMin + 75)%Q (poaMax + 80)%Q s1 w1) as (w2 & s2 & E2 & Hs2).
    exists w2, s2. split; [exact E2 | congruence].
Qed.

Lemma dusk_loop_ok k poaMin poaMax s w :
  exists w' s',
    dusk_loop k poaMin poaMax s w = (w', Ok s') /\
    SimulationController.weatherState s' = SimulationController.weatherState s.
Proof.
  revert poaMin poaMax s w.
  induction k as [|k IH]; intros poaMin poaMax s w; simpl.
  - do 2 eexists. split; reflexivity.
  - destruct (perturb_ok (-10) 75 10 1 poaMin poaMax s w)
      as (w1 & s1 & E1 & Hs1 & _).
    rewrite (bind_ok _ _ _ _ _ E1).
    match goal with |- context [dusk_loop k ?lo ?hi s1 w1] =>
      destruct (IH lo hi s1 w1) as (w2 & s2 & E2 & Hs2) end.
    exists w2, s2. split; [exact E2 | congruence].
Qed.

Lemma weatherSim_tail s :
  weatherSim s =
  bind (if SimulationController.weatherState s =? 0 then
          bind (dawn_loop 60 0 200 s)
            (fun self => ret (SimulationController_set_weatherState 1 self))
        else ret s)
    weather_tail.
Proof. reflexivity. Qed.

Lemma weather_tail_ok s w :
  exists w' s',
    weather_tail s w = (w', Ok s') /\
    let st := SimulationController.weatherState s in
    let irr' := SimulationController.irradiance s' in
    (st = 1 /\ (800 <= irr' <= 950)%Q) \/
    (st = 2 /\ (300 <= irr' <= 950)%Q) \/
    ((st = 4 \/ st = 5) /\ irr' = 0%Q /\
     SimulationController.weatherState s' = 0) \/
    (st <> 1 /\ st <> 2 /\ st <> 4 /\ st <> 5 /\ s' = s).
Proof.
  unfold weather_tail.
  destruct (Z.eqb_spec (SimulationController.weatherState s) 1) as [E1|N1].
  - destruct (perturb_ok (-100) 100 10 1 800 950 s w)
      as (w1 & s1 & Ep & Hs1 & Hb).
    rewrite (bind_ok _ _ _ _ _ Ep). unfold bind, ret. cbv beta.
    do 2 (rewrite ?Hs1, ?E1; simpl). exists w1, s1. split; [reflexivity|].
    left. split; [auto|]. apply Hb. discriminate.
  - destruct (Z.eqb_spec (SimulationController.weatherState s) 2) as [E2|N2].
    + destruct (perturb_ok (-100) 100 40 10 300 950 s w)
        as (w1 & s1 & Ep & Hs1 & Hb).
      rewrite (bind_ok _ _ _ _ _ Ep). unfold bind, ret. cbv beta.
      do 2 (rewrite ?Hs1, ?E2; simpl). exists w1, s1. split; [reflexivity|].
      right; left. split; [auto|]. apply Hb. discriminate.
    + unfold bind at 1. unfold ret at 1.
      destruct (Z.eqb_spec (SimulationController.weatherState s) 4) as [E4|N4].
      * destruct (dusk_loop_ok 60 100 500 s w) as (w1 & s1 & Ed & Hs1).
        unfold bind, ret. rewrite Ed. simpl.
        exists w1. eexists. split; [reflexivity|].
        right; right; left. simpl. auto.
      * unfold bind, ret.
        destruct (Z.eqb_spec (SimulationController.weatherState s) 5) as [E5|N5].
        -- exists w. eexists. split; [reflexivity|].
           right; right; left. simpl. auto.
        -- exists w, s. split; [reflexivity|].
           right; right; right. auto.
Qed.

(** The weather step always returns. *)
Lemma weatherSim_ok s w :
  exists w' s',
    weatherSim s w = (w', Ok s') /\
    (irradiance_bounded s -> irradiance_bounded s').
Proof.
  rewrite weatherSim_tail.
  assert (Htail : forall s0 w0,
    (irradiance_bounded s0 \/ SimulationController.weatherState s0 = 1) ->
    exists w' s', weather_tail s0 w0 = (w', Ok s') /\ irradiance_bounded s').
  { intros s0 w0 H0.
    destruct (weather_tail_ok s0 w0) as (w' & s' & E & Hc).
    exists w', s'. split; [exact E|]. unfold irradiance_bounded.
    destruct Hc as [[_ [H1 H2]] | [[_ [H1 H2]] | [(_ & H1 & _) | H]]].
    - split; [apply Qle_trans with 800%Q; [discriminate | exact H1]
             | apply Qle_trans with 950%Q; [exact H2 | discriminate]].
    - split; [apply Qle_trans with 300%Q; [discriminate | exact H1]
             | apply Qle_trans with 950%Q; [exact H2 | discriminate]].
    - rewrite H1. split; discriminate.
    - destruct H as (N1 & _ & _ & _ & ->).
      destruct H0 as [H0 | H0]; [exact H0 | contradiction]. }
  destruct (Z.eqb_spec (SimulationController.weatherState s) 0) as [E0|N0].
  - destruct (dawn_loop_ok 60 0 200 s w) as (w1 & s1 & Ed & _).
    unfold bind at 1. unfold bind at 1. rewrite Ed. unfold ret at 1.
    destruct (Htail (SimulationController_set_weatherState 1 s1) w1)
      as (w' & s' & E & Hb); [right; reflexivity|].
    exists w', s'. split; [exact E | intros _; exact Hb].
  - unfold bind at 1. unfold ret at 1.
    destruct (weather_tail_ok s w) as (w' & s' & E & Hc).
    exists w', s'. split; [exact E|]. intros Hs.
    destruct (Htail s w (or_introl Hs)) as (w2 & s2 & E2 & Hb2).
    rewrite E in E2. injection E2 as <- <-. exact Hb2.
Qed.

Lemma weatherSim_bounded s w s' :
  irradiance_bounded s -> snd (weatherSim s w) = Ok s' ->
  irradiance_bounded s'.
Proof.
  intros Hs Hr. destruct (weatherSim_ok s w) as (w1 & s1 & E & Hb).
  rewrite E in Hr. simpl in Hr. injection Hr as <-. exact (Hb Hs).
Qed.

Lemma obj_rel_refl P (h : list Obj) :
  (forall r s, h !! r = Some (OSimulationController s) -> P s) ->
  Forall2 (obj_rel P) h h.
Proof.
  intros HP. apply Forall2_same_length_lookup. split; [reflexivity|].
  intros r o o' Ho Ho'. rewrite Ho in Ho'. injection Ho' as <-.
  split; [reflexivity|]. intros s ->. exact (HP r s Ho).
Qed.

(** ** The scheduler tick and the registers *)


(** ** Weather bounds *)

(** C8: when every controller's irradiance lies in [0, 1000], as 900 of
    a new controller does, then after any number of ticks and for every
    source of random draws each controller is still there with its
    irradiance in [0, 1000]; and a weather step that starts in state 5
    ends in state 0 with the irradiance set to zero. *)
Theorem weather_irradiance_bounds (sqrt : Q -> Q) (devices : Devices)
  (w : World) (ticks : nat) :
  (forall r s, heap w !! r = Some (OSimulationController s) ->
               irradiance_bounded s) ->
  (forall r s, heap w !! r = Some (OSimulationController s) ->
     exists s',
       heap (start sqrt devices ticks w) !! r = Some (OSimulationController s')
       /\ irradiance_bounded s') /\
  (forall s w0, SimulationController.weatherState s = 5 ->
     exists w' s',
       weatherSim s w0 = (w', Ok s') /\
       SimulationController.weatherState s' = 0 /\
       SimulationController.irradiance s' = 0%Q).
Proof.
  intros Hw. split.
  - assert (Hinv : tick_inv irradiance_bounded (heap w) (fun _ => True) w).
    { split; [apply obj_rel_refl; exact Hw | exact Logic.I]. }
    pose proof (start_inv sqrt irradiance_bounded (heap w) (fun _ => True)
                  (fun _ _ _ _ _ H => H) (fun _ _ H => H)
                  weatherSim_bounded devices ticks w Hinv) as [Hh _].
    intros r s Hr.
    destruct (Forall2_lookup_l _ _ _ _ _ Hh Hr) as (o & Ho & Hc & HP).
    destruct o; try discriminate Hc.
    eexists. split; [exact Ho|]. apply HP. reflexivity.
  - intros s w0 H5. rewrite weatherSim_tail. rewrite H5. simpl.
    unfold bind at 1. unfold ret at 1.
    destruct (weather_tail_ok s w0) as (w' & s' & E & Hc).
    exists w', s'. split; [exact E|]. simpl in Hc. rewrite H5 in Hc.
    destruct Hc as [[? _] | [[? _] | [(_ & H1 & H2) | (_ & _ & _ & N & _)]]];
      try discriminate; [split; assumption | contradiction].
Qed.


(** C5, as stated, fails: in a plant whose main breaker has no
    transformers connection the update of the main breaker raises; the
    error is logged, and the check meter, which comes after the main
    breaker, is not updated in that tick although its own update would
    have exported its state. *)
Lemma tick_skips_devices_after_failure :
  let w := plant_world config_no_transformer false in
  let devices := plant_devices config_no_transformer false in
  concat (map snd devices) = [0; 1; 2; 3; 4]%nat /\
  snd (update sqrt_milli 2 (fst (for_each [0; 1]%nat (update sqrt_milli) w)))
    = Raise TypeError /\
  errors (loop_iteration sqrt_milli devices w) = [TypeError] /\
  exported 4 (trace (loop_iteration sqrt_milli devices w)) = false /\
  exported 4 (trace (fst (update sqrt_milli 3 w))) = true.
Proof. vm_compute. repeat split. Qed.

Lemma weather_irradiance_bounds_witness :
  let w := plant_world default_config true in
  (exists s',
     heap (start sqrt_milli (plant_devices default_config true) 2 w) !! 9%nat
       = Some (OSimulationController s') /\ irradiance_bounded s') /\
  (exists w' s',
     weatherSim
       (SimulationController_set_weatherState 5 (SimulationController.init 1))
       w = (w', Ok s') /\
     SimulationController.weatherState s' = 0 /\
     SimulationController.irradiance s' = 0%Q).
Proof.
  intros w.
  assert (Hw : forall r s, heap w !! r = Some (OSimulationController s) ->
                           irradiance_bounded s).
  { intros r s Hr.
    do 10 (destruct r as [|r]; [vm_compute in Hr; try discriminate Hr|]).
    - injection Hr as <-. split; discriminate.
    - vm_compute in Hr. discriminate Hr. }
  destruct (weather_irradiance_bounds sqrt_milli
              (plant_devices default_config true) w 2 Hw) as [H1 H2].
  split.
  - apply (H1 9%nat (SimulationController_set_simWeatherEnabled true
                       (SimulationController_set_base
                          {| slaveId := 10; name := "simControl";
                             moduleGroup := "Modules"; modbusContext := true;
                             connections :=
                               [("inverters", [0; 1; 2; 3]%nat);
                                ("meters", [8%nat]); ("breakers", [7%nat])];
                             config := None |}
                          (SimulationController.init 10)))).
    vm_compute. reflexivity.
  - apply H2. reflexivity.
Defined.

(** ** Command import of the simulation controller *)

(** C9: [readModbus] of the simulation controller never returns
    normally and changes neither an object nor a register; on a
    controller that is linked to its register file, whatever the
    registers hold, the exception is the [AttributeError] of the lookup
    of [self.self]. *)
Theorem SimulationController_readModbus_raises (w : World) (r : ref) :
  (exists e, snd (SimulationController_readModbus r w) = Raise e) /\
  heap (fst (SimulationController_readModbus r w)) = heap w /\
  context (fst (SimulationController_readModbus r w)) = context w /\
  (forall self s blk,
     heap w !! r = Some (OSimulationController self) ->
     modbusContext (SimulationController.base self) = true ->
     slaves (context w) !! slaveId (SimulationController.base self) = Some s ->
     blocks (context w) !! hr s = Some blk ->
     (slave_address 1 - address blk < length (values blk))%nat ->
     snd (SimulationController_readModbus r w)
       = Raise (AttributeError "self")).
Proof.
  unfold SimulationController_readModbus, SimulationController_getattr_self,
    getValues, context_getitem, getSimulationController, index, bind, raise, ret.
  destruct (heap w !! r) as [[| | | |self]|] eqn:Er; simpl.
  all: try (split; [eexists; reflexivity
                   |split; [reflexivity
                           |split; [reflexivity | intros; discriminate]]]).
  destruct (modbusContext (SimulationController.base self)) eqn:El; simpl.
  2:{ split; [eexists; reflexivity|]. do 2 (split; [reflexivity|]).
      intros ? ? ? [= <-]. congruence. }
  destruct (slaves (context w) !! slaveId (SimulationController.base self))
    as [s|] eqn:Es; simpl.
  2:{ split; [eexists; reflexivity|]. do 2 (split; [reflexivity|]).
      intros ? ? ? [= <-]. congruence. }
  destruct (blocks (context w) !! hr s) as [blk|] eqn:Eb; simpl.
  2:{ split; [eexists; reflexivity|]. do 2 (split; [reflexivity|]).
      intros self' s' blk' [= <-] _ Hs Hb. congruence. }
  destruct (block_getValues blk (slave_address 1) 9 !! 0%nat) as [v|] eqn:Ev;
    simpl.
  - split; [eexists; reflexivity|]. do 2 (split; [reflexivity|]).
    reflexivity.
  - split; [eexists; reflexivity|]. do 2 (split; [reflexivity|]).
    intros self' s' blk' [= <-] _ Hs Hb Hlen. exfalso.
    assert (s' = s) by congruence. subst s'.
    assert (blk' = blk) by congruence. subst blk'.
    unfold block_getValues, slice in Ev.
    apply lookup_ge_None in Ev. rewrite length_take, length_drop in Ev.
    lia.
Qed.

Lemma SimulationController_readModbus_raises_witness :
  snd (SimulationController_readModbus 9 (plant_world default_config true))
    = Raise (AttributeError "self").
Proof.
  eapply (proj2 (proj2 (proj2
            (SimulationController_readModbus_raises
               (plant_world default_config true) 9)))).
  - vm_compute. reflexivity.
  - reflexivity.
  - vm_compute. reflexivity.
  - vm_compute. reflexivity.
  - vm_compute. lia.
Defined.
(** ** Register files built by [buildContext] *)

Lemma initial_context_fresh :
  context_fresh {| blocks := initial_blocks; slaves := ∅ |}.
Proof.
  split; [|split].
  - intros i Hi. do 4 (destruct i as [|i]; [reflexivity|]). lia.
  - intros a s x Hs. simpl in Hs. rewrite lookup_empty in Hs. discriminate.
  - intros a b sa sb x y Hs. simpl in Hs. rewrite lookup_empty in Hs.
    discriminate.
Qed.

Lemma context_fresh_length c : context_fresh c -> (4 <= length (blocks c))%nat.
Proof.
  intros [Hb _]. pose proof (Hb 3%nat ltac:(lia)) as H3.
  apply lookup_lt_Some in H3. lia.
Qed.

(** The register file of a new device: four new blocks, copies of those
    of [baseDataStore]. *)
Lemma create_datastore_spec r o w :
  heap w !! r = Some o -> context_fresh (context w) ->
  let n := length (blocks (context w)) in
  create_datastore r w =
  (set_context
     {| blocks := blocks (context w) ++ replicate 4 zero_block;
        slaves := <[slaveId (obj_base o) :=
                    {| di := n; co := S n; hr := S (S n); ir := S (S (S n)) |}]>
                    (slaves (context w)) |} w, Ok tt).
Proof.
  intros Hr Hf n. pose proof (context_fresh_length _ Hf) as Hlen.
  destruct Hf as [Hb _].
  unfold create_datastore, getObj, deepcopy, copy_block, bind, ret.
  rewrite Hr. simpl.
  rewrite (Hb 0%nat ltac:(lia)). simpl.
  rewrite lookup_app_l by lia. rewrite (Hb 1%nat ltac:(lia)). simpl.
  rewrite !lookup_app_l by (rewrite ?length_app; simpl; lia).
  rewrite (Hb 2%nat ltac:(lia)). simpl.
  rewrite !lookup_app_l by (rewrite ?length_app; simpl; lia).
  rewrite (Hb 3%nat ltac:(lia)). simpl.
  unfold set_context. simpl. rewrite !length_app. simpl.
  rewrite <- !app_assoc. simpl.
  replace (length (blocks (context w)) + 1)%nat with (S n) by (subst n; lia).
  replace (S n + 1)%nat with (S (S n)) by lia.
  replace (S (S n) + 1)%nat with (S (S (S n))) by lia.
  reflexivity.
Qed.

Lemma context_fresh_create c a :
  context_fresh c ->
  let n := length (blocks c) in
  context_fresh
    {| blocks := blocks c ++ replicate 4 zero_block;
       slaves := <[a := {| di := n; co := S n; hr := S (S n);
                           ir := S (S (S n)) |}]> (slaves c) |}.
Proof.
  intros Hf n. pose proof (context_fresh_length _ Hf) as Hlen.
  destruct Hf as (Hb & Hs & Hi).
  assert (Hnew : forall x,
    let s := {| di := n; co := S n; hr := S (S n); ir := S (S (S n)) |} in
    (n <= bank_of s x)%nat /\
    (blocks c ++ replicate 4 zero_block) !! bank_of s x = Some zero_block).
  { intros x s. subst s n. destruct x; simpl; (split; [lia|]);
      rewrite lookup_app_r by lia;
      match goal with |- _ !! ?k = _ =>
        first [ replace k with 0%nat by lia | replace k with 1%nat by lia
              | replace k with 2%nat by lia | replace k with 3%nat by lia ]
      end; reflexivity. }
  assert (Hold : forall a' s x, slaves c !! a' = Some s ->
                                (bank_of s x < n)%nat).
  { intros a' s x Ha'. destruct (Hs a' s x Ha') as [_ Hl].
    apply lookup_lt_Some in Hl. exact Hl. }
  split; [|split]; simpl.
  - intros i Hlt. rewrite lookup_app_l by lia. apply Hb, Hlt.
  - intros a' s x Ha'. destruct (decide (a = a')) as [<-|Hne].
    + rewrite lookup_insert_eq in Ha'. injection Ha' as <-.
      destruct (Hnew x) as [H1 H2]. split; [fold n in Hlen; lia | exact H2].
    + rewrite lookup_insert_ne in Ha' by exact Hne.
      destruct (Hs a' s x Ha') as [H1 H2]. split; [exact H1|].
      rewrite lookup_app_l by (apply lookup_lt_Some in H2; exact H2).
      exact H2.
  - intros a1 a2 s1 s2 x y H1 H2 Heq.
    destruct (decide (a = a1)) as [<-|N1]; destruct (decide (a = a2)) as [<-|N2].
    + reflexivity.
    + rewrite lookup_insert_eq in H1. injection H1 as <-.
      rewrite lookup_insert_ne in H2 by exact N2.
      pose proof (Hold _ _ y H2). destruct (Hnew x) as [? _]. simpl in *. lia.
    + rewrite lookup_insert_eq in H2. injection H2 as <-.
      rewrite lookup_insert_ne in H1 by exact N1.
      pose proof (Hold _ _ x H1). destruct (Hnew y) as [? _]. simpl in *. lia.
    + rewrite lookup_insert_ne in H1 by exact N1.
      rewrite lookup_insert_ne in H2 by exact N2.
      exact (Hi _ _ _ _ _ _ H1 H2 Heq).
Qed.

(** The first loop of [buildContext]. *)
Lemma create_datastores_spec (refs : list ref) (w : World) :
  context_fresh (context w) ->
  (forall r, r ∈ refs -> is_Some (heap w !! r)) ->
  exists w',
    for_each refs create_datastore w = (w', Ok tt) /\
    heap w' = heap w /\
    context_fresh (context w') /\
    (forall a, is_Some (slaves (context w) !! a) ->
               is_Some (slaves (context w') !! a)) /\
    (forall r o, r ∈ refs -> heap w !! r = Some o ->
                 is_Some (slaves (context w') !! slaveId (obj_base o))).
Proof.
  revert w. induction refs as [|r refs IH]; intros w Hf Hv; simpl.
  - exists w. split; [reflexivity|]. split; [reflexivity|].
    split; [exact Hf|]. split; [auto|]. intros r o Hr. inversion Hr.
  - destruct (Hv r ltac:(left)) as [o Ho].
    rewrite (bind_ok _ _ _ _ _ (create_datastore_spec r o w Ho Hf)).
    match goal with |- context [for_each refs create_datastore ?w1] =>
      destruct (IH w1) as (w' & E & Hh & Hf' & Hdom & Hcov) end.
    + apply context_fresh_create, Hf.
    + intros r' Hr'. simpl. apply Hv. right. exact Hr'.
    + exists w'. split; [exact E|]. split; [exact Hh|]. split; [exact Hf'|].
      split.
      * intros a Ha. apply Hdom. simpl.
        destruct (decide (slaveId (obj_base o) = a)) as [<-|Hne].
        -- rewrite lookup_insert_eq. eauto.
        -- rewrite lookup_insert_ne by exact Hne. exact Ha.
      * intros r' o' Hr' Ho'. apply list_elem_of_In in Hr'.
        destruct Hr' as [<- | Hr'].
        -- apply Hdom. simpl. assert (o' = o) by congruence. subst o'.
           rewrite lookup_insert_eq. eauto.
        -- apply (Hcov r' o'); [apply list_elem_of_In, Hr' | exact Ho'].
Qed.

(** The second loop of [buildContext] touches no register. *)
Lemma link_contexts_spec (refs : list ref) (w : World) :
  (forall r, r ∈ refs -> is_Some (heap w !! r)) ->
  exists w',
    for_each refs link_context w = (w', Ok tt) /\ context w' = context w.
Proof.
  revert w. induction refs as [|r refs IH]; intros w Hv; simpl.
  - exists w. split; reflexivity.
  - destruct (Hv r ltac:(left)) as [o Ho].
    unfold bind at 1. unfold link_context at 1, getObj, bind, putObj.
    rewrite Ho. simpl.
    match goal with |- context [for_each refs link_context ?w1] =>
      destruct (IH w1) as (w' & E & Hc) end.
    + intros r' Hr'. simpl. apply lookup_lt_is_Some.
      rewrite length_insert. apply lookup_lt_is_Some, Hv. right. exact Hr'.
    + exists w'. split; [exact E | exact Hc].
Qed.

(** A write to the register file of one slave id leaves the banks of
    every other slave id as they are. *)
Lemma setValues_frame self fc addr new w b sb :
  context_fresh (context w) ->
  slaves (context w) !! b = Some sb -> slaveId self <> b ->
  let c' := context (fst (setValues self fc addr new w)) in
  slaves c' = slaves (context w) /\
  forall y, bank_cells c' sb y = bank_cells (context w) sb y.
Proof.
  intros (_ & _ & Hi) Hb Hne. unfold setValues, context_getitem, bind.
  destruct (modbusContext self); simpl; [|split; reflexivity].
  destruct (slaves (context w) !! slaveId self) as [s|] eqn:Es; simpl;
    [|split; reflexivity].
  destruct (decode fc) as [x|]; simpl; [|split; reflexivity].
  destruct (blocks (context w) !! bank_of s x) as [blk|] eqn:Eb; simpl;
    [|split; reflexivity].
  split; [reflexivity|]. intros y. unfold bank_cells. simpl.
  rewrite list_lookup_insert_ne; [reflexivity|].
  intros Heq. apply Hne. exact (Hi _ _ _ _ _ _ Es Hb Heq).
Qed.

(** C10: [buildContext] gives every device address a register file of its
    own, four banks of a hundred zero cells each, none of them shared
    with the register file of another address; hence a write to any bank
    of one address leaves every bank of every other address unchanged. *)
Theorem buildContext_register_files_independent (devices : Devices)
  (w : World) :
  context w = {| blocks := initial_blocks; slaves := ∅ |} ->
  (forall r, r ∈ concat (map snd devices) -> is_Some (heap w !! r)) ->
  exists w',
    buildContext devices w = (w', Ok tt) /\
    let c := context w' in
    (forall r o, r ∈ concat (map snd devices) -> heap w !! r = Some o ->
       is_Some (slaves c !! slaveId (obj_base o))) /\
    (forall a s x, slaves c !! a = Some s ->
       bank_cells c s x = Some (replicate 100 0)) /\
    (forall a b sa sb x y,
       a <> b -> slaves c !! a = Some sa -> slaves c !! b = Some sb ->
       bank_of sa x <> bank_of sb y) /\
    (forall a b sa sb self fc addr new w1,
       a <> b -> slaves c !! a = Some sa -> slaves c !! b = Some sb ->
       context w1 = c -> slaveId self = a ->
       let c' := context (fst (setValues self fc addr new w1)) in
       slaves c' = slaves c /\
       forall y, bank_cells c' sb y = bank_cells c sb y).
Proof.
  intros Hc Hv. unfold buildContext.
  assert (Hf : context_fresh (context w))
    by (rewrite Hc; apply initial_context_fresh).
  destruct (create_datastores_spec _ w Hf Hv) as (w1 & E1 & Hh & Hf1 & _ & Hcov).
  destruct (link_contexts_spec (concat (map snd devices)) w1)
    as (w2 & E2 & Hc2).
  { intros r Hr. rewrite Hh. apply Hv, Hr. }
  exists w2. split.
  { unfold bind. rewrite for_each_groups, E1. rewrite for_each_groups.
    exact E2. }
  simpl. rewrite Hc2. split; [exact Hcov|]. split; [|split].
  - intros a s x Hs. destruct Hf1 as (_ & Hs1 & _).
    destruct (Hs1 a s x Hs) as [_ Hz]. unfold bank_cells. rewrite Hz.
    reflexivity.
  - intros a b sa sb x y Hne Ha Hb Heq. destruct Hf1 as (_ & _ & Hi).
    apply Hne. exact (Hi _ _ _ _ _ _ Ha Hb Heq).
  - intros a b sa sb self fc addr new w3 Hne Ha Hb Hw3 Hself.
    rewrite <- Hw3 in Hf1, Ha, Hb |- *.
    apply (setValues_frame self fc addr new w3 b sb); [exact Hf1 | exact Hb|].
    rewrite Hself. exact Hne.
Qed.

Lemma buildContext_register_files_independent_witness :
  let w := fst (generateDevices default_config false (initial_world rand0)) in
  let devices := plant_devices default_config false in
  snd (buildContext devices w) = Ok tt /\
  forall self fc addr new,
    slaveId self = 1%nat ->
    forall y,
      bank_cells
        (context (fst (setValues self fc addr new (fst (buildContext devices w)))))
        {| di := 8; co := 9; hr := 10; ir := 11 |} y
      = Some (replicate 100 0).
Proof.
  intros w devices.
  destruct (buildContext_register_files_independent devices w)
    as (w' & E & _ & Hz & _ & Hfr).
  - vm_compute. reflexivity.
  - intros r Hr. vm_compute in Hr. apply list_elem_of_In in Hr.
    cbn [In] in Hr.
    repeat (destruct Hr as [<- | Hr]; [vm_compute; eauto|]). destruct Hr.
  - assert (Hw' : w' = fst (buildContext devices w)) by (rewrite E; reflexivity).
    subst w'. split; [rewrite E; reflexivity|].
    intros self fc addr new Hself y.
    destruct (Hfr 1%nat 2%nat {| di := 4; co := 5; hr := 6; ir := 7 |}
                {| di := 8; co := 9; hr := 10; ir := 11 |}
                self fc addr new (fst (buildContext devices w))) as [_ Hy].
    + discriminate.
    + vm_compute. reflexivity.
    + vm_compute. reflexivity.
    + reflexivity.
    + exact Hself.
    + rewrite Hy. apply (Hz 2%nat). vm_compute. reflexivity.
Defined.

(** ** Dictionaries *)

Lemma dict_get_set_eq {V} (d : list (string * V)) k v :
  dict_get (dict_set d k v) k = Some v.
Proof.
  induction d as [|[k' v'] d IH]; simpl.
  - rewrite String.eqb_refl. reflexivity.
  - destruct (String.eqb_spec k' k) as [->|Hne]; simpl.
    + rewrite String.eqb_refl. reflexivity.
    + destruct (String.eqb_spec k' k); [contradiction | exact IH].
Qed.

Lemma dict_get_set_ne {V} (d : list (string * V)) k k' v :
  k <> k' -> dict_get (dict_set d k v) k' = dict_get d k'.
Proof.
  intros Hne. induction d as [|[k0 v0] d IH]; simpl.
  - destruct (String.eqb_spec k k'); [contradiction | reflexivity].
  - destruct (String.eqb_spec k0 k) as [->|Hk]; simpl.
    + destruct (String.eqb_spec k k'); [contradiction | reflexivity].
    + destruct (String.eqb_spec k0 k'); [reflexivity | exact IH].
Qed.

Lemma dict_get_set_is_Some {V} (d : list (string * V)) k k' v :
  is_Some (dict_get d k') -> is_Some (dict_get (dict_set d k v) k').
Proof.
  intros H. destruct (decide (k = k')) as [->|Hne].
  - rewrite dict_get_set_eq. eauto.
  - rewrite dict_get_set_ne by exact Hne. exact H.
Qed.

Lemma dict_set_elem {V} (d : list (string * V)) k v g x :
  (g, x) ∈ dict_set d k v -> (g = k /\ x = v) \/ (g, x) ∈ d.
Proof.
  induction d as [|[k' v'] d IH]; simpl; intros H.
  - apply list_elem_of_singleton in H. injection H as -> ->. left. auto.
  - destruct (String.eqb_spec k' k) as [->|Hne].
    + apply elem_of_cons in H as [H|H].
      * injection H as -> ->. left. auto.
      * right. apply elem_of_cons. right. exact H.
    + apply elem_of_cons in H as [H|H].
      * right. rewrite H. apply elem_of_cons. left. reflexivity.
      * destruct (IH H) as [?|?]; [left; assumption|].
        right. apply elem_of_cons. right. assumption.
Qed.

Lemma dict_get_elem {V} (d : list (string * V)) k v :
  dict_get d k = Some v -> (k, v) ∈ d.
Proof.
  induction d as [|[k' v'] d IH]; simpl; intros H; [discriminate|].
  destruct (String.eqb_spec k' k) as [->|Hne].
  - injection H as ->. apply elem_of_cons. left. reflexivity.
  - apply elem_of_cons. right. apply IH, H.
Qed.

Lemma obj_base_set_base b o : obj_base (obj_set_base b o) = b.
Proof. destruct o; reflexivity. Qed.

Lemma for_each_returns {A} (Inv : World -> Prop) (l : list A)
  (f : A -> M unit) :
  (forall x w, x ∈ l -> Inv w -> exists w', f x w = (w', Ok tt) /\ Inv w') ->
  forall w, Inv w -> exists w', for_each l f w = (w', Ok tt) /\ Inv w'.
Proof.
  induction l as [|x l IH]; intros Hf w Hw; simpl.
  - exists w. split; [reflexivity | exact Hw].
  - destruct (Hf x w ltac:(left) Hw) as (w1 & E1 & H1).
    rewrite (bind_ok _ _ _ _ _ E1).
    apply IH; [|exact H1]. intros y w' Hy. apply Hf. right. exact Hy.
Qed.

(** ** The two passes of [generateDevices] *)

Lemma registry_ok_grow ok devices w o :
  registry_ok ok devices w ->
  registry_ok ok devices (set_heap (heap w ++ [o]) w).
Proof.
  intros H g refs r Hg Hr. destruct (H g refs r Hg Hr) as (o' & e & Ho & He).
  exists o', e. split; [|exact He]. simpl.
  rewrite lookup_app_l by (apply lookup_lt_Some in Ho; exact Ho). exact Ho.
Qed.

(** First pass over the entries of one group. *)
Lemma instantiate_entries_ok ok g es devices next w :
  is_Some (dict_get modules g) -> is_Some (dict_get devices g) ->
  (forall e, e ∈ es -> ok e) -> registry_ok ok devices w ->
  exists w' devices' next',
    fold_each es (devices, next) (instantiate g) w
      = (w', Ok (devices', next')) /\
    registry_ok ok devices' w' /\
    (forall g', is_Some (dict_get devices g') ->
                is_Some (dict_get devices' g')).
Proof.
  intros [class Hclass]. revert devices next w.
  induction es as [|e es IH]; intros devices next w [l Hl] Hes Hreg; simpl.
  - exists w, devices, next. split; [reflexivity|]. split; [exact Hreg | auto].
  - assert (Estep : instantiate g (devices, next) e w =
        (set_heap
           (heap w ++
            [obj_set_base (set_attributes e g (obj_base (class next)))
               (class next)]) w,
         Ok (dict_set devices g (l ++ [length (heap w)]), S next))).
    { unfold instantiate, getitem, devices_append, getitem, newObj, bind, ret.
      rewrite Hclass, Hl. reflexivity. }
    rewrite (bind_ok _ _ _ _ _ Estep).
    match goal with |- context [fold_each es (?d1, ?n1) _ ?w1] =>
      destruct (IH d1 n1 w1) as (w' & devices' & next' & E & Hreg' & Hkeys)
    end.
    + rewrite dict_get_set_eq. eauto.
    + intros e' He'. apply Hes. right. exact He'.
    + intros g' refs r Hg' Hr.
      apply dict_set_elem in Hg' as [[-> ->] | Hg'].
      * apply elem_of_app in Hr as [Hr | Hr].
        -- destruct (Hreg g l r (dict_get_elem _ _ _ Hl) Hr)
             as (o' & e' & Ho & He).
           exists o', e'. split; [|exact He]. simpl.
           rewrite lookup_app_l by (apply lookup_lt_Some in Ho; exact Ho).
           exact Ho.
        -- apply list_elem_of_singleton in Hr. subst r.
           eexists. exists e. simpl. split.
           ++ rewrite lookup_app_r by lia.
              replace (length (heap w) - length (heap w))%nat with 0%nat by lia.
              reflexivity.
           ++ rewrite obj_base_set_base. split; [reflexivity|].
              apply Hes. left.
      * exact (registry_ok_grow ok devices w _ Hreg g' refs r Hg' Hr).
    + exists w', devices', next'. split; [exact E|]. split; [exact Hreg'|].
      intros g' Hg'. apply Hkeys. apply dict_get_set_is_Some, Hg'.
Qed.

(** First pass over the groups. *)
Lemma instantiate_groups_ok ok config_devices devices next w :
  known_groups config_devices ->
  (forall g es e, (g, es) ∈ config_devices -> e ∈ es -> ok e) ->
  registry_ok ok devices w ->
  exists w' devices' next',
    fold_each config_devices (devices, next) instantiate_group w
      = (w', Ok (devices', next')) /\
    registry_ok ok devices' w' /\
    (forall g, is_Some (dict_get devices g) \/ g ∈ map fst config_devices ->
               is_Some (dict_get devices' g)).
Proof.
  revert devices next w.
  induction config_devices as [|[g es] cfg IH];
    intros devices next w Hknown Hok Hreg; simpl.
  - exists w, devices, next. split; [reflexivity|]. split; [exact Hreg|].
    intros g [H|H]; [exact H | inversion H].
  - destruct (instantiate_entries_ok ok g es (dict_set devices g []) next w)
      as (w1 & devices1 & next1 & E1 & Hreg1 & Hkeys1).
    + apply (Hknown g es). left.
    + rewrite dict_get_set_eq. eauto.
    + intros e He. apply (Hok g es e); [left | exact He].
    + intros g' refs r Hg' Hr.
      apply dict_set_elem in Hg' as [[-> ->] | Hg'].
      * inversion Hr.
      * exact (Hreg g' refs r Hg' Hr).
    + rewrite (bind_ok _ _ _ _ _ E1).
      destruct (IH devices1 next1 w1) as (w' & devices' & next' & E & Hreg' & Hkeys).
      * intros g' es' Hg'. apply (Hknown g' es'). right. exact Hg'.
      * intros g' es' e Hg'. apply (Hok g' es' e). right. exact Hg'.
      * exact Hreg1.
      * exists w', devices', next'. split; [exact E|]. split; [exact Hreg'|].
        intros g' [Hg' | Hg'].
        -- apply Hkeys. left. apply Hkeys1. apply dict_get_set_is_Some, Hg'.
        -- simpl in Hg'. apply elem_of_cons in Hg' as [-> | Hg'].
           ++ apply Hkeys. left. apply Hkeys1. rewrite dict_get_set_eq. eauto.
           ++ apply Hkeys. right. exact Hg'.
Qed.

(** The comprehension of the second pass: it reads names and changes
    nothing. *)
Lemma name_in_spec names d w :
  is_Some (heap w !! d) -> name_in names d w = (w, Ok (name_listed w names d)).
Proof.
  intros [o Ho]. unfold name_in, name_listed, getObj, bind, ret.
  rewrite Ho. reflexivity.
Qed.

Lemma filter_each_names names (group : list ref) w :
  (forall d, d ∈ group -> is_Some (heap w !! d)) ->
  filter_each group (name_in names) w
    = (w, Ok (List.filter (name_listed w names) group)).
Proof.
  induction group as [|d group IH]; intros Hv; simpl; [reflexivity|].
  rewrite (bind_ok _ _ _ _ _ (name_in_spec names d w (Hv d ltac:(left)))).
  rewrite (bind_ok _ _ _ _ _
             (IH (fun d' Hd' => Hv d' ltac:(right; exact Hd')))).
  reflexivity.
Qed.

(** One connection group of one device: the devices of the target group
    whose names are listed, and no error for a name that is not there. *)
Lemma resolve_input_spec devices connections inputType names group w :
  dict_get devices inputType = Some group ->
  (forall d, d ∈ group -> is_Some (heap w !! d)) ->
  resolve_input devices connections (inputType, names) w
    = (w, Ok (dict_set connections inputType
                (List.filter (name_listed w names) group))).
Proof.
  intros Hg Hv. unfold resolve_input, getitem, bind. rewrite Hg. simpl.
  rewrite (filter_each_names names group w Hv). reflexivity.
Qed.

Lemma resolve_inputs_ok devices raw connections w :
  (forall t names, (t, names) ∈ raw ->
     exists group, dict_get devices t = Some group /\
                   forall d, d ∈ group -> is_Some (heap w !! d)) ->
  exists connections',
    fold_each raw connections (resolve_input devices) w
      = (w, Ok connections').
Proof.
  revert connections. induction raw as [|[t names] raw IH];
    intros connections Hraw; simpl.
  - eexists. reflexivity.
  - destruct (Hraw t names ltac:(left)) as (group & Hg & Hv).
    rewrite (bind_ok _ _ _ _ _
               (resolve_input_spec devices connections t names group w Hg Hv)).
    apply IH. intros t' names' H'. apply (Hraw t' names'). right. exact H'.
Qed.
Lemma registry_ok_weaken (ok ok' : DeviceEntry -> Prop) devices w :
  (forall e, ok e -> ok' e) ->
  registry_ok ok devices w -> registry_ok ok' devices w.
Proof.
  intros Himp H g refs r Hg Hr.
  destruct (H g refs r Hg Hr) as (o & e & Ho & Hc & He).
  exists o, e. auto.
Qed.

(** Second pass, one device: it returns, whatever names are listed. *)
Lemma resolve_device_ok devices r w :
  let ok := fun e : DeviceEntry =>
    forall raw t names, e_connections e = Some raw -> (t, names) ∈ raw ->
                        is_Some (dict_get devices t) in
  registry_ok ok devices w ->
  (exists g refs, (g, refs) ∈ devices /\ r ∈ refs) ->
  exists w', resolve_device devices r w = (w', Ok tt) /\
             registry_ok ok devices w'.
Proof.
  intros ok Hreg (g & refs & Hg & Hr).
  destruct (Hreg g refs r Hg Hr) as (o & e & Ho & Hc & He).
  unfold resolve_device, getObj, bind at 1. rewrite Ho, Hc. simpl.
  destruct (e_connections e) as [[|x raw]|] eqn:Eraw.
  - exists w. split; [reflexivity | exact Hreg].
  - destruct (resolve_inputs_ok devices (x :: raw) [] w) as [c Ec].
    { intros t names Ht. destruct (He _ t names Eraw Ht) as [group Hgroup].
      exists group. split; [exact Hgroup|]. intros d Hd.
      destruct (Hreg t group d (dict_get_elem _ _ _ Hgroup) Hd)
        as (o' & _ & Ho' & _).
      eauto. }
    rewrite (bind_ok _ _ _ _ _ Ec). unfold putObj.
    eexists. split; [reflexivity|].
    intros g' refs' r' Hg' Hr'.
    destruct (Hreg g' refs' r' Hg' Hr') as (o' & e' & Ho' & Hc' & He').
    simpl. destruct (decide (r = r')) as [<-|Hne].
    + rewrite list_lookup_insert_eq by (apply lookup_lt_Some in Ho; exact Ho).
      eexists. exists e. split; [reflexivity|].
      rewrite obj_base_set_base. simpl. split; [exact Hc | exact He].
    + rewrite list_lookup_insert_ne by exact Hne. eauto.
  - exists w. split; [reflexivity | exact Hreg].
Qed.

(** Second pass over the registry. *)
Lemma resolve_groups_ok devices w :
  let ok := fun e : DeviceEntry =>
    forall raw t names, e_connections e = Some raw -> (t, names) ∈ raw ->
                        is_Some (dict_get devices t) in
  registry_ok ok devices w ->
  exists w', for_each devices (resolve_group devices) w = (w', Ok tt).
Proof.
  intros ok Hreg.
  destruct (for_each_returns (registry_ok ok devices) devices
              (resolve_group devices)) with (w := w) as (w' & E & _).
  - intros [g refs] w1 Hg H1. unfold resolve_group. simpl.
    apply (for_each_returns (registry_ok ok devices)); [|exact H1].
    intros r w2 Hr H2. apply resolve_device_ok; [exact H2|].
    exists g, refs. auto.
  - exact Hreg.
  - exists w'. exact E.
Qed.




(** ** Where an update can fail *)

Lemma triple_ret {A} (Pre : World -> Prop) (a : A) Q X :
  (forall w, Pre w -> Q a w) -> triple Pre (ret a) Q X.
Proof. intros H w Hw. simpl. apply H, Hw. Qed.

Lemma triple_raise {A} (Pre : World -> Prop) e (Q : A -> World -> Prop) X :
  (forall w, Pre w -> X w) -> triple Pre (raise e) Q X.
Proof. intros H w Hw. simpl. apply H, Hw. Qed.

Lemma triple_bind {A B} Pre (m : M A) (k : A -> M B) Q1 Q2 X :
  triple Pre m Q1 X -> (forall a, triple (Q1 a) (k a) Q2 X) ->
  triple Pre (bind m k) Q2 X.
Proof.
  intros Hm Hk w Hw. unfold bind. specialize (Hm w Hw).
  destruct (m w) as [w' [a|e]]; [apply (Hk a w' Hm) | exact Hm].
Qed.

Lemma triple_for_each {A} (Inv X : World -> Prop) (l : list A)
  (f : A -> M unit) :
  (forall x, triple Inv (f x) (fun _ => Inv) X) ->
  triple Inv (for_each l f) (fun _ => Inv) X.
Proof.
  intros Hf. induction l as [|x l IH]; simpl.
  - apply triple_ret. auto.
  - eapply triple_bind; [apply Hf|]. intros u. exact IH.
Qed.

Lemma triple_fold_each {A S} (Inv X : World -> Prop) (l : list A) (acc : S)
  (step : S -> A -> M S) :
  (forall acc x, triple Inv (step acc x) (fun _ => Inv) X) ->
  triple Inv (fold_each l acc step) (fun _ => Inv) X.
Proof.
  intros Hf. revert acc. induction l as [|x l IH]; intros acc; simpl.
  - apply triple_ret. auto.
  - eapply triple_bind; [apply Hf|]. intros acc'. apply IH.
Qed.

Lemma triple_iterable {A} (Inv X : World -> Prop) (l : option (list A)) :
  (forall w, Inv w -> X w) ->
  triple Inv (iterable l) (fun _ => Inv) X.
Proof.
  intros HX. destruct l; simpl; [apply triple_ret | apply triple_raise]; auto.
Qed.

(** Reading an object changes nothing and tells what is at the
    reference. *)
Lemma triple_getInverter (Inv X : World -> Prop) r :
  (forall w, Inv w -> X w) ->
  triple Inv (getInverter r)
    (fun o w => Inv w /\ heap w !! r = Some (OInverter o)) X.
Proof.
  intros HX w Hw. unfold getInverter.
  destruct (heap w !! r) as [[]|] eqn:E; simpl; try (apply HX; exact Hw).
  split; [exact Hw | exact E].
Qed.

Lemma triple_getBreaker (Inv X : World -> Prop) r :
  (forall w, Inv w -> X w) ->
  triple Inv (getBreaker r)
    (fun o w => Inv w /\ heap w !! r = Some (OBreaker o)) X.
Proof.
  intros HX w Hw. unfold getBreaker.
  destruct (heap w !! r) as [[]|] eqn:E; simpl; try (apply HX; exact Hw).
  split; [exact Hw | exact E].
Qed.

Lemma triple_getTransformer (Inv X : World -> Prop) r :
  (forall w, Inv w -> X w) ->
  triple Inv (getTransformer r)
    (fun o w => Inv w /\ heap w !! r = Some (OTransformer o)) X.
Proof.
  intros HX w Hw. unfold getTransformer.
  destruct (heap w !! r) as [[]|] eqn:E; simpl; try (apply HX; exact Hw).
  split; [exact Hw | exact E].
Qed.

(** A write to an object of another class is a write to another
    reference. *)
Lemma obj_kept_put r o c w i oi o' :
  obj_kept r o c w -> heap w !! i = Some oi -> class_of oi <> class_of o ->
  obj_kept r o c (set_heap (<[i := o']> (heap w)) w).
Proof.
  intros [Hr Hc] Hi Hcl. split; [|exact Hc]. simpl.
  rewrite list_lookup_insert_ne; [exact Hr|].
  intros ->. rewrite Hr in Hi. injection Hi as <-. apply Hcl. reflexivity.
Qed.

(** With its register file in place, an export returns. *)
Lemma setValues_returns self fc addr new x w :
  exportable (context w) self -> decode fc = Some x ->
  exists w', setValues self fc addr new w = (w', Ok tt) /\
             heap w' = heap w /\ exportable (context w') self.
Proof.
  intros (Hl & s & Hs & Hbanks) Hfc.
  unfold setValues, context_getitem, bind. rewrite Hl, Hs. simpl.
  rewrite Hfc. destruct (Hbanks x) as [blk Hblk]. rewrite Hblk.
  eexists. split; [reflexivity|]. split; [reflexivity|]. simpl.
  split; [exact Hl|]. exists s. split; [exact Hs|]. intros y.
  apply lookup_lt_is_Some. unfold set_context, add_event. simpl.
  rewrite length_insert. apply lookup_lt_is_Some, Hbanks.
Qed.

Lemma Breaker_writeModbus_returns sqrt r b w :
  heap w !! r = Some (OBreaker b) -> exportable (context w) (Breaker.base b) ->
  exists w', Breaker_writeModbus sqrt r w = (w', Ok tt) /\ heap w' = heap w.
Proof.
  intros Hr Hex. unfold Breaker_writeModbus, getBreaker, bind at 1.
  rewrite Hr.
  match goal with |- context [bind (setValues ?s ?fc ?a ?n) _] =>
    destruct (setValues_returns s fc a n BankI w Hex eq_refl)
      as (w1 & E1 & Hh1 & Hex1) end.
  rewrite (bind_ok _ _ _ _ _ E1).
  match goal with |- context [setValues ?s ?fc ?a ?n w1] =>
    destruct (setValues_returns s fc a n BankD w1 Hex1 eq_refl)
      as (w2 & E2 & Hh2 & _) end.
  exists w2. split; [exact E2 | congruence].
Qed.

Lemma Transformer_writeModbus_returns r t w :
  heap w !! r = Some (OTransformer t) ->
  exportable (context w) (Transformer.base t) ->
  exists w', Transformer_writeModbus r w = (w', Ok tt).
Proof.
  intros Hr Hex. unfold Transformer_writeModbus, getTransformer, bind at 1.
  rewrite Hr.
  match goal with |- context [setValues ?s ?fc ?a ?n w] =>
    destruct (setValues_returns s fc a n BankI w Hex eq_refl)
      as (w1 & E1 & _) end.
  exists w1. exact E1.
Qed.

Lemma triple_putObj_self r o o' c X :
  triple (obj_kept r o c) (putObj r o') (fun _ => obj_kept r o' c) X.
Proof.
  intros w [Hr Hc]. unfold putObj. simpl. split; [|exact Hc]. simpl.
  apply list_lookup_insert_eq. apply lookup_lt_Some in Hr. exact Hr.
Qed.

(** The loops of a breaker leave the breaker itself alone. *)
Lemma Breaker_feeder_block_triple r o c X self :
  class_of o = CBreaker -> (forall w, obj_kept r o c w -> X w) ->
  triple (obj_kept r o c) (Breaker_feeder_block self)
    (fun _ => obj_kept r o c) X.
Proof.
  intros Hcl HX. unfold Breaker_feeder_block.
  eapply triple_bind; [apply triple_iterable, HX|]. intros inverters.
  eapply triple_bind.
  { apply triple_fold_each. intros acc x. unfold Breaker_add_inverter.
    eapply triple_bind; [apply triple_getInverter, HX|]. intros i.
    apply triple_ret. intros w [Hw _]. exact Hw. }
  intros acc. eapply triple_bind; [|intros u; apply triple_ret; intros ? H; first [exact H | exact Logic.I]].
  apply triple_for_each. intros x. unfold Breaker_enable_inverter.
  eapply triple_bind; [apply triple_getInverter, HX|]. intros i w [Hw Hi].
  unfold putObj. apply (obj_kept_put r o c w x (OInverter i)); [exact Hw | exact Hi|].
  rewrite Hcl. discriminate.
Qed.

Lemma Breaker_main_block_triple r o c X self acc :
  (forall w, obj_kept r o c w -> X w) ->
  triple (obj_kept r o c) (Breaker_main_block self acc)
    (fun _ => obj_kept r o c) X.
Proof.
  intros HX. unfold Breaker_main_block.
  eapply triple_bind; [apply triple_iterable, HX|]. intros breakers.
  eapply triple_bind.
  { apply triple_fold_each. intros acc' x. unfold Breaker_add_breaker.
    eapply triple_bind; [apply triple_getBreaker, HX|]. intros i.
    apply triple_ret. intros w [Hw _]. exact Hw. }
  intros acc'. eapply triple_bind; [apply triple_iterable, HX|].
  intros transformers.
  apply triple_fold_each. intros acc'' x. unfold Breaker_add_transformer.
  eapply triple_bind; [apply triple_getTransformer, HX|]. intros i.
  apply triple_ret. intros w [Hw _]. exact Hw.
Qed.

(** A breaker whose register file is in place: when its update raises,
    it raises in the aggregation, before the backing fields are
    assigned. *)
Lemma Breaker_update_triple sqrt r b c :
  exportable c (Breaker.base b) ->
  triple (obj_kept r (OBreaker b) c) (Breaker_update sqrt r)
    (fun _ _ => True)
    (breaker_kept r (Breaker.base b) (Breaker.closeCommand b)
       (Breaker_backing b) c).
Proof.
  intros Hex.
  set (X := breaker_kept r (Breaker.base b) (Breaker.closeCommand b)
              (Breaker_backing b) c).
  assert (HX : forall b', Breaker.base b' = Breaker.base b ->
                 Breaker.closeCommand b' = Breaker.closeCommand b ->
                 Breaker_backing b' = Breaker_backing b ->
                 forall w, obj_kept r (OBreaker b') c w -> X w).
  { intros b' H1 H2 H3 w [Hr Hc]. split; [|exact Hc]. exists b'. auto. }
  unfold Breaker_update.
  eapply triple_bind; [apply triple_getBreaker, (HX b); reflexivity|].
  intros self w [[Hr Hc] Hself].
  assert (self = b) by congruence. subst self. revert w Hr Hc Hself.
  match goal with |- context [putObj r (OBreaker ?b0)] => set (b1 := b0) end.
  intros w Hr Hc _.
  assert (Htr : triple (obj_kept r (OBreaker b) c)
            (bind (putObj r (OBreaker b1))
               (fun _ =>
                  if String.eqb (moduleGroup (Breaker.base b1)) "feederBreakers"
                     && negb (nonempty (Breaker.inverters b1))
                  then ret tt
                  else
                    bind (if String.eqb (moduleGroup (Breaker.base b1))
                               "feederBreakers"
                          then Breaker_feeder_block b1 else ret Combined0)
                      (fun c0 =>
                         if String.eqb (moduleGroup (Breaker.base b1))
                              "mainBreakers"
                            && negb (nonempty (Breaker.breakers b1))
                         then ret tt
                         else
                           bind (if String.eqb (moduleGroup (Breaker.base b1))
                                      "mainBreakers"
                                 then Breaker_main_block b1 c0 else ret c0)
                             (fun c1 =>
                                bind (putObj r
                                        (OBreaker (Breaker_set_combined c1 b1)))
                                  (fun _ => Breaker_writeModbus sqrt r)))))
            (fun _ _ => True) X).
  { eapply triple_bind; [apply triple_putObj_self|]. intros u.
    destruct (_ && _); [apply triple_ret; intros ? H; first [exact H | exact Logic.I]|].
    eapply triple_bind with (Q1 := fun _ => obj_kept r (OBreaker b1) c).
    { destruct (String.eqb _ _).
      - apply Breaker_feeder_block_triple; [reflexivity|].
        apply (HX b1); reflexivity.
      - apply triple_ret; intros ? H; first [exact H | exact Logic.I]. }
    intros c0. destruct (_ && _); [apply triple_ret; intros ? H; first [exact H | exact Logic.I]|].
    eapply triple_bind with (Q1 := fun _ => obj_kept r (OBreaker b1) c).
    { destruct (String.eqb _ _).
      - apply Breaker_main_block_triple. apply (HX b1); reflexivity.
      - apply triple_ret; intros ? H; first [exact H | exact Logic.I]. }
    intros c1. eapply triple_bind; [apply triple_putObj_self|]. intros u'.
    intros w' [Hr' Hc'].
    destruct (Breaker_writeModbus_returns sqrt r _ w' Hr') as (w'' & E & _).
    { rewrite Hc'. exact Hex. }
    rewrite E. exact Logic.I. }
  apply (Htr w). split; assumption.
Qed.

Lemma Transformer_update_triple r t c :
  exportable c (Transformer.base t) ->
  triple (obj_kept r (OTransformer t) c) (Transformer_update r)
    (fun _ _ => True)
    (transformer_kept r (Transformer.base t) (Transformer.ratio t)
       (Transformer_backing t) c).
Proof.
  intros Hex.
  set (X := transformer_kept r (Transformer.base t) (Transformer.ratio t)
              (Transformer_backing t) c).
  assert (HX : forall t', Transformer.base t' = Transformer.base t ->
                 Transformer.ratio t' = Transformer.ratio t ->
                 Transformer_backing t' = Transformer_backing t ->
                 forall w, obj_kept r (OTransformer t') c w -> X w).
  { intros t' H1 H2 H3 w [Hr Hc]. split; [|exact Hc]. exists t'. auto. }
  unfold Transformer_update.
  eapply triple_bind; [apply triple_getTransformer, (HX t); reflexivity|].
  intros self w [[Hr Hc] Hself].
  assert (self = t) by congruence. subst self. revert w Hr Hc Hself.
  match goal with |- context [putObj r (OTransformer ?t0)] => set (t1 := t0) end.
  intros w Hr Hc _.
  assert (Htr : triple (obj_kept r (OTransformer t) c)
            (bind (putObj r (OTransformer t1))
               (fun _ =>
                  if negb (nonempty (Transformer.breakers t1)) then ret tt
                  else
                    bind (iterable (Transformer.breakers t1))
                      (fun breakers =>
                         bind (fold_each breakers Combined0
                                 Transformer_add_breaker)
                           (fun c0 =>
                              bind (putObj r
                                      (OTransformer
                                         (Transformer_set_combined
                                            {| CombinedRealPower :=
                                                 CombinedRealPower c0;
                                               CombinedReactivePower :=
                                                 CombinedReactivePower c0;
                                               CombinedVoltageL1 :=
                                                 CombinedVoltageL1 c0
                                                 / Qlen breakers;
                                               CombinedVoltageL2 :=
                                                 CombinedVoltageL2 c0
                                                 / Qlen breakers;
                                               CombinedVoltageL3 :=
                                                 CombinedVoltageL3 c0
                                                 / Qlen breakers |} t1)))
                                (fun _ => Transformer_writeModbus r)))))
            (fun _ _ => True) X).
  { eapply triple_bind; [apply triple_putObj_self|]. intros u.
    destruct (negb _); [apply triple_ret; intros ? H; first [exact H | exact Logic.I]|].
    eapply triple_bind; [apply triple_iterable, (HX t1); reflexivity|].
    intros breakers.
    eapply triple_bind with (Q1 := fun _ => obj_kept r (OTransformer t1) c).
    { apply triple_fold_each. intros acc x. unfold Transformer_add_breaker.
      eapply triple_bind; [apply triple_getBreaker, (HX t1); reflexivity|].
      intros i. apply triple_ret. intros w' [Hw' _]. exact Hw'. }
    intros c0. eapply triple_bind; [apply triple_putObj_self|]. intros u'.
    intros w' [Hr' Hc'].
    destruct (Transformer_writeModbus_returns r _ w' Hr') as [w'' E].
    { rewrite Hc'. exact Hex. }
    rewrite E. exact Logic.I. }
  apply (Htr w). split; assumption.
Qed.

(** An inverter or a meter only exports: its update changes no object. *)
Lemma Module_update_heap sqrt r w o :
  heap w !! r = Some o -> class_of o = CInverter \/ class_of o = CMeter ->
  heap (fst (update sqrt r w)) = heap w.
Proof.
  intros Hr Hcl. unfold update, Module_update. rewrite Hr.
  destruct o; destruct Hcl as [Hcl | Hcl]; try discriminate Hcl.
  - unfold Inverter_writeModbus, getInverter, setValues, context_getitem, bind.
    rewrite Hr. simpl.
    destruct (modbusContext _); [|reflexivity].
    destruct (slaves (context w) !! _); [|reflexivity]. simpl.
    destruct (blocks (context w) !! _); reflexivity.
  - unfold Meter_writeModbus, getMeter, setValues, context_getitem, bind.
    rewrite Hr. simpl.
    destruct (modbusContext _); [|reflexivity].
    destruct (slaves (context w) !! _); [|reflexivity]. simpl.
    destruct (blocks (context w) !! _); reflexivity.
Qed.

(** A controller without main breaker or without check meter fails on the
    first lines of its update, before anything is changed. *)
Lemma SimulationController_update_unwired r s w :
  heap w !! r = Some (OSimulationController s) ->
  fails_before_assignment w (OSimulationController s) ->
  SimulationController_update r w = (w, Raise IndexError).
Proof.
  intros Hr Hf. unfold SimulationController_update, getSimulationController,
    bind at 1. rewrite Hr.
  destruct Hf as [Hb | [(b & bs & Hb) Hm]].
  - unfold getitem, bind. rewrite Hb. reflexivity.
  - unfold getitem, bind. rewrite Hb. simpl. rewrite Hm. reflexivity.
Qed.

Lemma Breaker_readouts_eq b b' :
  Breaker.closeCommand b' = Breaker.closeCommand b ->
  Breaker_backing b' = Breaker_backing b ->
  Breaker_readouts b' = Breaker_readouts b.
Proof.
  unfold Breaker_backing, Breaker_readouts, Breaker.realPower,
    Breaker.reactivePower, Breaker.voltageL1, Breaker.voltageL2,
    Breaker.voltageL3, Breaker.frequency, Breaker.isBreakerClosed.
  intros -> [= -> -> -> -> -> ->]. reflexivity.
Qed.

(** When the update of a device raises before it assigns, the state the
    device had derived is still there. *)
Lemma failing_update_retains sqrt d w1 w2 e o :
  heap w1 !! d = Some o -> fails_before_assignment w1 o ->
  update sqrt d w1 = (w2, Raise e) ->
  exists o', heap w2 !! d = Some o' /\ derived o' = derived o.
Proof.
  intros Hd Hf Hu. destruct o as [i | m | b | t | s].
  - exists (OInverter i). split; [|reflexivity].
    pose proof (Module_update_heap sqrt d w1 _ Hd (or_introl eq_refl)) as Hh.
    rewrite Hu in Hh. simpl in Hh. rewrite Hh. exact Hd.
  - exists (OMeter m). split; [|reflexivity].
    pose proof (Module_update_heap sqrt d w1 _ Hd (or_intror eq_refl)) as Hh.
    rewrite Hu in Hh. simpl in Hh. rewrite Hh. exact Hd.
  - simpl in Hf. unfold update in Hu. rewrite Hd in Hu.
    pose proof (Breaker_update_triple sqrt d b (context w1) Hf w1
                  (conj Hd eq_refl)) as Ht.
    rewrite Hu in Ht. destruct Ht as [(b' & Hb' & _ & Hcmd & Hback) _].
    exists (OBreaker b'). split; [exact Hb'|]. unfold derived.
    rewrite Hback, (Breaker_readouts_eq b b' Hcmd Hback). reflexivity.
  - simpl in Hf. unfold update in Hu. rewrite Hd in Hu.
    pose proof (Transformer_update_triple d t (context w1) Hf w1
                  (conj Hd eq_refl)) as Ht.
    rewrite Hu in Ht. destruct Ht as [(t' & Ht' & _ & Hratio & Hback) _].
    exists (OTransformer t'). split; [exact Ht'|]. simpl.
    unfold Transformer.voltageL1, Transformer.voltageL2, Transformer.voltageL3.
    unfold Transformer_backing in Hback. injection Hback as -> -> -> -> ->.
    rewrite Hratio. reflexivity.
  - unfold update in Hu. rewrite Hd in Hu.
    rewrite (SimulationController_update_unwired d s w1 Hd Hf) in Hu.
    injection Hu as <- _. exists (OSimulationController s). auto.
Qed.

(** ** Failure of one device in a tick *)

(** C5, amended: when the update of one device raises, the pass over the
    devices ends with that exception in the very state the failing update
    left, so no device after it is updated in that tick; the event loop
    logs the error and its next iteration is a full pass again.  The
    derived state of the failing device is retained when the device is an
    inverter, a meter, a breaker or transformer whose register file is in
    place, or a controller without main breaker or check meter. *)
Theorem tick_stops_at_failing_device (sqrt : Q -> Q) (devices : Devices)
  (before after : list ref) (d : ref) (w w1 w2 : World) (e : Exn) :
  concat (map snd devices) = before ++ d :: after ->
  for_each before (update sqrt) w = (w1, Ok tt) ->
  update sqrt d w1 = (w2, Raise e) ->
  updateDevices sqrt devices w = (w2, Raise e) /\
  loop_iteration sqrt devices w = add_error e w2 /\
  start sqrt devices 2 w = loop_iteration sqrt devices (add_error e w2) /\
  (forall o, heap w1 !! d = Some o -> fails_before_assignment w1 o ->
     exists o', heap (add_error e w2) !! d = Some o' /\
                derived o' = derived o).
Proof.
  intros Hd Hb Hx.
  assert (Hu : updateDevices sqrt devices w = (w2, Raise e)).
  { unfold updateDevices. rewrite for_each_groups, Hd.
    eapply for_each_raise; eassumption. }
  split; [exact Hu|].
  assert (Hl : loop_iteration sqrt devices w = add_error e w2).
  { unfold loop_iteration. rewrite Hu. reflexivity. }
  split; [exact Hl|]. split.
  - unfold start. simpl. rewrite Hl. reflexivity.
  - intros o Ho Hf. exact (failing_update_retains sqrt d w1 w2 e o Ho Hf Hx).
Qed.

Lemma tick_stops_at_failing_device_witness :
  let w := plant_world config_no_transformer false in
  let devices := plant_devices config_no_transformer false in
  snd (updateDevices sqrt_milli devices w) = Raise TypeError /\
  errors (loop_iteration sqrt_milli devices w) = [TypeError] /\
  exists o', heap (loop_iteration sqrt_milli devices w) !! 2%nat = Some o' /\
             derived o' = derived (OBreaker (Breaker.init 3)).
Proof.
  intros w devices.
  destruct (tick_stops_at_failing_device sqrt_milli devices [0; 1]%nat
              [3; 4]%nat 2%nat w
              (fst (for_each [0; 1]%nat (update sqrt_milli) w))
              (fst (update sqrt_milli 2
                      (fst (for_each [0; 1]%nat (update sqrt_milli) w))))
              TypeError)
    as (Hu & Hl & _ & Hr).
  - vm_compute. reflexivity.
  - vm_compute. reflexivity.
  - vm_compute. reflexivity.
  - rewrite Hu, Hl. split; [reflexivity|]. split; [reflexivity|].
    edestruct Hr as (o' & Ho' & Hd').
    + vm_compute. reflexivity.
    + split; [reflexivity|]. eexists. split; [vm_compute; reflexivity|].
      intros []; vm_compute; eauto.
    + exists o'. split; [exact Ho'|]. rewrite Hd'. reflexivity.
Defined.

(** ** What the update of a main breaker computes *)

Lemma lookup_all_insert {A} (f g : ref -> option A) (l : list ref) :
  (forall r, r ∈ l -> g r = f r) -> lookup_all g l = lookup_all f l.
Proof.
  induction l as [|r l IH]; intros H; simpl; [reflexivity|].
  rewrite (H r ltac:(left)), IH; [reflexivity|].
  intros r' Hr'. apply H. right. exact Hr'.
Qed.

Lemma fold_Breaker_add_breaker (refs : list ref) bks c w :
  lookup_all (breaker_at w) refs = Some bks ->
  fold_each refs c Breaker_add_breaker w =
  (w, Ok {| CombinedRealPower :=
              Qsum_from (CombinedRealPower c) (map Breaker.realPower bks);
            CombinedReactivePower :=
              Qsum_from (CombinedReactivePower c)
                (map Breaker.reactivePower bks);
            CombinedVoltageL1 := CombinedVoltageL1 c;
            CombinedVoltageL2 := CombinedVoltageL2 c;
            CombinedVoltageL3 := CombinedVoltageL3 c |}).
Proof.
  revert bks c. induction refs as [|r refs IH]; intros bks c H; simpl in *.
  - injection H as <-. destruct c. reflexivity.
  - unfold breaker_at in H at 1.
    destruct (heap w !! r) as [[| |b| |]|] eqn:Er; try discriminate H.
    destruct (lookup_all (breaker_at w) refs) as [rest|] eqn:Erest;
      [|discriminate H].
    injection H as <-.
    unfold bind at 1. unfold Breaker_add_breaker at 1, getBreaker, bind, ret.
    rewrite Er. rewrite (IH rest _ eq_refl). reflexivity.
Qed.

Lemma fold_Breaker_add_transformer (refs : list ref) trs c w :
  lookup_all (transformer_at w) refs = Some trs ->
  fold_each refs c Breaker_add_transformer w =
  (w, Ok {| CombinedRealPower := CombinedRealPower c;
            CombinedReactivePower := CombinedReactivePower c;
            CombinedVoltageL1 :=
              Qsum_from (CombinedVoltageL1 c) (map Transformer.voltageL1 trs);
            CombinedVoltageL2 :=
              Qsum_from (CombinedVoltageL2 c) (map Transformer.voltageL2 trs);
            CombinedVoltageL3 :=
              Qsum_from (CombinedVoltageL3 c) (map Transformer.voltageL3 trs)
         |}).
Proof.
  revert trs c. induction refs as [|r refs IH]; intros trs c H; simpl in *.
  - injection H as <-. destruct c. reflexivity.
  - unfold transformer_at in H at 1.
    destruct (heap w !! r) as [[| | |t|]|] eqn:Er; try discriminate H.
    destruct (lookup_all (transformer_at w) refs) as [rest|] eqn:Erest;
      [|discriminate H].
    injection H as <-.
    unfold bind at 1. unfold Breaker_add_transformer at 1, getTransformer,
      bind, ret.
    rewrite Er. rewrite (IH rest _ eq_refl). reflexivity.
Qed.

(** The update of a main breaker with feeder breakers and a transformers
    connection, none of them the main breaker itself: the backing powers
    become the sums of the feeder breakers' power readouts, and the
    backing voltages become the sums, not the averages, of the
    transformers' voltage readouts. *)
Lemma Breaker_main_block_sums self c w fbs ts bks trs :
  Breaker.breakers self = Some fbs -> Breaker.transformers self = Some ts ->
  lookup_all (breaker_at w) fbs = Some bks ->
  lookup_all (transformer_at w) ts = Some trs ->
  Breaker_main_block self c w =
  (w, Ok {| CombinedRealPower :=
              Qsum_from (CombinedRealPower c) (map Breaker.realPower bks);
            CombinedReactivePower :=
              Qsum_from (CombinedReactivePower c)
                (map Breaker.reactivePower bks);
            CombinedVoltageL1 :=
              Qsum_from (CombinedVoltageL1 c) (map Transformer.voltageL1 trs);
            CombinedVoltageL2 :=
              Qsum_from (CombinedVoltageL2 c) (map Transformer.voltageL2 trs);
            CombinedVoltageL3 :=
              Qsum_from (CombinedVoltageL3 c) (map Transformer.voltageL3 trs)
         |}).
Proof.
  intros Hb Ht Hbks Htrs. unfold Breaker_main_block. rewrite Hb, Ht.
  simpl iterable. unfold bind at 1, ret at 1.
  rewrite (bind_ok _ _ _ _ _ (fold_Breaker_add_breaker fbs bks c w Hbks)).
  unfold bind at 1, ret at 1.
  rewrite (fold_Breaker_add_transformer ts trs _ w Htrs). reflexivity.
Qed.

Lemma mainBreaker_update_sums sqrt r b w fb fbs ts bks trs :
  heap w !! r = Some (OBreaker b) ->
  moduleGroup (Breaker.base b) = "mainBreakers" ->
  dict_get (connections (Breaker.base b)) "feederBreakers" = Some (fb :: fbs) ->
  dict_get (connections (Breaker.base b)) "transformers" = Some ts ->
  r ∉ fb :: fbs ->
  lookup_all (breaker_at w) (fb :: fbs) = Some bks ->
  lookup_all (transformer_at w) ts = Some trs ->
  exportable (context w) (Breaker.base b) ->
  exists w' b',
    Breaker_update sqrt r w = (w', Ok tt) /\
    heap w' !! r = Some (OBreaker b') /\
    Breaker._realPower b' = Qsum (map Breaker.realPower bks) /\
    Breaker._reactivePower b' = Qsum (map Breaker.reactivePower bks) /\
    Breaker._voltageL1 b' = Qsum (map Transformer.voltageL1 trs) /\
    Breaker._voltageL2 b' = Qsum (map Transformer.voltageL2 trs) /\
    Breaker._voltageL3 b' = Qsum (map Transformer.voltageL3 trs).
Proof.
  intros Hr Hg Hfb Hts Hnot Hbks Htrs Hex.
  unfold Breaker_update.
  assert (E0 : getBreaker r w = (w, Ok b))
    by (unfold getBreaker; rewrite Hr; reflexivity).
  rewrite (bind_ok _ _ _ _ _ E0). cbv beta zeta.
  cbn [Breaker.base Breaker_set_connected Breaker.inverters Breaker.breakers
       Breaker.transformers].
  rewrite Hg, Hfb, Hts.
  change ("mainBreakers" =? "feederBreakers")%string with false.
  change ("mainBreakers" =? "mainBreakers")%string with true.
  cbn [andb negb nonempty].
  set (b1 := Breaker_set_connected (Some (fb :: fbs))
               (dict_get (connections (Breaker.base b)) "inverters")
               (Some ts) b).
  set (w1 := set_heap (<[r := OBreaker b1]> (heap w)) w).
  assert (E1 : putObj r (OBreaker b1) w = (w1, Ok tt)) by reflexivity.
  rewrite (bind_ok _ _ _ _ _ E1).
  assert (Hlen : (r < length (heap w))%nat)
    by (apply lookup_lt_Some in Hr; exact Hr).
  assert (Hbks1 : lookup_all (breaker_at w1) (fb :: fbs) = Some bks).
  { rewrite <- Hbks. apply lookup_all_insert. intros r' Hr'.
    unfold breaker_at, w1. simpl. rewrite list_lookup_insert_ne; [reflexivity|].
    intros ->. contradiction. }
  assert (Htrs1 : lookup_all (transformer_at w1) ts = Some trs).
  { rewrite <- Htrs. apply lookup_all_insert. intros r' Hr'.
    unfold transformer_at, w1. simpl.
    destruct (decide (r = r')) as [<-|Hne].
    - rewrite list_lookup_insert_eq by exact Hlen. rewrite Hr. reflexivity.
    - rewrite list_lookup_insert_ne by exact Hne. reflexivity. }
  unfold bind at 1, ret at 1.
  rewrite (bind_ok _ _ _ _ _
             (Breaker_main_block_sums b1 Combined0 w1 (fb :: fbs) ts bks trs
                eq_refl eq_refl Hbks1 Htrs1)).
  match goal with |- context [putObj r (OBreaker ?bf)] => set (b2 := bf) end.
  set (w2 := set_heap (<[r := OBreaker b2]> (heap w1)) w1).
  assert (E2 : putObj r (OBreaker b2) w1 = (w2, Ok tt)) by reflexivity.
  rewrite (bind_ok _ _ _ _ _ E2).
  assert (Hr2 : heap w2 !! r = Some (OBreaker b2)).
  { unfold w2, w1. simpl. apply list_lookup_insert_eq.
    rewrite length_insert. exact Hlen. }
  destruct (Breaker_writeModbus_returns sqrt r b2 w2 Hr2 Hex) as (w3 & E3 & Hh3).
  exists w3, b2. split; [exact E3|]. split; [rewrite Hh3; exact Hr2|].
  repeat split.
Qed.

(** C3 at a failing input: with two transformers connected, one tick
    leaves in the main breaker the sum of the feeder breaker's real power
    and, as [mainBreaker_update_sums] says of every main breaker, the sum
    of the two transformer voltages, which is twice their average. *)
Theorem mainBreaker_voltage_not_averaged :
  let w :=
    fst (updateDevices sqrt_milli (plant_devices config_two_transformers false)
           (plant_world config_two_transformers false)) in
  exists fb t1 t2 mb,
    breaker_at w 1 = Some fb /\ transformer_at w 2 = Some t1 /\
    transformer_at w 3 = Some t2 /\ breaker_at w 4 = Some mb /\
    moduleGroup (Breaker.base mb) = "mainBreakers" /\
    Breaker.breakers mb = Some [1%nat] /\
    Breaker.transformers mb = Some [2%nat; 3%nat] /\
    (Breaker._realPower mb == Breaker.realPower fb)%Q /\
    (Breaker._voltageL1 mb ==
     Transformer.voltageL1 t1 + Transformer.voltageL1 t2)%Q /\
    ((Transformer.voltageL1 t1 + Transformer.voltageL1 t2) / 2 == 1292 # 10)%Q /\
    (Breaker._voltageL1 mb == 2584 # 10)%Q.
Proof.
  vm_compute. do 4 eexists. repeat split.
Qed.

(** * Further properties of the device model *)

(** ** Inverter reactive power *)

(** X1: the reactive power of an inverter is the lesser of the reactive
    setpoint and the maximal reactive power while the enable flag is
    true, and zero while it is false; an enabled inverter never reports
    more than either of the two, and there is no lower clamp: it reports
    a setpoint below the maximum as it is, negative ones included. *)
Theorem Inverter_reactivePower_clamp (self : Inverter.t) :
  (Inverter.reactivePower self ==
   if truthy (Inverter.isEnabled self)
   then Qmin (Inverter.reactivePowerSp self) (Inverter.maxReactivePower self)
   else 0)%Q /\
  (truthy (Inverter.isEnabled self) = true ->
   (Inverter.reactivePower self <= Inverter.reactivePowerSp self)%Q /\
   (Inverter.reactivePower self <= Inverter.maxReactivePower self)%Q /\
   ((Inverter.reactivePowerSp self < Inverter.maxReactivePower self)%Q ->
    Inverter.reactivePower self = Inverter.reactivePowerSp self)).
Proof.
  unfold Inverter.reactivePower.
  destruct (truthy (Inverter.isEnabled self)); cbv zeta.
  - destruct (Qltb (Inverter.reactivePowerSp self) _) eqn:E.
    + apply Qltb_lt in E. split.
      * symmetry. apply Q.min_l. apply Qlt_le_weak, E.
      * intros _. split; [apply Qle_refl|].
        split; [apply Qlt_le_weak, E | reflexivity].
    + apply Qltb_ge in E. split.
      * symmetry. apply Q.min_r. exact E.
      * intros _. split; [exact E|]. split; [apply Qle_refl|].
        intros Hlt. exfalso. apply (Qlt_not_le _ _ Hlt E).
  - split; [reflexivity | discriminate].
Qed.

Lemma Inverter_reactivePower_clamp_witness :
  Inverter.reactivePower (Inverter_set_reactivePowerSp (-200) (Inverter.init 1))
    = (-200)%Q.
Proof.
  apply (Inverter_reactivePower_clamp
           (Inverter_set_reactivePowerSp (-200) (Inverter.init 1)));
    reflexivity.
Defined.

(** ** Updates without connections *)

(** X2: degraded mode.  A feeder breaker without inverters, a main
    breaker without feeder breakers and a transformer without feeder
    breakers (the connection missing or empty) return from their update
    at once: nothing is exported, no register is touched, and the object
    keeps its backing fields; only its cached connection lists are
    refreshed.  This needs no register file. *)
Theorem update_without_connections (sqrt : Q -> Q) (r : ref) (w : World) :
  (forall b,
     heap w !! r = Some (OBreaker b) ->
     (moduleGroup (Breaker.base b) = "feederBreakers" /\
      nonempty (dict_get (connections (Breaker.base b)) "inverters") = false)
     \/
     (moduleGroup (Breaker.base b) = "mainBreakers" /\
      nonempty (dict_get (connections (Breaker.base b)) "feederBreakers")
        = false) ->
     update sqrt r w = (with_obj r (OBreaker (Breaker_refreshed b)) w, Ok tt))
  /\
  (forall t,
     heap w !! r = Some (OTransformer t) ->
     nonempty (dict_get (connections (Transformer.base t)) "feederBreakers")
       = false ->
     update sqrt r w
       = (with_obj r (OTransformer (Transformer_refreshed t)) w, Ok tt)).
Proof.
  split.
  - intros b Hr Hcase. unfold update. rewrite Hr.
    unfold Breaker_update, getBreaker, bind at 1. rewrite Hr.
    unfold bind at 1, putObj at 1. cbv beta zeta.
    cbn [Breaker.base Breaker_set_connected Breaker.inverters
         Breaker.breakers].
    destruct Hcase as [[Hg Hn] | [Hg Hn]]; rewrite Hg, Hn.
    + reflexivity.
    + change ("mainBreakers" =? "feederBreakers")%string with false.
      change ("mainBreakers" =? "mainBreakers")%string with true.
      reflexivity.
  - intros t Hr Hn. unfold update. rewrite Hr.
    unfold Transformer_update, getTransformer, bind at 1. rewrite Hr.
    unfold bind at 1, putObj at 1. cbv beta zeta.
    cbn [Transformer.base Transformer_set_breakers Transformer.breakers].
    rewrite Hn. reflexivity.
Qed.

Lemma update_without_connections_witness :
  let w := fst (generateDevices config_unknown_name false (initial_world rand0)) in
  update sqrt_milli 0
    (with_obj 0 (OTransformer (Transformer.init 1)) w)
  = (with_obj 0 (OTransformer (Transformer_refreshed (Transformer.init 1)))
       (with_obj 0 (OTransformer (Transformer.init 1)) w), Ok tt).
Proof.
  intros w.
  apply (update_without_connections sqrt_milli 0
           (with_obj 0 (OTransformer (Transformer.init 1)) w));
    reflexivity.
Defined.
(** ** Aggregation of a feeder breaker and of a transformer *)

Lemma fold_Breaker_add_inverter (refs : list ref) ivs c w :
  lookup_all (inverter_at w) refs = Some ivs ->
  fold_each refs c Breaker_add_inverter w =
  (w, Ok {| CombinedRealPower :=
              Qsum_from (CombinedRealPower c) (map Inverter.realPower ivs);
            CombinedReactivePower :=
              Qsum_from (CombinedReactivePower c)
                (map Inverter.reactivePower ivs);
            CombinedVoltageL1 :=
              Qsum_from (CombinedVoltageL1 c) (map Inverter.voltageL1 ivs);
            CombinedVoltageL2 :=
              Qsum_from (CombinedVoltageL2 c) (map Inverter.voltageL2 ivs);
            CombinedVoltageL3 :=
              Qsum_from (CombinedVoltageL3 c) (map Inverter.voltageL3 ivs)
         |}).
Proof.
  revert ivs c. induction refs as [|r refs IH]; intros ivs c H; simpl in *.
  - injection H as <-. destruct c. reflexivity.
  - unfold inverter_at in H at 1.
    destruct (heap w !! r) as [[i| | | |]|] eqn:Er; try discriminate H.
    destruct (lookup_all (inverter_at w) refs) as [rest|] eqn:Erest;
      [|discriminate H].
    injection H as <-.
    unfold bind at 1. unfold Breaker_add_inverter at 1, getInverter, bind, ret.
    rewrite Er. rewrite (IH rest _ eq_refl). reflexivity.
Qed.

Lemma fold_Transformer_add_breaker (refs : list ref) bks c w :
  lookup_all (breaker_at w) refs = Some bks ->
  fold_each refs c Transformer_add_breaker w =
  (w, Ok {| CombinedRealPower :=
              Qsum_from (CombinedRealPower c) (map Breaker.realPower bks);
            CombinedReactivePower :=
              Qsum_from (CombinedReactivePower c)
                (map Breaker.reactivePower bks);
            CombinedVoltageL1 :=
              Qsum_from (CombinedVoltageL1 c) (map Breaker.voltageL1 bks);
            CombinedVoltageL2 :=
              Qsum_from (CombinedVoltageL2 c) (map Breaker.voltageL2 bks);
            CombinedVoltageL3 :=
              Qsum_from (CombinedVoltageL3 c) (map Breaker.voltageL3 bks)
         |}).
Proof.
  revert bks c. induction refs as [|r refs IH]; intros bks c H; simpl in *.
  - injection H as <-. destruct c. reflexivity.
  - unfold breaker_at in H at 1.
    destruct (heap w !! r) as [[| |b| |]|] eqn:Er; try discriminate H.
    destruct (lookup_all (breaker_at w) refs) as [rest|] eqn:Erest;
      [|discriminate H].
    injection H as <-.
    unfold bind at 1. unfold Transformer_add_breaker at 1, getBreaker, bind, ret.
    rewrite Er. rewrite (IH rest _ eq_refl). reflexivity.
Qed.

Lemma lookup_all_Some {A} (f : ref -> option A) (refs : list ref) xs :
  lookup_all f refs = Some xs ->
  forall i, i ∈ refs -> is_Some (f i).
Proof.
  revert xs. induction refs as [|r refs IH]; intros xs H i Hi.
  - inversion Hi.
  - simpl in H. destruct (f r) as [a|] eqn:Ea; [|discriminate H].
    destruct (lookup_all f refs) as [rest|] eqn:Er; [|discriminate H].
    apply elem_of_cons in Hi as [-> | Hi]; [rewrite Ea; eauto|].
    exact (IH rest eq_refl i Hi).
Qed.

(** The loop that sets the enable flags: every listed inverter gets the
    close command as its flag, and nothing else changes. *)
Lemma enable_inverters_spec cmd (refs : list ref) w :
  (forall i, i ∈ refs -> is_Some (inverter_at w i)) ->
  exists w',
    for_each refs (Breaker_enable_inverter cmd) w = (w', Ok tt) /\
    context w' = context w /\ trace w' = trace w /\
    rand_pos w' = rand_pos w /\
    forall j, heap w' !! j =
              (if bool_decide (j ∈ refs) then enable_obj cmd <$> heap w !! j
               else heap w !! j).
Proof.
  revert w. induction refs as [|r refs IH]; intros w Hv; cbn [for_each].
  - exists w. do 4 (split; [reflexivity|]). intros j.
    rewrite bool_decide_eq_false_2; [reflexivity | apply not_elem_of_nil].
  - destruct (Hv r ltac:(left)) as [iv Hiv]. unfold inverter_at in Hiv.
    destruct (heap w !! r) as [[i| | | |]|] eqn:Er; try discriminate Hiv.
    unfold bind at 1.
    unfold Breaker_enable_inverter at 1, getInverter, bind, putObj.
    rewrite Er.
    set (w1 := set_heap (<[r := OInverter (Inverter_set_isEnabled cmd i)]>
                           (heap w)) w).
    assert (Hlen : (r < length (heap w))%nat)
      by (apply lookup_lt_Some in Er; exact Er).
    destruct (IH w1) as (w' & E & Hc & Ht & Hp & Hh).
    { intros j Hj. destruct (Hv j ltac:(right; exact Hj)) as [ivj Hj'].
      unfold inverter_at in *. unfold w1. simpl.
      destruct (decide (r = j)) as [<-|Hne].
      - rewrite list_lookup_insert_eq by exact Hlen. eauto.
      - rewrite list_lookup_insert_ne by exact Hne. eauto. }
    exists w'. split; [exact E|]. split; [exact Hc|]. split; [exact Ht|].
    split; [exact Hp|]. intros j. rewrite Hh. unfold w1. simpl.
    destruct (decide (r = j)) as [<-|Hne].
    + rewrite list_lookup_insert_eq by exact Hlen.
      rewrite (bool_decide_eq_true_2 (r ∈ r :: refs)) by left.
      rewrite Er. destruct (bool_decide (r ∈ refs)); reflexivity.
    + rewrite list_lookup_insert_ne by exact Hne.
      destruct (bool_decide (j ∈ refs)) eqn:Ej.
      * apply bool_decide_eq_true_1 in Ej.
        rewrite (bool_decide_eq_true_2 (j ∈ r :: refs)) by (right; exact Ej).
        reflexivity.
      * apply bool_decide_eq_false_1 in Ej.
        rewrite (bool_decide_eq_false_2 (j ∈ r :: refs)); [reflexivity|].
        intros Hj. apply elem_of_cons in Hj as [-> | Hj]; contradiction.
Qed.

Lemma Breaker_feeder_block_spec self (refs : list ref) ivs w :
  Breaker.inverters self = Some refs ->
  lookup_all (inverter_at w) refs = Some ivs ->
  exists w',
    Breaker_feeder_block self w =
    (w', Ok {| CombinedRealPower := Qsum (map Inverter.realPower ivs);
               CombinedReactivePower := Qsum (map Inverter.reactivePower ivs);
               CombinedVoltageL1 :=
                 Qsum (map Inverter.voltageL1 ivs) / Qlen refs;
               CombinedVoltageL2 :=
                 Qsum (map Inverter.voltageL2 ivs) / Qlen refs;
               CombinedVoltageL3 :=
                 Qsum (map Inverter.voltageL3 ivs) / Qlen refs |}%Q) /\
    context w' = context w /\ trace w' = trace w /\
    forall j, heap w' !! j =
              (if bool_decide (j ∈ refs)
               then enable_obj (Breaker.closeCommand self) <$> heap w !! j
               else heap w !! j).
Proof.
  intros Hi Hivs. unfold Breaker_feeder_block. rewrite Hi. simpl iterable.
  unfold bind at 1, ret at 1.
  rewrite (bind_ok _ _ _ _ _
             (fold_Breaker_add_inverter refs ivs Combined0 w Hivs)).
  destruct (enable_inverters_spec (Breaker.closeCommand self) refs w
              (lookup_all_Some _ _ _ Hivs))
    as (w' & E & Hc & Ht & _ & Hh).
  rewrite (bind_ok _ _ _ _ _ E).
  exists w'. split; [reflexivity|]. auto.
Qed.

Lemma Transformer_writeModbus_heap r t w :
  heap w !! r = Some (OTransformer t) ->
  exportable (context w) (Transformer.base t) ->
  exists w', Transformer_writeModbus r w = (w', Ok tt) /\ heap w' = heap w.
Proof.
  intros Hr Hex. unfold Transformer_writeModbus, getTransformer, bind at 1.
  rewrite Hr.
  match goal with |- context [setValues ?s ?fc ?a ?n w] =>
    destruct (setValues_returns s fc a n BankI w Hex eq_refl)
      as (w1 & E1 & Hh & _) end.
  exists w1. split; [exact E1 | exact Hh].
Qed.

Lemma feederBreaker_update_lemma (sqrt : Q -> Q) (r : ref) (b : Breaker.t)
  (w : World) (i : ref) (refs : list ref) (ivs : list Inverter.t) :
  heap w !! r = Some (OBreaker b) ->
  moduleGroup (Breaker.base b) = "feederBreakers" ->
  dict_get (connections (Breaker.base b)) "inverters" = Some (i :: refs) ->
  lookup_all (inverter_at w) (i :: refs) = Some ivs ->
  exportable (context w) (Breaker.base b) ->
  exists w' b',
    update sqrt r w = (w', Ok tt) /\
    heap w' !! r = Some (OBreaker b') /\
    Breaker._realPower b' = Qsum (map Inverter.realPower ivs) /\
    Breaker._reactivePower b' = Qsum (map Inverter.reactivePower ivs) /\
    Breaker._voltageL1 b' =
      (Qsum (map Inverter.voltageL1 ivs) / Qlen (i :: refs))%Q /\
    Breaker._voltageL2 b' =
      (Qsum (map Inverter.voltageL2 ivs) / Qlen (i :: refs))%Q /\
    Breaker._voltageL3 b' =
      (Qsum (map Inverter.voltageL3 ivs) / Qlen (i :: refs))%Q /\
    Breaker._frequency b' = Breaker._frequency b /\
    Breaker.closeCommand b' = Breaker.closeCommand b /\
    forall j, j <> r ->
      heap w' !! j =
      (if bool_decide (j ∈ i :: refs)
       then enable_obj (Breaker.closeCommand b) <$> heap w !! j
       else heap w !! j).
Proof.
  intros Hr Hg Hinv Hivs Hex. unfold update. rewrite Hr.
  unfold Breaker_update.
  assert (E0 : getBreaker r w = (w, Ok b))
    by (unfold getBreaker; rewrite Hr; reflexivity).
  rewrite (bind_ok _ _ _ _ _ E0). cbv beta zeta.
  cbn [Breaker.base Breaker_set_connected Breaker.inverters Breaker.breakers
       Breaker.transformers].
  rewrite Hg, Hinv.
  change ("feederBreakers" =? "feederBreakers")%string with true.
  change ("feederBreakers" =? "mainBreakers")%string with false.
  cbn [andb negb nonempty].
  set (b1 := Breaker_set_connected
               (dict_get (connections (Breaker.base b)) "feederBreakers")
               (Some (i :: refs))
               (dict_get (connections (Breaker.base b)) "transformers") b).
  set (w1 := set_heap (<[r := OBreaker b1]> (heap w)) w).
  assert (E1 : putObj r (OBreaker b1) w = (w1, Ok tt)) by reflexivity.
  rewrite (bind_ok _ _ _ _ _ E1).
  assert (Hlen : (r < length (heap w))%nat)
    by (apply lookup_lt_Some in Hr; exact Hr).
  assert (Hnot : r ∉ i :: refs).
  { intros Hin. destruct (lookup_all_Some _ _ _ Hivs r Hin) as [iv Hiv].
    unfold inverter_at in Hiv. rewrite Hr in Hiv. discriminate Hiv. }
  assert (Hivs1 : lookup_all (inverter_at w1) (i :: refs) = Some ivs).
  { rewrite <- Hivs. apply lookup_all_insert. intros r' Hr'.
    unfold inverter_at, w1. simpl. rewrite list_lookup_insert_ne; [reflexivity|].
    intros ->. contradiction. }
  destruct (Breaker_feeder_block_spec b1 (i :: refs) ivs w1 eq_refl Hivs1)
    as (w2 & E2 & Hc2 & _ & Hh2).
  rewrite (bind_ok _ _ _ _ _ E2). unfold bind at 1, ret at 1.
  match goal with |- context [putObj r (OBreaker ?bf)] => set (b2 := bf) end.
  set (w3 := set_heap (<[r := OBreaker b2]> (heap w2)) w2).
  assert (E3 : putObj r (OBreaker b2) w2 = (w3, Ok tt)) by reflexivity.
  rewrite (bind_ok _ _ _ _ _ E3).
  assert (Hr2 : heap w2 !! r = Some (OBreaker b1)).
  { rewrite Hh2. rewrite bool_decide_eq_false_2 by exact Hnot.
    unfold w1. simpl. apply list_lookup_insert_eq. exact Hlen. }
  assert (Hr3 : heap w3 !! r = Some (OBreaker b2)).
  { unfold w3. simpl. apply list_lookup_insert_eq.
    apply lookup_lt_Some in Hr2. exact Hr2. }
  destruct (Breaker_writeModbus_returns sqrt r b2 w3 Hr3) as (w4 & E4 & Hh4).
  { unfold w3. simpl. rewrite Hc2. exact Hex. }
  exists w4, b2. split; [exact E4|]. split; [rewrite Hh4; exact Hr3|].
  do 7 (split; [reflexivity|]).
  intros j Hj. rewrite Hh4. unfold w3. simpl.
  rewrite list_lookup_insert_ne by (intros ->; contradiction).
  rewrite Hh2. unfold w1. simpl.
  rewrite list_lookup_insert_ne by (intros ->; contradiction). reflexivity.
Qed.

Lemma Transformer_update_lemma (sqrt : Q -> Q) (r : ref) (t : Transformer.t)
  (w : World) (fb : ref) (refs : list ref) (bks : list Breaker.t) :
  heap w !! r = Some (OTransformer t) ->
  dict_get (connections (Transformer.base t)) "feederBreakers"
    = Some (fb :: refs) ->
  lookup_all (breaker_at w) (fb :: refs) = Some bks ->
  exportable (context w) (Transformer.base t) ->
  exists w' t',
    update sqrt r w = (w', Ok tt) /\
    heap w' !! r = Some (OTransformer t') /\
    Transformer._realPower t' = Qsum (map Breaker.realPower bks) /\
    Transformer._reactivePower t' = Qsum (map Breaker.reactivePower bks) /\
    Transformer._voltageL1 t' =
      (Qsum (map Breaker.voltageL1 bks) / Qlen (fb :: refs))%Q /\
    Transformer._voltageL2 t' =
      (Qsum (map Breaker.voltageL2 bks) / Qlen (fb :: refs))%Q /\
    Transformer._voltageL3 t' =
      (Qsum (map Breaker.voltageL3 bks) / Qlen (fb :: refs))%Q /\
    Transformer.voltageL1 t' =
      (Qsum (map Breaker.voltageL1 bks) / Qlen (fb :: refs)
       * Transformer.ratio t)%Q /\
    forall j, j <> r -> heap w' !! j = heap w !! j.
Proof.
  intros Hr Hconn Hbks Hex. unfold update. rewrite Hr.
  unfold Transformer_update.
  assert (E0 : getTransformer r w = (w, Ok t))
    by (unfold getTransformer; rewrite Hr; reflexivity).
  rewrite (bind_ok _ _ _ _ _ E0). cbv beta zeta.
  cbn [Transformer.base Transformer_set_breakers Transformer.breakers].
  rewrite Hconn. cbn [negb nonempty iterable].
  set (t1 := Transformer_set_breakers (Some (fb :: refs)) t).
  set (w1 := set_heap (<[r := OTransformer t1]> (heap w)) w).
  assert (E1 : putObj r (OTransformer t1) w = (w1, Ok tt)) by reflexivity.
  rewrite (bind_ok _ _ _ _ _ E1).
  assert (Hlen : (r < length (heap w))%nat)
    by (apply lookup_lt_Some in Hr; exact Hr).
  assert (Hnot : r ∉ fb :: refs).
  { intros Hin. destruct (lookup_all_Some _ _ _ Hbks r Hin) as [bk Hbk].
    unfold breaker_at in Hbk. rewrite Hr in Hbk. discriminate Hbk. }
  assert (Hbks1 : lookup_all (breaker_at w1) (fb :: refs) = Some bks).
  { rewrite <- Hbks. apply lookup_all_insert. intros r' Hr'.
    unfold breaker_at, w1. simpl. rewrite list_lookup_insert_ne; [reflexivity|].
    intros ->. contradiction. }
  unfold bind at 1, ret at 1.
  rewrite (bind_ok _ _ _ _ _
             (fold_Transformer_add_breaker (fb :: refs) bks Combined0 w1 Hbks1)).
  match goal with |- context [putObj r (OTransformer ?tf)] => set (t2 := tf) end.
  set (w2 := set_heap (<[r := OTransformer t2]> (heap w1)) w1).
  assert (E2 : putObj r (OTransformer t2) w1 = (w2, Ok tt)) by reflexivity.
  rewrite (bind_ok _ _ _ _ _ E2).
  assert (Hr2 : heap w2 !! r = Some (OTransformer t2)).
  { unfold w2, w1. simpl. apply list_lookup_insert_eq.
    rewrite length_insert. exact Hlen. }
  destruct (Transformer_writeModbus_heap r t2 w2 Hr2 Hex) as (w3 & E3 & Hh3).
  exists w3, t2. split; [exact E3|]. split; [rewrite Hh3; exact Hr2|].
  do 6 (split; [reflexivity|]).
  intros j Hj. rewrite Hh3. unfold w2, w1. simpl.
  rewrite !list_lookup_insert_ne by (intros ->; contradiction). reflexivity.
Qed.

(** X3: a feeder breaker with at least one inverter and its register
    file in place.  Its update returns; the backing powers become the
    sums of the inverters' power readouts, the backing voltages the
    averages of the inverters' voltages; frequency and close command are
    left alone; every connected inverter gets the breaker's close command
    as its enable flag, after the sums were taken; no other object
    changes. *)
Theorem feederBreaker_update_spec (sqrt : Q -> Q) (r : ref) (b : Breaker.t)
  (w : World) (i : ref) (refs : list ref) (ivs : list Inverter.t) :
  heap w !! r = Some (OBreaker b) ->
  moduleGroup (Breaker.base b) = "feederBreakers" ->
  dict_get (connections (Breaker.base b)) "inverters" = Some (i :: refs) ->
  lookup_all (inverter_at w) (i :: refs) = Some ivs ->
  exportable (context w) (Breaker.base b) ->
  exists w' b',
    update sqrt r w = (w', Ok tt) /\
    heap w' !! r = Some (OBreaker b') /\
    Breaker._realPower b' = Qsum (map Inverter.realPower ivs) /\
    Breaker._reactivePower b' = Qsum (map Inverter.reactivePower ivs) /\
    Breaker._voltageL1 b' =
      (Qsum (map Inverter.voltageL1 ivs) / Qlen (i :: refs))%Q /\
    Breaker._voltageL2 b' =
      (Qsum (map Inverter.voltageL2 ivs) / Qlen (i :: refs))%Q /\
    Breaker._voltageL3 b' =
      (Qsum (map Inverter.voltageL3 ivs) / Qlen (i :: refs))%Q /\
    Breaker._frequency b' = Breaker._frequency b /\
    Breaker.closeCommand b' = Breaker.closeCommand b /\
    forall j, j <> r ->
      heap w' !! j =
      (if bool_decide (j ∈ i :: refs)
       then enable_obj (Breaker.closeCommand b) <$> heap w !! j
       else heap w !! j).
Proof. exact (feederBreaker_update_lemma sqrt r b w i refs ivs). Qed.

(** X4: a transformer with at least one feeder breaker and its register
    file in place.  Its update returns; the backing powers become the
    sums of the breakers' power readouts and the backing (primary)
    voltages the averages of the breakers' voltage readouts; the ratio is
    left alone, so the secondary voltages are those averages times the
    ratio; no other object changes. *)
Theorem Transformer_update_spec (sqrt : Q -> Q) (r : ref) (t : Transformer.t)
  (w : World) (fb : ref) (refs : list ref) (bks : list Breaker.t) :
  heap w !! r = Some (OTransformer t) ->
  dict_get (connections (Transformer.base t)) "feederBreakers"
    = Some (fb :: refs) ->
  lookup_all (breaker_at w) (fb :: refs) = Some bks ->
  exportable (context w) (Transformer.base t) ->
  exists w' t',
    update sqrt r w = (w', Ok tt) /\
    heap w' !! r = Some (OTransformer t') /\
    Transformer._realPower t' = Qsum (map Breaker.realPower bks) /\
    Transformer._reactivePower t' = Qsum (map Breaker.reactivePower bks) /\
    Transformer._voltageL1 t' =
      (Qsum (map Breaker.voltageL1 bks) / Qlen (fb :: refs))%Q /\
    Transformer._voltageL2 t' =
      (Qsum (map Breaker.voltageL2 bks) / Qlen (fb :: refs))%Q /\
    Transformer._voltageL3 t' =
      (Qsum (map Breaker.voltageL3 bks) / Qlen (fb :: refs))%Q /\
    Transformer.voltageL1 t' =
      (Qsum (map Breaker.voltageL1 bks) / Qlen (fb :: refs)
       * Transformer.ratio t)%Q /\
    forall j, j <> r -> heap w' !! j = heap w !! j.
Proof. exact (Transformer_update_lemma sqrt r t w fb refs bks). Qed.

Lemma feederBreaker_update_spec_witness :
  let w := plant_world default_config false in
  let b := default (Breaker.init 0) (breaker_at w 4) in
  let ivs := default [] (lookup_all (inverter_at w) [0; 1]%nat) in
  exists w' b',
    update sqrt_milli 4 w = (w', Ok tt) /\
    heap w' !! 4%nat = Some (OBreaker b') /\
    Breaker._realPower b' = Qsum (map Inverter.realPower ivs) /\
    Breaker._reactivePower b' = Qsum (map Inverter.reactivePower ivs) /\
    Breaker._voltageL1 b' =
      (Qsum (map Inverter.voltageL1 ivs) / Qlen [0; 1]%nat)%Q /\
    Breaker._voltageL2 b' =
      (Qsum (map Inverter.voltageL2 ivs) / Qlen [0; 1]%nat)%Q /\
    Breaker._voltageL3 b' =
      (Qsum (map Inverter.voltageL3 ivs) / Qlen [0; 1]%nat)%Q /\
    Breaker._frequency b' = Breaker._frequency b /\
    Breaker.closeCommand b' = Breaker.closeCommand b /\
    forall j, j <> 4%nat ->
      heap w' !! j =
      (if bool_decide (j ∈ [0; 1]%nat)
       then enable_obj (Breaker.closeCommand b) <$> heap w !! j
       else heap w !! j).
Proof.
  intros w b ivs.
  apply (feederBreaker_update_spec sqrt_milli 4 b w 0 [1]%nat ivs).
  - vm_compute. reflexivity.
  - vm_compute. reflexivity.
  - vm_compute. reflexivity.
  - vm_compute. reflexivity.
  - split; [vm_compute; reflexivity|]. eexists.
    split; [vm_compute; reflexivity|].
    intros []; vm_compute; eauto.
Defined.

Lemma Transformer_update_spec_witness :
  let w := plant_world default_config false in
  let t := default (Transformer.init 0) (transformer_at w 6) in
  let bks := default [] (lookup_all (breaker_at w) [4; 5]%nat) in
  exists w' t',
    update sqrt_milli 6 w = (w', Ok tt) /\
    heap w' !! 6%nat = Some (OTransformer t') /\
    Transformer._realPower t' = Qsum (map Breaker.realPower bks) /\
    Transformer._reactivePower t' = Qsum (map Breaker.reactivePower bks) /\
    Transformer._voltageL1 t' =
      (Qsum (map Breaker.voltageL1 bks) / Qlen [4; 5]%nat)%Q /\
    Transformer._voltageL2 t' =
      (Qsum (map Breaker.voltageL2 bks) / Qlen [4; 5]%nat)%Q /\
    Transformer._voltageL3 t' =
      (Qsum (map Breaker.voltageL3 bks) / Qlen [4; 5]%nat)%Q /\
    Transformer.voltageL1 t' =
      (Qsum (map Breaker.voltageL1 bks) / Qlen [4; 5]%nat
       * Transformer.ratio t)%Q /\
    forall j, j <> 6%nat -> heap w' !! j = heap w !! j.
Proof.
  intros w t bks.
  apply (Transformer_update_spec sqrt_milli 6 t w 4 [5]%nat bks).
  - vm_compute. reflexivity.
  - vm_compute. reflexivity.
  - vm_compute. reflexivity.
  - split; [vm_compute; reflexivity|]. eexists.
    split; [vm_compute; reflexivity|].
    intros []; vm_compute; eauto.
Defined.

(** ** The weather state machine *)

Lemma only_draws_refl w : only_draws w w.
Proof. repeat split; reflexivity || lia. Qed.

Lemma only_draws_trans w1 w2 w3 :
  only_draws w1 w2 -> only_draws w2 w3 -> only_draws w1 w3.
Proof.
  intros (A1 & A2 & A3 & A4 & A5 & A6) (B1 & B2 & B3 & B4 & B5 & B6).
  repeat split; try congruence. lia.
Qed.

Lemma weather_result_id s :
  weather_result (SimulationController.weatherState s)
    (SimulationController.irradiance s) s = s.
Proof. destruct s. reflexivity. Qed.

Lemma weather_result_keep st irr s :
  SimulationController.weatherState s = st ->
  SimulationController_set_irradiance irr s = weather_result st irr s.
Proof. intros <-. destruct s. reflexivity. Qed.

Lemma perturb_spec lo hi spike calm poaMin poaMax s w :
  exists w' irr,
    perturb lo hi spike calm poaMin poaMax s w
      = (w', Ok (SimulationController_set_irradiance irr s)) /\
    only_draws w w' /\
    ((poaMin <= poaMax)%Q -> (poaMin <= irr <= poaMax)%Q).
Proof.
  destruct (perturb_ok lo hi spike calm poaMin poaMax s w)
    as (w' & s' & E & _ & Hb).
  unfold perturb, poaDeviationMultiplier, bind, randint, ret in E.
  simpl in E. injection E as Ew Es.
  exists w'. eexists. split; [|split].
  - unfold perturb, poaDeviationMultiplier, bind, randint, ret. simpl.
    rewrite Ew. reflexivity.
  - subst w'. repeat split; simpl; lia.
  - intros H. specialize (Hb H). subst s'. exact Hb.
Qed.

Lemma dawn_loop_spec k poaMin poaMax s w :
  exists w' irr,
    dawn_loop k poaMin poaMax s w
      = (w', Ok (SimulationController_set_irradiance irr s)) /\
    only_draws w w'.
Proof.
  revert poaMin poaMax s w.
  induction k as [|k IH]; intros poaMin poaMax s w; simpl.
  - exists w, (SimulationController.irradiance s). split.
    + unfold ret. destruct s. reflexivity.
    + apply only_draws_refl.
  - destruct (perturb_spec (-10) 75 10 1 poaMin poaMax s w)
      as (w1 & i1 & E1 & D1 & _).
    rewrite (bind_ok _ _ _ _ _ E1).
    destruct (IH (poaMin + 75)%Q (poaMax + 80)%Q
                (SimulationController_set_irradiance i1 s) w1)
      as (w2 & i2 & E2 & D2).
    exists w2, i2. split; [exact E2 | exact (only_draws_trans _ _ _ D1 D2)].
Qed.

Lemma dusk_loop_spec k poaMin poaMax s w :
  exists w' irr,
    dusk_loop k poaMin poaMax s w
      = (w', Ok (SimulationController_set_irradiance irr s)) /\
    only_draws w w'.
Proof.
  revert poaMin poaMax s w.
  induction k as [|k IH]; intros poaMin poaMax s w; simpl.
  - exists w, (SimulationController.irradiance s). split.
    + unfold ret. destruct s. reflexivity.
    + apply only_draws_refl.
  - destruct (perturb_spec (-10) 75 10 1 poaMin poaMax s w)
      as (w1 & i1 & E1 & D1 & _).
    rewrite (bind_ok _ _ _ _ _ E1).
    match goal with |- context [dusk_loop k ?lo ?hi ?s1 w1] =>
      destruct (IH lo hi s1 w1) as (w2 & i2 & E2 & D2) end.
    exists w2, i2. split; [exact E2 | exact (only_draws_trans _ _ _ D1 D2)].
Qed.

Lemma weatherSim_table (s : SimulationController.t) (w : World) :
  exists w' st' irr',
    weatherSim s w = (w', Ok (weather_result st' irr' s)) /\
    only_draws w w' /\
    let st := SimulationController.weatherState s in
    (st = 0 \/ st = 1 -> st' = 1 /\ (800 <= irr' <= 950)%Q) /\
    (st = 2 -> st' = 2 /\ (300 <= irr' <= 950)%Q) /\
    (st = 4 \/ st = 5 -> st' = 0 /\ irr' = 0%Q) /\
    (st <> 0 -> st <> 1 -> st <> 2 -> st <> 4 -> st <> 5 ->
     st' = st /\ irr' = SimulationController.irradiance s).
Proof.
  unfold weatherSim.
  destruct (Z.eqb_spec (SimulationController.weatherState s) 0) as [E0|N0].
  - destruct (dawn_loop_spec 60 0 200 s w) as (w1 & i1 & E1 & D1).
    rewrite (bind_ok _ _ _ _ _
               (bind_ok _ _ _ _ _ E1 : bind (dawn_loop 60 0 200 s) _ w = _)).
    unfold ret at 1.
    cbn [SimulationController.weatherState SimulationController_set_weatherState
         SimulationController_set_irradiance Z.eqb Pos.eqb].
    destruct (perturb_spec (-100) 100 10 1 800 950
                (SimulationController_set_weatherState 1
                   (SimulationController_set_irradiance i1 s)) w1)
      as (w2 & i2 & E2 & D2 & Hb).
    rewrite (bind_ok _ _ _ _ _ E2).
    cbn [SimulationController.weatherState SimulationController_set_weatherState
         SimulationController_set_irradiance Z.eqb Pos.eqb].
    unfold bind, ret.
    exists w2, 1, i2. split; [reflexivity|].
    split; [exact (only_draws_trans _ _ _ D1 D2)|]. simpl.
    split; [intros _; split; [reflexivity | apply Hb; discriminate]|].
    split; [intros H; rewrite E0 in H; discriminate H|].
    split; [intros [H|H]; rewrite E0 in H; discriminate H|].
    intros H; contradiction.
  - unfold bind at 1, ret at 1.
    destruct (Z.eqb_spec (SimulationController.weatherState s) 1) as [E1|N1].
    + destruct (perturb_spec (-100) 100 10 1 800 950 s w)
        as (w2 & i2 & E2 & D2 & Hb).
      rewrite (bind_ok _ _ _ _ _ E2).
      cbn [SimulationController.weatherState SimulationController_set_irradiance].
      rewrite E1. unfold bind, ret. simpl.
      exists w2, 1, i2.
      split; [rewrite <- (weather_result_keep 1 i2 s E1), ?E1; reflexivity|].
      split; [exact D2|].
      split; [intros _; split; [reflexivity | apply Hb; discriminate]|].
      split; [intros H; discriminate H|].
      split; [intros [H|H]; discriminate H|].
      intros _ H; contradiction.
    + destruct (Z.eqb_spec (SimulationController.weatherState s) 2) as [E2|N2].
      * destruct (perturb_spec (-100) 100 40 10 300 950 s w)
          as (w2 & i2 & E3 & D2 & Hb).
        rewrite (bind_ok _ _ _ _ _ E3).
        cbn [SimulationController.weatherState
             SimulationController_set_irradiance].
        rewrite E2. unfold bind, ret. simpl.
        exists w2, 2, i2.
        split; [rewrite <- (weather_result_keep 2 i2 s E2), ?E2; reflexivity|].
        split; [exact D2|].
        split; [intros [H|H]; discriminate H|].
        split; [intros _; split; [reflexivity | apply Hb; discriminate]|].
        split; [intros [H|H]; discriminate H|].
        intros _ _ H; contradiction.
      * unfold bind at 1, ret at 1.
        destruct (Z.eqb_spec (SimulationController.weatherState s) 4)
          as [E4|N4].
        -- destruct (dusk_loop_spec 60 100 500 s w) as (w1 & i1 & E1 & D1).
           rewrite (bind_ok _ _ _ _ _
               (bind_ok _ _ _ _ _ E1 : bind (dusk_loop 60 100 500 s) _ w = _)).
           unfold ret.
           cbn [SimulationController.weatherState
                SimulationController_set_weatherState
                SimulationController_set_irradiance Z.eqb Pos.eqb].
           exists w1, 0, 0%Q. split; [reflexivity|].
           split; [exact D1|]. simpl.
           split; [intros [H|H]; congruence|].
           split; [intros H; congruence|].
           split; [intros _; split; reflexivity|].
           intros _ _ _ H; contradiction.
        -- unfold bind, ret.
           destruct (Z.eqb_spec (SimulationController.weatherState s) 5)
             as [E5|N5].
           ++ exists w, 0, 0%Q. split; [reflexivity|].
              split; [apply only_draws_refl|]. simpl.
              split; [intros [H|H]; congruence|].
              split; [intros H; congruence|].
              split; [intros _; split; reflexivity|].
              intros _ _ _ _ H; contradiction.
           ++ exists w, (SimulationController.weatherState s),
                (SimulationController.irradiance s).
              split; [rewrite weather_result_id; reflexivity|].
              split; [apply only_draws_refl|]. simpl.
              split; [intros [H|H]; contradiction|].
              split; [intros H; contradiction|].
              split; [intros [H|H]; contradiction|].
              intros _ _ _ _ _; split; reflexivity.
Qed.

(** X5: the transition table of the weather state machine.  The step
    always returns; it changes nothing of the controller but the weather
    state and the irradiance, and nothing of the world but the position
    in the random source.  From state 0 (dawn) and state 1 it ends in
    state 1 with the irradiance in the band 800..950; state 2 is kept,
    with the band 300..950; from state 4 (dusk) and state 5 (night) it
    ends in state 0 with the irradiance at zero, both within the same
    call; any other state is left alone, with its irradiance. *)
Theorem weatherSim_transitions (s : SimulationController.t) (w : World) :
  exists w' st' irr',
    weatherSim s w = (w', Ok (weather_result st' irr' s)) /\
    only_draws w w' /\
    let st := SimulationController.weatherState s in
    (st = 0 \/ st = 1 -> st' = 1 /\ (800 <= irr' <= 950)%Q) /\
    (st = 2 -> st' = 2 /\ (300 <= irr' <= 950)%Q) /\
    (st = 4 \/ st = 5 -> st' = 0 /\ irr' = 0%Q) /\
    (st <> 0 -> st <> 1 -> st <> 2 -> st <> 4 -> st <> 5 ->
     st' = st /\ irr' = SimulationController.irradiance s).
Proof. exact (weatherSim_table s w). Qed.


Lemma weatherSim_day_mode s w s' :
  day_mode s -> snd (weatherSim s w) = Ok s' -> day_mode s'.
Proof.
  intros Hs Hr.
  destruct (weatherSim_table s w) as (w1 & st & irr & E & _ & H01 & _).
  rewrite E in Hr. simpl in Hr. injection Hr as <-.
  assert (H : SimulationController.weatherState s = 0 \/
              SimulationController.weatherState s = 1)
    by (destruct Hs as [H | [H _]]; auto).
  destruct (H01 H) as [-> Hb]. right. split; [reflexivity | exact Hb].
Qed.

Lemma weatherSim_settings p s w s' :
  settings s = p -> snd (weatherSim s w) = Ok s' -> settings s' = p.
Proof.
  intros Hs Hr.
  destruct (weatherSim_table s w) as (w1 & st & irr & E & _).
  rewrite E in Hr. simpl in Hr. injection Hr as <-. exact Hs.
Qed.

Lemma controllers_after_ticks (sqrt : Q -> Q)
  (P : SimulationController.t -> Prop) (devices : Devices) (ticks : nat)
  (w : World) :
  (forall v s, P s -> P (SimulationController_set_voltageStepCommand v s)) ->
  (forall s w0 s', P s -> snd (weatherSim s w0) = Ok s' -> P s') ->
  (forall r s, heap w !! r = Some (OSimulationController s) -> P s) ->
  forall r s, heap w !! r = Some (OSimulationController s) ->
    exists s', heap (start sqrt devices ticks w) !! r
                 = Some (OSimulationController s') /\ P s'.
Proof.
  intros Hv Hsim Hw r s Hr.
  assert (Hinv : tick_inv P (heap w) (fun _ => True) w).
  { split; [apply obj_rel_refl; exact Hw | exact Logic.I]. }
  pose proof (start_inv sqrt P (heap w) (fun _ => True)
                (fun _ _ _ _ _ H => H) Hv Hsim devices ticks w Hinv)
    as [Hh _].
  destruct (Forall2_lookup_l _ _ _ _ _ Hh Hr) as (o & Ho & Hc & HP).
  destruct o; try discriminate Hc.
  eexists. split; [exact Ho|]. apply HP. reflexivity.
Qed.

(** X6: day mode is absorbing.  If every controller of the heap is in
    weather state 0, or in state 1 with its irradiance in 800..950, then
    so is every controller after any number of ticks of the event loop,
    whatever the devices and whether or not updates fail on the way: the
    branches for states 2, 4 and 5 are never entered. *)
Theorem tick_keeps_day_mode (sqrt : Q -> Q) (devices : Devices)
  (ticks : nat) (w : World) :
  (forall r s, heap w !! r = Some (OSimulationController s) -> day_mode s) ->
  forall r s, heap w !! r = Some (OSimulationController s) ->
    exists s', heap (start sqrt devices ticks w) !! r
                 = Some (OSimulationController s') /\ day_mode s'.
Proof.
  apply controllers_after_ticks.
  - intros v s Hs. exact Hs.
  - intros s w0 s'. apply weatherSim_day_mode.
Qed.

(** X7: no tick changes the settings of a controller.  If every
    controller of the heap has the settings [p] (identity and wiring, the
    weather switch, the deviations, limits and ratios), then so has every
    controller after any number of ticks of the event loop: only the
    irradiance, the weather state and the voltage step command are ever
    assigned. *)
Theorem tick_keeps_settings (sqrt : Q -> Q) (devices : Devices)
  (ticks : nat) (w : World) (p : ModuleBase * bool * list Q) :
  (forall r s, heap w !! r = Some (OSimulationController s) ->
     settings s = p) ->
  forall r s, heap w !! r = Some (OSimulationController s) ->
    exists s', heap (start sqrt devices ticks w) !! r
                 = Some (OSimulationController s') /\ settings s' = p.
Proof.
  apply (controllers_after_ticks sqrt (fun s => settings s = p)).
  - intros v s Hs. exact Hs.
  - intros s w0 s'. apply weatherSim_settings.
Qed.

Lemma tick_keeps_day_mode_witness :
  let w := plant_world default_config true in
  exists s',
    heap (start sqrt_milli (plant_devices default_config true) 2 w) !! 9%nat
      = Some (OSimulationController s') /\ day_mode s'.
Proof.
  intros w.
  apply (tick_keeps_day_mode sqrt_milli (plant_devices default_config true)
           2 w)
    with (s := default (SimulationController.init 0) (controller_at w 9)).
  - intros r s Hr.
    do 10 (destruct r as [|r]; [vm_compute in Hr; try discriminate Hr|]).
    + injection Hr as <-. left. reflexivity.
    + vm_compute in Hr. discriminate Hr.
  - vm_compute. reflexivity.
Defined.

Lemma tick_keeps_settings_witness :
  let w := plant_world default_config true in
  let s := default (SimulationController.init 0) (controller_at w 9) in
  exists s',
    heap (start sqrt_milli (plant_devices default_config true) 2 w) !! 9%nat
      = Some (OSimulationController s') /\ settings s' = settings s.
Proof.
  intros w s.
  apply (tick_keeps_settings sqrt_milli (plant_devices default_config true)
           2 w (settings s)) with (s := s).
  - intros r s0 Hr.
    do 10 (destruct r as [|r]; [vm_compute in Hr; try discriminate Hr|]).
    + injection Hr as <-. vm_compute. reflexivity.
    + vm_compute in Hr. discriminate Hr.
  - vm_compute. reflexivity.
Defined.

(** ** The update of the simulation controller *)

Lemma randint_spec a b w :
  exists w' d,
    randint a b w = (w', Ok d) /\ only_draws w w' /\
    (a <= b -> a <= d <= b).
Proof.
  unfold randint. do 2 eexists. split; [reflexivity|]. split.
  - repeat split; simpl; lia.
  - intros Hab.
    pose proof (Z.mod_pos_bound (rand_src w (rand_pos w)) (b - a + 1)
                  ltac:(lia)). lia.
Qed.

Lemma inject_Z_bounds (lo hi d : Z) :
  lo <= d <= hi -> (inject_Z lo <= inject_Z d <= inject_Z hi)%Q.
Proof. intros [H1 H2]. split; rewrite <- Zle_Qle; assumption. Qed.

Lemma fold_add_reactive (invs : list ref) ivs (a : Q) w :
  lookup_all (inverter_at w) invs = Some ivs ->
  exists q,
    fold_each invs (a, a) SimulationController_add_reactive w = (w, Ok (q, q)).
Proof.
  revert ivs a. induction invs as [|r invs IH]; intros ivs a H; simpl in *.
  - exists a. reflexivity.
  - unfold inverter_at in H at 1.
    destruct (heap w !! r) as [[i| | | |]|] eqn:Er; try discriminate H.
    destruct (lookup_all (inverter_at w) invs) as [rest|] eqn:Erest;
      [|discriminate H].
    unfold bind at 1, SimulationController_add_reactive at 1, getInverter,
      bind, ret.
    rewrite Er. simpl fst. simpl snd.
    exact (IH rest _ eq_refl).
Qed.

Lemma feed_inverters_spec irr (invs : list ref) w :
  (forall i, i ∈ invs -> is_Some (inverter_at w i)) ->
  exists w',
    for_each invs (SimulationController_feed_inverter irr) w = (w', Ok tt) /\
    context w' = context w /\ trace w' = trace w /\
    forall j,
      (j ∉ invs -> heap w' !! j = heap w !! j) /\
      (j ∈ invs -> exists o o',
          heap w !! j = Some o /\ heap w' !! j = Some o' /\ fed irr o o').
Proof.
  revert w. induction invs as [|r invs IH]; intros w Hv; cbn [for_each].
  - exists w. do 3 (split; [reflexivity|]). intros j. split; [reflexivity|].
    intros Hj. inversion Hj.
  - destruct (Hv r ltac:(left)) as [iv Hiv]. unfold inverter_at in Hiv.
    destruct (heap w !! r) as [[i| | | |]|] eqn:Er; try discriminate Hiv.
    destruct (randint_spec (-25) 25 w)
      as (w0 & d & Ed & (Dh & Dc & Dt & _) & Hd).
    specialize (Hd ltac:(lia)). apply inject_Z_bounds in Hd.
    change (-25 <= inject_Z d <= 25)%Q in Hd.
    unfold bind at 1. unfold SimulationController_feed_inverter at 1.
    rewrite (bind_ok _ _ _ _ _ Ed).
    unfold getInverter, bind, putObj. rewrite Dh, Er.
    set (v := if Qltb (irr + inject_Z d) 0 then 0%Q else (irr + inject_Z d)%Q).
    set (w1 := set_heap (<[r := OInverter (Inverter_set_irradiance v i)]>
                           (heap w0)) w0).
    assert (Hlen : (r < length (heap w))%nat)
      by (apply lookup_lt_Some in Er; exact Er).
    assert (Hfed : fed irr (OInverter i)
                     (OInverter (Inverter_set_irradiance v i))).
    { exists i, v. split; [reflexivity|]. split; [reflexivity|].
      unfold v. destruct (Qltb (irr + inject_Z d) 0) eqn:E0.
      - apply Qltb_lt in E0.
        split; [apply Qle_refl|]. split; [lra | right; reflexivity].
      - apply Qltb_ge in E0.
        split; [exact E0|]. split; [lra | left; lra]. }
    assert (Hw1 : forall j, heap w1 !! j =
                  if decide (r = j) then
                    Some (OInverter (Inverter_set_irradiance v i))
                  else heap w !! j).
    { intros j. unfold w1. simpl. rewrite Dh.
      destruct (decide (r = j)) as [<-|Hne].
      - apply list_lookup_insert_eq. exact Hlen.
      - apply list_lookup_insert_ne. exact Hne. }
    destruct (IH w1) as (w' & E & Hc & Ht & Hh).
    { intros j Hj. destruct (Hv j ltac:(right; exact Hj)) as [ivj Hj'].
      unfold inverter_at in *. rewrite Hw1.
      destruct (decide (r = j)); eauto. }
    exists w'. split; [exact E|].
    split; [rewrite Hc; unfold w1; simpl; exact Dc|].
    split; [rewrite Ht; unfold w1; simpl; exact Dt|].
    intros j. destruct (Hh j) as [Hout Hin]. split.
    + intros Hj. apply not_elem_of_cons in Hj as [Hne Hj].
      rewrite (Hout Hj), Hw1. destruct (decide (r = j)); congruence.
    + intros Hj. destruct (decide (j ∈ invs)) as [Hji|Hji].
      * destruct (Hin Hji) as (o1 & o' & Ho1 & Ho' & Hf).
        rewrite Hw1 in Ho1. destruct (decide (r = j)) as [<-|Hne].
        -- injection Ho1 as <-. exists (OInverter i), o'.
           split; [exact Er|]. split; [exact Ho'|].
           destruct Hf as (iv1 & v1 & E1 & E2 & Hb).
           injection E1 as <-. exists i, v1.
           split; [reflexivity|]. split; [exact E2 | exact Hb].
        -- exists o1, o'. auto.
      * apply elem_of_cons in Hj as [-> | Hj]; [|contradiction].
        exists (OInverter i), (OInverter (Inverter_set_irradiance v i)).
        split; [exact Er|]. split; [|exact Hfed].
        rewrite (Hout Hji), Hw1. destruct (decide (r = r)); congruence.
Qed.

Lemma SimulationController_writeModbus_returns r s w :
  heap w !! r = Some (OSimulationController s) ->
  exportable (context w) (SimulationController.base s) ->
  exists w', SimulationController_writeModbus r w = (w', Ok tt) /\
             heap w' = heap w.
Proof.
  intros Hr Hex.
  unfold SimulationController_writeModbus, getSimulationController, bind at 1.
  rewrite Hr.
  match goal with |- context [setValues ?s ?fc ?a ?n w] =>
    destruct (setValues_returns s fc a n BankH w Hex eq_refl)
      as (w1 & E1 & Hh & _) end.
  exists w1. split; [exact E1 | exact Hh].
Qed.

Lemma bind_ret {A B} (a : A) (k : A -> M B) w : bind (ret a) k w = k a w.
Proof. reflexivity. Qed.

Lemma SimulationController_update_spec r s w mb bs cm ms (invs : list ref)
  m b ivs :
  heap w !! r = Some (OSimulationController s) ->
  dict_get (connections (SimulationController.base s)) "breakers"
    = Some (mb :: bs) ->
  dict_get (connections (SimulationController.base s)) "meters"
    = Some (cm :: ms) ->
  dict_get (connections (SimulationController.base s)) "inverters"
    = Some invs ->
  heap w !! cm = Some (OMeter m) ->
  heap w !! mb = Some (OBreaker b) ->
  lookup_all (inverter_at w) invs = Some ivs ->
  exportable (context w) (SimulationController.base s) ->
  exists w' m' s' d1 d2 d3,
    SimulationController_update r w = (w', Ok tt) /\
    heap w' !! cm = Some (OMeter m') /\
    heap w' !! r = Some (OSimulationController s') /\
    (forall j, j <> cm -> j <> r -> j ∉ invs -> heap w' !! j = heap w !! j) /\
    (-100 <= d1 <= 100 /\ -100 <= d2 <= 100 /\ -100 <= d3 <= 100) /\
    m' = Meter_set_readouts (Breaker.realPower b)
           (Qabs (Breaker.reactivePower b
                  + inject_Z d3 / 100
                    * SimulationController.reactivePowerMaxDeviation s))
           (Meter.voltageL1 m')
           (Meter_set_grid
              (Meter.frequency m + SimulationController.freqDroop s
               + (1 # 10) * inject_Z d1 / 100)
              (SimulationController.nominalGridVoltage s) m) /\
    (Meter.voltageL1 m' ==
       Qmax (SimulationController.voltageLowLimit s)
         (Qmin (SimulationController.voltageHighLimit s)
            (SimulationController.nominalGridVoltage s
             + inject_Z d2 / 100
               * SimulationController.voltageMaxDeviation s
             + (if truthy (SimulationController.voltageStepCommand s)
                then SimulationController.voltageStepDifference s else 0))))%Q /\
    settings s' = settings s /\
    SimulationController.voltageStepCommand s' = 0 /\
    (exists wl, context wl = context w /\
                heap wl !! r = Some (OSimulationController s') /\
                SimulationController_writeModbus r wl = (w', Ok tt)) /\
    if SimulationController.simWeatherEnabled s then
      exists w0 w1,
        weatherSim (SimulationController_set_voltageStepCommand 0 s) w0
          = (w1, Ok s') /\
        forall j, j ∈ invs -> exists o o',
          heap w !! j = Some o /\ heap w' !! j = Some o' /\
          fed (SimulationController.irradiance s') o o'
    else
      SimulationController.weatherState s'
        = SimulationController.weatherState s /\
      SimulationController.irradiance s' = SimulationController.irradiance s /\
      forall j, j ∈ invs -> heap w' !! j = heap w !! j.
Proof.
  intros Hr Hbk Hmt Hinv Hcm Hmb Hivs Hex.
  unfold SimulationController_update.
  assert (E0 : getSimulationController r w = (w, Ok s))
    by (unfold getSimulationController; rewrite Hr; reflexivity).
  rewrite (bind_ok _ _ _ _ _ E0). cbv zeta.
  assert (Hs1 : (if truthy (SimulationController.voltageStepCommand s)
                 then SimulationController_set_voltageStepCommand 0 s else s)
                = SimulationController_set_voltageStepCommand 0 s).
  { unfold truthy. destruct (Z.eqb_spec
      (SimulationController.voltageStepCommand s) 0) as [Ez|Nz]; simpl;
      [|reflexivity].
    destruct s. simpl in Ez. subst. reflexivity. }
  rewrite !Hs1.
  cbn [SimulationController.voltageHighLimit
       SimulationController.voltageLowLimit
       SimulationController.reactivePowerMaxDeviation
       SimulationController.acLossRatio
       SimulationController.voltageEffectPerVar
       SimulationController.voltageMaxDeviation
       SimulationController.simWeatherEnabled
       SimulationController_set_voltageStepCommand].
  unfold getitem. rewrite Hbk, Hmt, Hinv.
  rewrite bind_ret. change (index (mb :: bs) 0) with (@ret ref mb).
  rewrite bind_ret. rewrite bind_ret.
  change (index (cm :: ms) 0) with (@ret ref cm). rewrite bind_ret.
  destruct (randint_spec (-100) 100 w)
    as (w1 & d1 & Ed1 & (H1h & H1c & H1t & _) & Hd1).
  specialize (Hd1 ltac:(lia)).
  rewrite (bind_ok _ _ _ _ _ Ed1).
  assert (Em : getMeter cm w1 = (w1, Ok m))
    by (unfold getMeter; rewrite H1h, Hcm; reflexivity).
  rewrite (bind_ok _ _ _ _ _ Em).
  set (m1 := Meter_set_grid _ _ m).
  set (w2 := set_heap (<[cm := OMeter m1]> (heap w1)) w1).
  assert (E2 : putObj cm (OMeter m1) w1 = (w2, Ok tt)) by reflexivity.
  rewrite (bind_ok _ _ _ _ _ E2). rewrite bind_ret.
  assert (Hlcm : (cm < length (heap w))%nat)
    by (apply lookup_lt_Some in Hcm; exact Hcm).
  assert (Hlr : (r < length (heap w))%nat)
    by (apply lookup_lt_Some in Hr; exact Hr).
  assert (Hne_cm_r : cm <> r) by congruence.
  assert (Hne_cm_mb : cm <> mb) by congruence.
  assert (Hne_r_mb : r <> mb) by congruence.
  assert (Hcm_inv : cm ∉ invs).
  { intros Hin. destruct (lookup_all_Some _ _ _ Hivs cm Hin) as [x Hx].
    unfold inverter_at in Hx. rewrite Hcm in Hx. discriminate Hx. }
  assert (Hr_inv : r ∉ invs).
  { intros Hin. destruct (lookup_all_Some _ _ _ Hivs r Hin) as [x Hx].
    unfold inverter_at in Hx. rewrite Hr in Hx. discriminate Hx. }
  assert (Hw2 : forall j, heap w2 !! j =
                  if decide (cm = j) then Some (OMeter m1) else heap w !! j).
  { intros j. unfold w2. simpl. rewrite H1h.
    destruct (decide (cm = j)) as [<-|Hne].
    - apply list_lookup_insert_eq. exact Hlcm.
    - apply list_lookup_insert_ne. exact Hne. }
  assert (Hivs2 : lookup_all (inverter_at w2) invs = Some ivs).
  { rewrite <- Hivs. apply lookup_all_insert. intros j Hj.
    unfold inverter_at. rewrite Hw2.
    destruct (decide (cm = j)) as [<-|]; [contradiction | reflexivity]. }
  destruct (fold_add_reactive invs ivs 0%Q w2 Hivs2) as [q Eq].
  rewrite (bind_ok _ _ _ _ _ Eq). cbn [fst snd].
  set (s1 := SimulationController_set_voltageStepCommand 0 s).
  set (w3 := set_heap (<[r := OSimulationController s1]> (heap w2)) w2).
  assert (E3 : putObj r (OSimulationController s1) w2 = (w3, Ok tt))
    by reflexivity.
  rewrite (bind_ok _ _ _ _ _ E3).
  destruct (randint_spec (-100) 100 w3)
    as (w4 & d2 & Ed2 & (H4h & H4c & H4t & _) & Hd2).
  specialize (Hd2 ltac:(lia)).
  rewrite (bind_ok _ _ _ _ _ Ed2).
  destruct (randint_spec (-100) 100 w4)
    as (w5 & d3 & Ed3 & (H5h & H5c & H5t & _) & Hd3).
  specialize (Hd3 ltac:(lia)).
  rewrite (bind_ok _ _ _ _ _ Ed3).
  assert (Hw3 : forall j, heap w3 !! j =
                  if decide (r = j) then Some (OSimulationController s1)
                  else heap w2 !! j).
  { intros j. unfold w3. simpl.
    destruct (decide (r = j)) as [<-|Hne].
    - apply list_lookup_insert_eq. unfold w2. simpl.
      rewrite length_insert, H1h. exact Hlr.
    - apply list_lookup_insert_ne. exact Hne. }
  assert (Eb : getBreaker mb w5 = (w5, Ok b)).
  { unfold getBreaker. rewrite H5h, H4h, Hw3, Hw2.
    destruct (decide (r = mb)); [contradiction|].
    destruct (decide (cm = mb)); [contradiction|].
    rewrite Hmb. reflexivity. }
  rewrite (bind_ok _ _ _ _ _ Eb).
  match goal with |- context [putObj cm (OMeter ?x)] => set (m2 := x) end.
  set (w6 := set_heap (<[cm := OMeter m2]> (heap w5)) w5).
  assert (E6 : putObj cm (OMeter m2) w5 = (w6, Ok tt)) by reflexivity.
  rewrite (bind_ok _ _ _ _ _ E6).
  assert (Hw6 : forall j, heap w6 !! j =
                  if decide (cm = j) then Some (OMeter m2)
                  else if decide (r = j) then Some (OSimulationController s1)
                  else heap w !! j).
  { intros j. unfold w6. simpl. rewrite H5h, H4h.
    destruct (decide (cm = j)) as [<-|Hne].
    - apply list_lookup_insert_eq. unfold w3, w2. simpl.
      rewrite !length_insert, H1h. exact Hlcm.
    - rewrite list_lookup_insert_ne by exact Hne. rewrite Hw3, Hw2.
      destruct (decide (r = j)); [reflexivity|].
      destruct (decide (cm = j)); [contradiction | reflexivity]. }
  assert (Hc6 : context w6 = context w).
  { unfold w6. simpl. rewrite H5c, H4c. unfold w3, w2. simpl. exact H1c. }
  assert (Hvolt : forall raw raw' lo hi : Q, (raw == raw')%Q ->
            ((if Qltb (if Qltb hi raw then hi else raw) lo then lo
              else (if Qltb hi raw then hi else raw))
             == Qmax lo (Qmin hi raw'))%Q).
  { intros raw raw' lo hi Hraw.
    destruct (Q.max_spec lo (Qmin hi raw')) as [[Hx ->]|[Hx ->]];
      destruct (Q.min_spec hi raw') as [[Hy Hz]|[Hy Hz]];
      rewrite Hz in Hx;
      destruct (Qltb hi raw) eqn:Ea;
      try (apply Qltb_lt in Ea); try (apply Qltb_ge in Ea);
      match goal with |- context [Qltb ?a ?b] =>
        destruct (Qltb a b) eqn:Ec end;
      try (apply Qltb_lt in Ec); try (apply Qltb_ge in Ec);
      try rewrite Hz; lra. }
  destruct (SimulationController.simWeatherEnabled s) eqn:Ew.
  - destruct (weatherSim_table s1 w6)
      as (w7 & st & irr & E7 & (H7h & H7c & H7t & _) & _).
    set (s2 := weather_result st irr s1) in *.
    unfold bind at 1.
    rewrite (bind_ok _ _ _ _ _ E7).
    set (w8 := set_heap (<[r := OSimulationController s2]> (heap w7)) w7).
    assert (E8 : putObj r (OSimulationController s2) w7 = (w8, Ok tt))
      by reflexivity.
    rewrite (bind_ok _ _ _ _ _ E8).
    assert (Hw8 : forall j, heap w8 !! j =
                    if decide (r = j) then Some (OSimulationController s2)
                    else heap w6 !! j).
    { intros j. unfold w8. simpl. rewrite H7h.
      destruct (decide (r = j)) as [<-|Hne].
      - apply list_lookup_insert_eq. unfold w6. simpl.
        rewrite length_insert, H5h, H4h. unfold w3, w2. simpl.
        rewrite !length_insert, H1h. exact Hlr.
      - apply list_lookup_insert_ne. exact Hne. }
    assert (Hinv8 : forall j, j ∈ invs -> heap w8 !! j = heap w !! j).
    { intros j Hj. rewrite Hw8, Hw6.
      destruct (decide (r = j)) as [<-|]; [contradiction|].
      destruct (decide (cm = j)) as [<-|]; [contradiction | reflexivity]. }
    destruct (feed_inverters_spec (SimulationController.irradiance s2) invs w8)
      as (w9 & E9 & H9c & H9t & Hh9).
    { intros j Hj. unfold inverter_at. rewrite (Hinv8 j Hj).
      exact (lookup_all_Some _ _ _ Hivs j Hj). }
    rewrite E9.
    assert (Hr9 : heap w9 !! r = Some (OSimulationController s2)).
    { rewrite (proj1 (Hh9 r) Hr_inv), Hw8.
      destruct (decide (r = r)); congruence. }
    destruct (SimulationController_writeModbus_returns r s2 w9 Hr9)
      as (w10 & E10 & H10h).
    { rewrite H9c. unfold w8. simpl. rewrite H7c, Hc6. exact Hex. }
    exists w10, m2, s2, d1, d2, d3.
    split; [exact E10|].
    split.
    { rewrite H10h, (proj1 (Hh9 cm) Hcm_inv), Hw8, Hw6.
      destruct (decide (r = cm)); [congruence|].
      destruct (decide (cm = cm)); congruence. }
    split; [rewrite H10h; exact Hr9|].
    split.
    { intros j Hj1 Hj2 Hj3. rewrite H10h, (proj1 (Hh9 j) Hj3), Hw8, Hw6.
      destruct (decide (r = j)); [congruence|].
      destruct (decide (cm = j)); congruence. }
    split; [auto|].
    split; [reflexivity|].
    split.
    { apply Hvolt. unfold m1. cbn [Meter.voltageL1 Meter_set_grid]. ring. }
    split; [reflexivity|]. split; [reflexivity|].
    split.
    { exists w9. split; [|split; [exact Hr9 | exact E10]].
      rewrite H9c. unfold w8. simpl. rewrite H7c. exact Hc6. }
    exists w6, w7. split; [exact E7|].
    intros j Hj. destruct (proj2 (Hh9 j) Hj) as (o & o' & Ho & Ho' & Hf).
    exists o, o'. rewrite <- (Hinv8 j Hj), H10h. auto.
  - rewrite bind_ret.
    assert (Hr6 : heap w6 !! r = Some (OSimulationController s1)).
    { rewrite Hw6. destruct (decide (cm = r)); [contradiction|].
      destruct (decide (r = r)); congruence. }
    destruct (SimulationController_writeModbus_returns r s1 w6 Hr6)
      as (w10 & E10 & H10h).
    { rewrite Hc6. exact Hex. }
    exists w10, m2, s1, d1, d2, d3.
    split; [exact E10|].
    split.
    { rewrite H10h, Hw6. destruct (decide (cm = cm)); congruence. }
    split; [rewrite H10h; exact Hr6|].
    split.
    { intros j Hj1 Hj2 Hj3. rewrite H10h, Hw6.
      destruct (decide (cm = j)); [congruence|].
      destruct (decide (r = j)); congruence. }
    split; [auto|].
    split; [reflexivity|].
    split.
    { apply Hvolt. unfold m1. cbn [Meter.voltageL1 Meter_set_grid]. ring. }
    split; [unfold settings; simpl; rewrite Ew; reflexivity|].
    split; [reflexivity|].
    split; [exists w6; split; [exact Hc6 | split; [exact Hr6 | exact E10]]|].
    split; [reflexivity|]. split; [reflexivity|].
    intros j Hj. rewrite H10h, Hw6.
    destruct (decide (cm = j)) as [<-|]; [contradiction|].
    destruct (decide (r = j)) as [<-|]; [contradiction | reflexivity].
Qed.

(** X8: the grid part of the controller's update, for a controller
    wired to a main breaker, a check meter and its inverters, with its
    register file in place.  The update returns.  The check meter then
    reads the main breaker's real power readout, the absolute value of
    the breaker's reactive power readout plus a deviation, a frequency
    that moved by the droop and at most a tenth, and on all three phases
    one voltage: the nominal grid voltage plus a deviation plus the
    voltage step when it was commanded, cut to the high limit and then
    raised to the low limit.  The reactive power of the inverters has no
    part in that voltage.  The voltage step command is 0 afterwards.
    Objects other than the meter, the controller and the connected
    inverters are untouched, and with the weather switched off so are
    the connected inverters. *)
Theorem SimulationController_update_grid (sqrt : Q -> Q) (r : ref)
  (s : SimulationController.t) (w : World) (mb cm : ref)
  (bs ms invs : list ref) (m : Meter.t) (b : Breaker.t)
  (ivs : list Inverter.t) :
  heap w !! r = Some (OSimulationController s) ->
  dict_get (connections (SimulationController.base s)) "breakers"
    = Some (mb :: bs) ->
  dict_get (connections (SimulationController.base s)) "meters"
    = Some (cm :: ms) ->
  dict_get (connections (SimulationController.base s)) "inverters"
    = Some invs ->
  heap w !! cm = Some (OMeter m) ->
  heap w !! mb = Some (OBreaker b) ->
  lookup_all (inverter_at w) invs = Some ivs ->
  exportable (context w) (SimulationController.base s) ->
  exists w' m' s' d1 d2 d3,
    update sqrt r w = (w', Ok tt) /\
    heap w' !! cm = Some (OMeter m') /\
    heap w' !! r = Some (OSimulationController s') /\
    (-100 <= d1 <= 100 /\ -100 <= d2 <= 100 /\ -100 <= d3 <= 100) /\
    Meter.realPower m' = Breaker.realPower b /\
    Meter.reactivePower m' =
      Qabs (Breaker.reactivePower b
            + inject_Z d3 / 100
              * SimulationController.reactivePowerMaxDeviation s) /\
    (0 <= Meter.reactivePower m')%Q /\
    Meter.frequency m' =
      (Meter.frequency m + SimulationController.freqDroop s
       + (1 # 10) * inject_Z d1 / 100)%Q /\
    (Qabs (Meter.frequency m' - Meter.frequency m
           - SimulationController.freqDroop s) <= 1 # 10)%Q /\
    (Meter.voltageL1 m' ==
       Qmax (SimulationController.voltageLowLimit s)
         (Qmin (SimulationController.voltageHighLimit s)
            (SimulationController.nominalGridVoltage s
             + inject_Z d2 / 100
               * SimulationController.voltageMaxDeviation s
             + (if truthy (SimulationController.voltageStepCommand s)
                then SimulationController.voltageStepDifference s else 0))))%Q /\
    Meter.voltageL2 m' = Meter.voltageL1 m' /\
    Meter.voltageL3 m' = Meter.voltageL1 m' /\
    (SimulationController.voltageLowLimit s <= Meter.voltageL1 m')%Q /\
    ((SimulationController.voltageLowLimit s
      <= SimulationController.voltageHighLimit s)%Q ->
     (Meter.voltageL1 m' <= SimulationController.voltageHighLimit s)%Q) /\
    SimulationController.voltageStepCommand s' = 0 /\
    (forall j, j <> cm -> j <> r -> j ∉ invs -> heap w' !! j = heap w !! j) /\
    (SimulationController.simWeatherEnabled s = false ->
     forall j, j ∈ invs -> heap w' !! j = heap w !! j).
Proof.
  intros Hr Hbk Hmt Hinv Hcm Hmb Hivs Hex.
  destruct (SimulationController_update_spec r s w mb bs cm ms invs m b ivs
              Hr Hbk Hmt Hinv Hcm Hmb Hivs Hex)
    as (w' & m' & s' & d1 & d2 & d3 & E & Hcm' & Hr' & Hframe & Hd & Hm'
        & Hv & _ & Hvsc & _ & Hweather).
  exists w', m', s', d1, d2, d3.
  split; [unfold update; rewrite Hr; exact E|].
  split; [exact Hcm'|]. split; [exact Hr'|]. split; [exact Hd|].
  split; [rewrite Hm'; reflexivity|].
  split; [rewrite Hm'; reflexivity|].
  split; [rewrite Hm'; apply Qabs_nonneg|].
  split; [rewrite Hm'; reflexivity|].
  split.
  { rewrite Hm'. cbn [Meter.frequency Meter_set_readouts Meter_set_grid].
    destruct Hd as (Hd1 & _ & _). apply inject_Z_bounds in Hd1.
    change (-100 <= inject_Z d1 <= 100)%Q in Hd1.
    apply Qabs_Qle_condition. unfold Qdiv.
    change (/ 100)%Q with (1 # 100)%Q. split; lra. }
  split; [exact Hv|].
  split; [rewrite Hm'; reflexivity|].
  split; [rewrite Hm'; reflexivity|].
  split; [rewrite Hv; apply Q.le_max_l|].
  split.
  { intros Hlh. rewrite Hv. apply Q.max_lub; [exact Hlh | apply Q.le_min_l]. }
  split; [exact Hvsc|]. split; [exact Hframe|].
  intros Ew. rewrite Ew in Hweather. apply Hweather.
Qed.

(** X9: the weather part of the controller's update, for a controller
    wired as above with the weather switched on.  The update returns,
    and every connected inverter is given a new irradiance and nothing
    else: never negative, and within 25 of the controller's new
    irradiance unless it was floored at zero.  From day mode the
    controller ends in weather state 1 with its irradiance in 800..950,
    so every connected inverter then has an irradiance in 775..975. *)
Theorem SimulationController_update_feeds_inverters (sqrt : Q -> Q) (r : ref)
  (s : SimulationController.t) (w : World) (mb cm : ref)
  (bs ms invs : list ref) (m : Meter.t) (b : Breaker.t)
  (ivs : list Inverter.t) :
  heap w !! r = Some (OSimulationController s) ->
  dict_get (connections (SimulationController.base s)) "breakers"
    = Some (mb :: bs) ->
  dict_get (connections (SimulationController.base s)) "meters"
    = Some (cm :: ms) ->
  dict_get (connections (SimulationController.base s)) "inverters"
    = Some invs ->
  heap w !! cm = Some (OMeter m) ->
  heap w !! mb = Some (OBreaker b) ->
  lookup_all (inverter_at w) invs = Some ivs ->
  exportable (context w) (SimulationController.base s) ->
  SimulationController.simWeatherEnabled s = true ->
  exists w' s',
    update sqrt r w = (w', Ok tt) /\
    heap w' !! r = Some (OSimulationController s') /\
    (day_mode s ->
     SimulationController.weatherState s' = 1 /\
     (800 <= SimulationController.irradiance s' <= 950)%Q) /\
    forall j, j ∈ invs -> exists iv v,
      heap w !! j = Some (OInverter iv) /\
      heap w' !! j = Some (OInverter (Inverter_set_irradiance v iv)) /\
      (0 <= v)%Q /\
      (SimulationController.irradiance s' - 25 <= v)%Q /\
      ((v <= SimulationController.irradiance s' + 25)%Q \/ v = 0%Q) /\
      (day_mode s -> (775 <= v <= 975)%Q).
Proof.
  intros Hr Hbk Hmt Hinv Hcm Hmb Hivs Hex Ew.
  destruct (SimulationController_update_spec r s w mb bs cm ms invs m b ivs
              Hr Hbk Hmt Hinv Hcm Hmb Hivs Hex)
    as (w' & m' & s' & d1 & d2 & d3 & E & _ & Hr' & _ & _ & _ & _ & _ & _
        & _ & Hweather).
  rewrite Ew in Hweather. destruct Hweather as (w0 & w1 & E7 & Hfed).
  assert (Hday : day_mode s ->
            SimulationController.weatherState s' = 1 /\
            (800 <= SimulationController.irradiance s' <= 950)%Q).
  { intros Hs.
    destruct (weatherSim_table
                (SimulationController_set_voltageStepCommand 0 s) w0)
      as (w2 & st & irr & E2 & _ & H01 & _).
    rewrite E2 in E7. injection E7 as _ <-.
    cbn [SimulationController.weatherState
         SimulationController_set_voltageStepCommand] in H01.
    destruct H01 as [-> Hb]; [destruct Hs as [H | [H _]]; auto|].
    split; [reflexivity | exact Hb]. }
  exists w', s'. split; [unfold update; rewrite Hr; exact E|].
  split; [exact Hr'|]. split; [exact Hday|].
  intros j Hj.
  destruct (Hfed j Hj) as (o & o' & Ho & Ho' & iv & v & -> & -> & H0 & Hlo & Hhi).
  exists iv, v. split; [exact Ho|]. split; [exact Ho'|].
  split; [exact H0|]. split; [exact Hlo|]. split; [exact Hhi|].
  intros Hs. destruct (Hday Hs) as (_ & Hb1 & Hb2).
  destruct Hhi as [Hhi | ->]; lra.
Qed.

Lemma SimulationController_update_grid_witness :
  let w := plant_world default_config false in
  let s := default (SimulationController.init 0) (controller_at w 9) in
  exists w' m' s',
    update sqrt_milli 9 w = (w', Ok tt) /\
    heap w' !! 8%nat = Some (OMeter m') /\
    heap w' !! 9%nat = Some (OSimulationController s') /\
    (SimulationController.voltageLowLimit s <= Meter.voltageL1 m')%Q /\
    (Meter.voltageL1 m' <= SimulationController.voltageHighLimit s)%Q /\
    (0 <= Meter.reactivePower m')%Q /\
    SimulationController.voltageStepCommand s' = 0.
Proof.
  intros w s.
  destruct (SimulationController_update_grid sqrt_milli 9 s w 7 8 [] []
              [0; 1; 2; 3]%nat
              (match heap w !! 8%nat with
               | Some (OMeter m) => m
               | _ => Meter.init 0
               end)
              (default (Breaker.init 0) (breaker_at w 7))
              (default [] (lookup_all (inverter_at w) [0; 1; 2; 3]%nat)))
    as (w' & m' & s' & d1 & d2 & d3 & E & Hm & Hs & _ & _ & _ & Hq & _ & _
        & _ & _ & _ & Hlo & Hhi & Hvsc & _).
  - vm_compute. reflexivity.
  - vm_compute. reflexivity.
  - vm_compute. reflexivity.
  - vm_compute. reflexivity.
  - vm_compute. reflexivity.
  - vm_compute. reflexivity.
  - vm_compute. reflexivity.
  - split; [vm_compute; reflexivity|]. eexists.
    split; [vm_compute; reflexivity|].
    intros []; vm_compute; eauto.
  - exists w', m', s'. split; [exact E|]. split; [exact Hm|].
    split; [exact Hs|]. split; [exact Hlo|].
    split; [apply Hhi; vm_compute; discriminate|].
    split; [exact Hq | exact Hvsc].
Defined.

Lemma SimulationController_update_feeds_inverters_witness :
  let w := plant_world default_config true in
  exists w' s',
    update sqrt_milli 9 w = (w', Ok tt) /\
    heap w' !! 9%nat = Some (OSimulationController s') /\
    SimulationController.weatherState s' = 1 /\
    forall j, j ∈ [0; 1; 2; 3]%nat -> exists iv v,
      heap w !! j = Some (OInverter iv) /\
      heap w' !! j = Some (OInverter (Inverter_set_irradiance v iv)) /\
      (775 <= v <= 975)%Q.
Proof.
  intros w.
  destruct (SimulationController_update_feeds_inverters sqrt_milli 9
              (default (SimulationController.init 0) (controller_at w 9))
              w 7 8 [] [] [0; 1; 2; 3]%nat
              (match heap w !! 8%nat with
               | Some (OMeter m) => m
               | _ => Meter.init 0
               end)
              (default (Breaker.init 0) (breaker_at w 7))
              (default [] (lookup_all (inverter_at w) [0; 1; 2; 3]%nat)))
    as (w' & s' & E & Hs & Hday & Hfed).
  - vm_compute. reflexivity.
  - vm_compute. reflexivity.
  - vm_compute. reflexivity.
  - vm_compute. reflexivity.
  - vm_compute. reflexivity.
  - vm_compute. reflexivity.
  - vm_compute. reflexivity.
  - split; [vm_compute; reflexivity|]. eexists.
    split; [vm_compute; reflexivity|].
    intros []; vm_compute; eauto.
  - vm_compute. reflexivity.
  - assert (Hd : day_mode
                   (default (SimulationController.init 0) (controller_at w 9)))
      by (left; vm_compute; reflexivity).
    exists w', s'. split; [exact E|]. split; [exact Hs|].
    split; [exact (proj1 (Hday Hd))|].
    intros j Hj. destruct (Hfed j Hj) as (iv & v & H1 & H2 & _ & _ & _ & H3).
    exists iv, v. split; [exact H1|]. split; [exact H2 | exact (H3 Hd)].
Defined.


(** ** What a client reads back after an export *)

Lemma readable_exportable c self addr :
  readable c self addr -> exportable c self.
Proof.
  intros (Hl & s & Hs & Hb). split; [exact Hl|]. exists s.
  split; [exact Hs|]. intros x. destruct (Hb x) as (blk & E & _). eauto.
Qed.

Lemma slice_slice_assign {A} (l new : list A) (k : nat) :
  (k <= length l)%nat -> slice (slice_assign l k new) k (length new) = new.
Proof.
  intros Hk. unfold slice, slice_assign.
  rewrite drop_app_length'; [|rewrite length_take; lia].
  rewrite take_app_length. reflexivity.
Qed.

Lemma setValues_getValues self fc addr new x w w' :
  readable (context w) self addr -> decode fc = Some x ->
  setValues self fc addr new w = (w', Ok tt) ->
  exists w2, getValues self fc addr (length new) w' = (w2, Ok new).
Proof.
  intros (Hl & s & Hs & Hb) Hfc.
  destruct (Hb x) as (blk & Hblk & _ & Hlen).
  unfold setValues, getValues, context_getitem, bind.
  rewrite Hl, Hs. simpl. rewrite Hfc, Hblk. intros E. injection E as <-.
  simpl. rewrite Hs. simpl.
  rewrite list_lookup_insert_eq by (apply lookup_lt_Some in Hblk; exact Hblk).
  eexists. unfold block_getValues, block_setValues. simpl.
  rewrite slice_slice_assign by exact Hlen. reflexivity.
Qed.













Lemma SimulationController_writeModbus_read_back r s w w' :
  heap w !! r = Some (OSimulationController s) ->
  readable (context w) (SimulationController.base s) 1 ->
  SimulationController_writeModbus r w = (w', Ok tt) ->
  exists w2,
    getValues (SimulationController.base s) 3 1 10 w' =
    (w2, Ok (map int [ SimulationController.irradianceDeviation s;
                       SimulationController.tempDeviation s;
                       SimulationController.voltageStepDifference s;
                       SimulationController.acLossRatio s;
                       SimulationController.freqDroop s;
                       SimulationController.voltageDeviation s;
                       SimulationController.voltageHighLimit s;
                       SimulationController.voltageLowLimit s ]
             ++ [ SimulationController.weatherState s;
                  SimulationController.voltageStepCommand s ])).
Proof.
  intros Hr Hrd.
  unfold SimulationController_writeModbus, getSimulationController, bind at 1.
  rewrite Hr. intros E.
  exact (setValues_getValues _ 3 1 _ BankH w w' Hrd eq_refl E).
Qed.

(** X12: the controller's export goes to the holding registers.  After
    the update of a controller wired to a main breaker, a check meter
    and its inverters, holding registers 1 to 10 of its register file
    hold the deviations, the step difference, the loss ratio, the droop
    and the two voltage limits as the controller had them before the
    update, cut to whole numbers, then the new weather state and 0 for
    the voltage step command.  Whatever a client had written to these
    registers is overwritten. *)
Theorem SimulationController_update_exports_settings (sqrt : Q -> Q)
  (r : ref) (s : SimulationController.t) (w : World) (mb cm : ref)
  (bs ms invs : list ref) (m : Meter.t) (b : Breaker.t)
  (ivs : list Inverter.t) :
  heap w !! r = Some (OSimulationController s) ->
  dict_get (connections (SimulationController.base s)) "breakers"
    = Some (mb :: bs) ->
  dict_get (connections (SimulationController.base s)) "meters"
    = Some (cm :: ms) ->
  dict_get (connections (SimulationController.base s)) "inverters"
    = Some invs ->
  heap w !! cm = Some (OMeter m) ->
  heap w !! mb = Some (OBreaker b) ->
  lookup_all (inverter_at w) invs = Some ivs ->
  readable (context w) (SimulationController.base s) 1 ->
  exists w' s' w2,
    update sqrt r w = (w', Ok tt) /\
    heap w' !! r = Some (OSimulationController s') /\
    getValues (SimulationController.base s) 3 1 10 w' =
    (w2, Ok (map int [ SimulationController.irradianceDeviation s;
                       SimulationController.tempDeviation s;
                       SimulationController.voltageStepDifference s;
                       SimulationController.acLossRatio s;
                       SimulationController.freqDroop s;
                       SimulationController.voltageDeviation s;
                       SimulationController.voltageHighLimit s;
                       SimulationController.voltageLowLimit s ]
             ++ [ SimulationController.weatherState s'; 0 ])).
Proof.
  intros Hr Hbk Hmt Hinv Hcm Hmb Hivs Hrd.
  destruct (SimulationController_update_spec r s w mb bs cm ms invs m b ivs
              Hr Hbk Hmt Hinv Hcm Hmb Hivs
              (readable_exportable _ _ _ Hrd))
    as (w' & m' & s' & d1 & d2 & d3 & E & _ & Hr' & _ & _ & _ & _ & Hset
        & Hvsc & (wl & Hcl & Hrl & El) & _).
  unfold settings in Hset.
  injection Hset as Hbase _ _ _ H1 H2 H3 H4 H5 H6 H7 H8.
  destruct (SimulationController_writeModbus_read_back r s' wl w' Hrl)
    as (w2 & E2); [rewrite Hcl, Hbase; exact Hrd | exact El |].
  exists w', s', w2. split; [unfold update; rewrite Hr; exact E|].
  split; [exact Hr'|].
  rewrite <- Hbase, <- H1, <- H2, <- H3, <- H4, <- H5, <- H6, <- H7, <- H8,
    <- Hvsc.
  exact E2.
Qed.

Lemma SimulationController_update_exports_settings_witness :
  let w := server_setValues 10 3 1 [7; 7; 7] (plant_world default_config false)
  in
  let s := default (SimulationController.init 0) (controller_at w 9) in
  exists w' s' w2,
    update sqrt_milli 9 w = (w', Ok tt) /\
    heap w' !! 9%nat = Some (OSimulationController s') /\
    getValues (SimulationController.base s) 3 1 10 w' =
    (w2, Ok (map int [ SimulationController.irradianceDeviation s;
                       SimulationController.tempDeviation s;
                       SimulationController.voltageStepDifference s;
                       SimulationController.acLossRatio s;
                       SimulationController.freqDroop s;
                       SimulationController.voltageDeviation s;
                       SimulationController.voltageHighLimit s;
                       SimulationController.voltageLowLimit s ]
             ++ [ SimulationController.weatherState s'; 0 ])).
Proof.
  intros w s.
  apply (SimulationController_update_exports_settings sqrt_milli 9 s w 7 8
           [] [] [0; 1; 2; 3]%nat
           (match heap w !! 8%nat with
            | Some (OMeter m) => m
            | _ => Meter.init 0
            end)
           (default (Breaker.init 0) (breaker_at w 7))
           (default [] (lookup_all (inverter_at w) [0; 1; 2; 3]%nat))).
  - vm_compute. reflexivity.
  - vm_compute. reflexivity.
  - vm_compute. reflexivity.
  - vm_compute. reflexivity.
  - vm_compute. reflexivity.
  - vm_compute. reflexivity.
  - vm_compute. reflexivity.
  - split; [vm_compute; reflexivity|]. eexists.
    split; [vm_compute; reflexivity|].
    intros []; eexists; (split; [vm_compute; reflexivity|]);
      split; vm_compute; lia.
Defined.


(** ** The addresses that [generateDevices] assigns *)

Lemma modules_slaveId g class n :
  dict_get modules g = Some class -> slaveId (obj_base (class n)) = n.
Proof.
  unfold modules. cbn [dict_get].
  repeat (destruct (String.eqb _ g);
          [intros [= <-]; reflexivity|]).
  discriminate.
Qed.

Lemma instantiate_inv g devices next e w w' devices' next' :
  instantiate g (devices, next) e w = (w', Ok (devices', next')) ->
  next' = S next /\
  exists o, heap w' = heap w ++ [o] /\ ident o = (next, e_name e, g).
Proof.
  unfold instantiate, getitem, devices_append, getitem, newObj, bind, ret.
  destruct (dict_get modules g) as [class|] eqn:Ec; [|discriminate].
  simpl. destruct (dict_get devices g) as [l|]; [|discriminate].
  intros [= <- <- <-]. split; [reflexivity|].
  eexists. split; [reflexivity|].
  unfold ident. rewrite obj_base_set_base. simpl.
  rewrite (modules_slaveId g class next Ec). reflexivity.
Qed.

Lemma instantiate_entries_idents g es devices next w w' devices' next' :
  fold_each es (devices, next) (instantiate g) w
    = (w', Ok (devices', next')) ->
  next' = (next + length es)%nat /\
  exists objs, heap w' = heap w ++ objs /\
               map ident objs = planned next (map (pair g) es).
Proof.
  revert devices next w.
  induction es as [|e es IH]; intros devices next w H; cbn [fold_each] in H.
  - unfold ret in H. injection H as <- <- <-. split; [simpl; lia|].
    exists []. split; [rewrite app_nil_r; reflexivity | reflexivity].
  - unfold bind in H.
    destruct (instantiate g (devices, next) e w) as [w1 [[d1 n1]|ex]] eqn:E1;
      [|discriminate H].
    destruct (instantiate_inv _ _ _ _ _ _ _ _ E1) as (-> & o & Ho & Hid).
    destruct (IH _ _ _ H) as (-> & objs & Hobjs & Hids).
    split; [simpl; lia|].
    exists (o :: objs). split.
    + rewrite Hobjs, Ho, <- app_assoc. reflexivity.
    + unfold planned in *. simpl. rewrite Hid, Hids.
      rewrite Nat.add_0_r. f_equal.
      apply imap_ext. intros k [g' e'] _. simpl. do 2 f_equal. lia.
Qed.

Lemma planned_app first l1 l2 :
  planned first (l1 ++ l2)
  = planned first l1 ++ planned (first + length l1) l2.
Proof.
  unfold planned. rewrite imap_app. f_equal.
  apply imap_ext. intros k ge _. simpl. do 2 f_equal. lia.
Qed.

Lemma instantiate_groups_idents config_devices devices next w w' devices'
  next' :
  fold_each config_devices (devices, next) instantiate_group w
    = (w', Ok (devices', next')) ->
  next' = (next + length (entries config_devices))%nat /\
  exists objs, heap w' = heap w ++ objs /\
               map ident objs = planned next (entries config_devices).
Proof.
  revert devices next w.
  induction config_devices as [|[g es] cfg IH]; intros devices next w H;
    cbn [fold_each instantiate_group] in H.
  - unfold ret in H. injection H as <- <- <-. split; [simpl; lia|].
    exists []. split; [rewrite app_nil_r; reflexivity | reflexivity].
  - unfold bind in H.
    destruct (fold_each es (dict_set devices g [], next) (instantiate g) w)
      as [w1 [[d1 n1]|ex]] eqn:E1; [|discriminate H].
    destruct (instantiate_entries_idents _ _ _ _ _ _ _ _ E1)
      as (-> & objs1 & Ho1 & Hid1).
    destruct (IH _ _ _ H) as (-> & objs2 & Ho2 & Hid2).
    unfold entries. simpl. fold (entries cfg).
    rewrite length_app, length_map. split; [lia|].
    exists (objs1 ++ objs2). split.
    + rewrite Ho2, Ho1, <- app_assoc. reflexivity.
    + rewrite map_app, Hid1, Hid2, planned_app, length_map. reflexivity.
Qed.

Lemma name_in_world names d w : fst (name_in names d w) = w.
Proof.
  unfold name_in, getObj, bind, ret. destruct (heap w !! d); reflexivity.
Qed.

Lemma filter_each_world names (group : list ref) w :
  fst (filter_each group (name_in names) w) = w.
Proof.
  induction group as [|d group IH]; simpl; [reflexivity|].
  unfold bind. pose proof (name_in_world names d w) as Hn.
  destruct (name_in names d w) as [w1 [b|e]]; simpl in Hn; subst w1;
    [|reflexivity].
  destruct (filter_each group (name_in names) w) as [w2 [l|e]];
    simpl in IH; subst w2; reflexivity.
Qed.

Lemma resolve_input_world devices connections input w :
  fst (resolve_input devices connections input w) = w.
Proof.
  destruct input as [t names]. unfold resolve_input, getitem, bind.
  destruct (dict_get devices t) as [group|]; simpl; [|reflexivity].
  pose proof (filter_each_world names group w) as Hf.
  destruct (filter_each group (name_in names) w) as [w1 [l|e]];
    simpl in Hf; subst w1; reflexivity.
Qed.

Lemma resolve_inputs_world devices raw connections w :
  fst (fold_each raw connections (resolve_input devices) w) = w.
Proof.
  revert connections. induction raw as [|x raw IH]; intros c; simpl;
    [reflexivity|].
  unfold bind. pose proof (resolve_input_world devices c x w) as Hr.
  destruct (resolve_input devices c x w) as [w1 [c1|e]]; simpl in Hr;
    subst w1; [apply IH | reflexivity].
Qed.

Lemma keeps_resolve_device L devices d :
  keeps (fun w => map ident (heap w) = L) (resolve_device devices d)
    (fun _ => True).
Proof.
  intros w Hw. split; [|auto].
  unfold resolve_device.
  destruct (heap w !! d) as [o|] eqn:Eo.
  - assert (Eg : getObj d w = (w, Ok o))
      by (unfold getObj; rewrite Eo; reflexivity).
    rewrite (bind_ok _ _ _ _ _ Eg).
    destruct (config (obj_base o) ≫= e_connections) as [[|x raw]|];
      try exact Hw.
    pose proof (resolve_inputs_world devices (x :: raw) [] w) as Hf.
    unfold bind at 1.
    destruct (fold_each (x :: raw) [] (resolve_input devices) w)
      as [w1 [c|e]]; cbn [fst] in Hf; subst w1; [|exact Hw].
    unfold putObj. cbn [fst heap set_heap].
    rewrite list_fmap_insert. rewrite <- Hw. apply list_insert_id.
    rewrite list_lookup_fmap, Eo. cbn [fmap option_fmap option_map].
    unfold ident. rewrite obj_base_set_base. reflexivity.
  - unfold getObj, bind. rewrite Eo. exact Hw.
Qed.

Lemma generateDevices_idents config_devices simWeather w w' devices :
  generateDevices config_devices simWeather w = (w', Ok devices) ->
  map ident (heap w') =
  map ident (heap w) ++ planned 1 (entries config_devices)
  ++ [(S (length (entries config_devices)), "simControl", "Modules")].
Proof.
  unfold generateDevices. intros H. unfold bind at 1 in H.
  destruct (fold_each config_devices ([], 1%nat) instantiate_group w)
    as [w1 [[devices1 next1]|e]] eqn:E1; [|discriminate H].
  destruct (instantiate_groups_idents _ _ _ _ _ _ _ E1)
    as (-> & objs & Ho & Hid).
  unfold bind at 1 in H.
  assert (H2 : map ident (heap (fst (for_each devices1
                                       (resolve_group devices1) w1)))
               = map ident (heap w1)).
  { apply (keeps_for_each (fun w0 => map ident (heap w0) = map ident (heap w1))
             devices1 (resolve_group devices1)); [|reflexivity].
    intros group. apply keeps_for_each. intros d.
    apply keeps_resolve_device. }
  destruct (for_each devices1 (resolve_group devices1) w1)
    as [w2 [[]|e]]; [|discriminate H]. simpl in H2.
  unfold newObj, getitem, devices_append, getitem, putObj, bind, ret in H.
  repeat match type of H with
         | context [match dict_get ?d ?k with _ => _ end] =>
             destruct (dict_get d k); [|discriminate H]
         end.
  simpl in H. injection H as <- _. simpl.
  rewrite insert_app_r_alt by lia. rewrite Nat.sub_diag. simpl.
  rewrite map_app, H2, Ho, map_app, Hid, <- app_assoc. reflexivity.
Qed.

Lemma planned_ids first l :
  map (fun x : nat * string * string => x.1.1) (planned first l)
  = seq first (length l).
Proof.
  induction l as [|x l IH] using rev_ind; [reflexivity|].
  rewrite planned_app, map_app, IH, length_app, seq_app.
  unfold planned. simpl. rewrite Nat.add_0_r. reflexivity.
Qed.

(** X13: the addresses that the graph builder assigns.  Whenever
    [generateDevices] returns, it has added to the heap one object per
    entry of the description, in the order of the description (group by
    group, entry by entry), each with the name and the group of its
    entry and with the slave ids 1, 2, 3, ... in that order, and after
    them the controller, named "simControl", in the group "Modules",
    with the next slave id; objects that were there before keep their
    identity.  Hence the new devices have pairwise different slave
    ids. *)
Theorem generateDevices_addresses
  (config_devices : list (string * list DeviceEntry)) (simWeather : bool)
  (w w' : World) (devices : Devices) :
  generateDevices config_devices simWeather w = (w', Ok devices) ->
  map ident (heap w') =
    map ident (heap w) ++ planned 1 (entries config_devices)
    ++ [(S (length (entries config_devices)), "simControl", "Modules")] /\
  map (fun o => slaveId (obj_base o)) (drop (length (heap w)) (heap w'))
    = seq 1 (S (length (entries config_devices))) /\
  NoDup (map (fun o => slaveId (obj_base o))
           (drop (length (heap w)) (heap w'))).
Proof.
  intros H. pose proof (generateDevices_idents _ _ _ _ _ H) as Hid.
  split; [exact Hid|].
  assert (Hs : map (fun o => slaveId (obj_base o))
                 (drop (length (heap w)) (heap w'))
               = seq 1 (S (length (entries config_devices)))).
  { change (fun o => slaveId (obj_base o))
      with (fun o => (ident o).1.1).
    rewrite <- (map_map ident (fun x : nat * string * string => x.1.1)).
    change (map ident (drop (length (heap w)) (heap w')))
      with (ident <$> drop (length (heap w)) (heap w')).
    rewrite fmap_drop.
    change (ident <$> heap w') with (map ident (heap w')).
    rewrite Hid, drop_app_length' by (rewrite length_map; reflexivity).
    rewrite map_app, planned_ids, seq_S. reflexivity. }
  split; [exact Hs|]. rewrite Hs. apply NoDup_ListNoDup, List.seq_NoDup.
Qed.

Lemma generateDevices_addresses_witness :
  let res := generateDevices default_config false (initial_world rand0) in
  map ident (heap (fst res)) =
    [ (1, "inverter1", "inverters"); (2, "inverter2", "inverters");
      (3, "inverter3", "inverters"); (4, "inverter4", "inverters");
      (5, "feeder1Breaker", "feederBreakers");
      (6, "feeder2Breaker", "feederBreakers");
      (7, "transformer1", "transformers");
      (8, "mainBreaker1", "mainBreakers");
      (9, "checkMeter1", "checkMeters");
      (10, "simControl", "Modules") ]%nat /\
  NoDup (map (fun o => slaveId (obj_base o)) (heap (fst res))).
Proof.
  intros res.
  destruct (generateDevices_addresses default_config false
              (initial_world rand0) (fst res)
              (match snd res with Ok d => d | Raise _ => [] end))
    as (H1 & _ & H3).
  - vm_compute. reflexivity.
  - split; [exact H1 | exact H3].
Defined.

(** ** Descriptions that [generateDevices] rejects *)

Lemma fold_each_app {A S} (l1 l2 : list A) (acc : S) (step : S -> A -> M S)
  w :
  fold_each (l1 ++ l2) acc step w =
  bind (fold_each l1 acc step) (fun acc' => fold_each l2 acc' step) w.
Proof.
  revert acc w. induction l1 as [|x l1 IH]; intros acc w; simpl.
  - reflexivity.
  - unfold bind. destruct (step acc x w) as [w' [a|e]]; [|reflexivity].
    rewrite IH. reflexivity.
Qed.

Lemma instantiate_keys g devices next e w w' devices' next' k :
  instantiate g (devices, next) e w = (w', Ok (devices', next')) ->
  k <> g -> dict_get devices' k = dict_get devices k.
Proof.
  unfold instantiate, getitem, devices_append, getitem, newObj, bind, ret.
  destruct (dict_get modules g) as [class|]; [|discriminate].
  simpl. destruct (dict_get devices g) as [l|]; [|discriminate].
  intros [= <- <- <-] Hne. apply dict_get_set_ne. congruence.
Qed.

Lemma instantiate_entries_keys g es devices next w w' devices' next' k :
  fold_each es (devices, next) (instantiate g) w
    = (w', Ok (devices', next')) ->
  k <> g -> dict_get devices' k = dict_get devices k.
Proof.
  revert devices next w.
  induction es as [|e es IH]; intros devices next w H Hne;
    cbn [fold_each] in H.
  - unfold ret in H. injection H as <- <- <-. reflexivity.
  - unfold bind in H.
    destruct (instantiate g (devices, next) e w) as [w1 [[d1 n1]|ex]] eqn:E1;
      [|discriminate H].
    rewrite (IH _ _ _ H Hne). exact (instantiate_keys _ _ _ _ _ _ _ _ k E1 Hne).
Qed.

Lemma instantiate_groups_keys config_devices devices next w w' devices'
  next' k :
  fold_each config_devices (devices, next) instantiate_group w
    = (w', Ok (devices', next')) ->
  k ∉ map fst config_devices -> dict_get devices' k = dict_get devices k.
Proof.
  revert devices next w.
  induction config_devices as [|[g es] cfg IH]; intros devices next w H Hk;
    cbn [fold_each instantiate_group] in H.
  - unfold ret in H. injection H as <- <- <-. reflexivity.
  - unfold bind in H.
    destruct (fold_each es (dict_set devices g [], next) (instantiate g) w)
      as [w1 [[d1 n1]|ex]] eqn:E1; [|discriminate H].
    simpl in Hk. apply not_elem_of_cons in Hk as [Hne Hk].
    rewrite (IH _ _ _ H Hk).
    rewrite (instantiate_entries_keys _ _ _ _ _ _ _ _ k E1 Hne).
    apply dict_get_set_ne. congruence.
Qed.

(** X14: a group of the description that has an entry and is not one of
    the five device groups makes the graph builder fail.  When the groups
    before it are known, [generateDevices] raises [KeyError] with the
    name of that group, whatever follows it in the description. *)
Theorem generateDevices_unknown_group
  (pre post : list (string * list DeviceEntry)) (g : string)
  (e : DeviceEntry) (es : list DeviceEntry) (simWeather : bool) (w : World) :
  known_groups pre -> dict_get modules g = None ->
  snd (generateDevices (pre ++ (g, e :: es) :: post) simWeather w)
    = Raise (KeyError g).
Proof.
  intros Hknown Hg.
  destruct (instantiate_groups_ok (fun _ => True) pre [] 1%nat w Hknown)
    as (w1 & devices1 & next1 & E1 & _).
  { auto. }
  { intros g' refs r Hin. inversion Hin. }
  unfold generateDevices. unfold bind at 1.
  rewrite fold_each_app, (bind_ok _ _ _ _ _ E1).
  cbn [fold_each instantiate_group]. unfold bind at 1. unfold bind at 1.
  unfold instantiate at 1, getitem at 1. rewrite Hg. reflexivity.
Qed.

(** X15: the controller needs the groups "inverters", "checkMeters" and
    "mainBreakers".  For a description of known groups whose connections
    point to groups of the description, but which lacks one of the
    three, [generateDevices] raises [KeyError] with the name of a
    missing one: the first of the three, in this order, that the
    description lacks. *)
Theorem generateDevices_missing_required
  (config_devices : list (string * list DeviceEntry)) (simWeather : bool)
  (w : World) :
  known_groups config_devices ->
  (forall g es e, (g, es) ∈ config_devices -> e ∈ es ->
                  targets_listed config_devices e) ->
  ~ required_groups config_devices ->
  exists k,
    (k ∉ map fst config_devices) /\
    snd (generateDevices config_devices simWeather w) = Raise (KeyError k) /\
    (k = "inverters" \/
     (k = "checkMeters" /\ "inverters" ∈ map fst config_devices) \/
     (k = "mainBreakers" /\ "inverters" ∈ map fst config_devices /\
      "checkMeters" ∈ map fst config_devices)).
Proof.
  intros Hknown Htargets Hreq.
  destruct (instantiate_groups_ok (targets_listed config_devices)
              config_devices [] 1%nat w Hknown Htargets)
    as (w1 & devices & next & E1 & Hreg & Hkeys).
  { intros g refs r Hg. inversion Hg. }
  destruct (resolve_groups_ok devices w1) as (w2 & E2).
  { apply (registry_ok_weaken (targets_listed config_devices)); [|exact Hreg].
    intros e He raw t names Hraw Ht. apply Hkeys. right.
    exact (He raw t names Hraw Ht). }
  pose proof (fun k => instantiate_groups_keys _ _ _ _ _ _ _ k E1) as Hnone.
  unfold generateDevices.
  rewrite (bind_ok _ _ _ _ _ E1). cbv beta iota.
  rewrite (bind_ok _ _ _ _ _ E2).
  unfold newObj, getitem, devices_append, getitem, putObj, bind, ret.
  rewrite !dict_get_set_ne by discriminate.
  destruct (decide ("inverters" ∈ map fst config_devices)) as [Hi|Hi].
  - destruct (Hkeys "inverters" (or_intror Hi)) as [inverters Ei].
    rewrite Ei.
    destruct (decide ("checkMeters" ∈ map fst config_devices)) as [Hm|Hm].
    + destruct (Hkeys "checkMeters" (or_intror Hm)) as [meters Em].
      rewrite Em.
      destruct (decide ("mainBreakers" ∈ map fst config_devices)) as [Hb|Hb].
      * exfalso. apply Hreq. repeat split; assumption.
      * exists "mainBreakers". split; [exact Hb|].
        split; [rewrite (Hnone _ Hb); reflexivity | auto].
    + exists "checkMeters". split; [exact Hm|].
      split; [rewrite (Hnone _ Hm); reflexivity | auto].
  - exists "inverters". split; [exact Hi|].
    split; [rewrite (Hnone _ Hi); reflexivity | auto].
Qed.

Lemma generateDevices_unknown_group_witness :
  snd (generateDevices
         ([("inverters", [ {| e_name := "inverter1"; e_connections := None |} ])]
          ++ ("batteries", [ {| e_name := "battery1"; e_connections := None |} ])
             :: [("checkMeters", [])])
         false (initial_world rand0))
  = Raise (KeyError "batteries").
Proof.
  apply (generateDevices_unknown_group
           [("inverters", [ {| e_name := "inverter1"; e_connections := None |} ])]
           [("checkMeters", [])] "batteries"
           {| e_name := "battery1"; e_connections := None |} []
           false (initial_world rand0)).
  - intros g es H. apply list_elem_of_singleton in H. injection H as -> ->.
    vm_compute. eauto.
  - reflexivity.
Defined.

Lemma generateDevices_missing_required_witness :
  exists k,
    (k ∉ ["inverters"; "mainBreakers"]) /\
    snd (generateDevices
           [ ("inverters",
               [ {| e_name := "inverter1"; e_connections := None |} ]);
             ("mainBreakers", []) ]
           false (initial_world rand0))
    = Raise (KeyError k).
Proof.
  destruct (generateDevices_missing_required
              [ ("inverters",
                  [ {| e_name := "inverter1"; e_connections := None |} ]);
                ("mainBreakers", []) ]
              false (initial_world rand0))
    as (k & Hk & E & _).
  - intros g es H.
    apply elem_of_cons in H as [[= -> ->]|H]; [vm_compute; eauto|].
    apply list_elem_of_singleton in H. injection H as -> ->.
    vm_compute. eauto.
  - intros g es e H He raw t names Hraw.
    apply elem_of_cons in H as [[= -> ->]|H].
    + apply list_elem_of_singleton in He. subst e. discriminate Hraw.
    + apply list_elem_of_singleton in H. injection H as -> ->.
      inversion He.
  - intros (_ & H & _). simpl in H.
    apply elem_of_cons in H as [H|H]; [discriminate H|].
    apply list_elem_of_singleton in H. discriminate H.
  - exists k. split; [exact Hk | exact E].
Defined.


(** ** What [buildContext] leaves behind for the updates *)

Lemma link_obj_idem o : link_obj (link_obj o) = link_obj o.
Proof. destruct o; reflexivity. Qed.

Lemma link_contexts_heap (refs : list ref) (w : World) :
  (forall r, r ∈ refs -> is_Some (heap w !! r)) ->
  exists w',
    for_each refs link_context w = (w', Ok tt) /\ context w' = context w /\
    forall j, heap w' !! j =
              (if bool_decide (j ∈ refs) then link_obj <$> heap w !! j
               else heap w !! j).
Proof.
  revert w. induction refs as [|r refs IH]; intros w Hv; cbn [for_each].
  - exists w. do 2 (split; [reflexivity|]). intros j.
    rewrite bool_decide_eq_false_2; [reflexivity | apply not_elem_of_nil].
  - destruct (Hv r ltac:(left)) as [o Ho].
    unfold bind at 1. unfold link_context at 1, getObj, bind, putObj.
    rewrite Ho.
    set (w1 := set_heap (<[r := link_obj o]> (heap w)) w).
    change (set_heap
              (<[r := obj_set_base (set_modbusContext true (obj_base o)) o]>
                 (heap w)) w) with w1.
    assert (Hlen : (r < length (heap w))%nat)
      by (apply lookup_lt_Some in Ho; exact Ho).
    destruct (IH w1) as (w' & E & Hc & Hh).
    { intros r' Hr'. unfold w1. simpl. apply lookup_lt_is_Some.
      rewrite length_insert. apply lookup_lt_is_Some, Hv. right. exact Hr'. }
    exists w'. split; [exact E|]. split; [exact Hc|].
    intros j. rewrite Hh. unfold w1. simpl.
    destruct (decide (r = j)) as [<-|Hne].
    + rewrite list_lookup_insert_eq by exact Hlen.
      rewrite (bool_decide_eq_true_2 (r ∈ r :: refs)) by left.
      rewrite Ho. simpl.
      destruct (bool_decide (r ∈ refs)); simpl;
        [rewrite link_obj_idem|]; reflexivity.
    + rewrite list_lookup_insert_ne by exact Hne.
      destruct (bool_decide (j ∈ refs)) eqn:Ej.
      * apply bool_decide_eq_true_1 in Ej.
        rewrite (bool_decide_eq_true_2 (j ∈ r :: refs)) by (right; exact Ej).
        reflexivity.
      * apply bool_decide_eq_false_1 in Ej.
        rewrite (bool_decide_eq_false_2 (j ∈ r :: refs)); [reflexivity|].
        intros Hin. apply elem_of_cons in Hin as [-> | Hin]; contradiction.
Qed.

(** X16: [buildContext] establishes what the updates need.  From the
    state in which the module is loaded, and for a registry whose
    references are objects, it returns; every registered device is then
    linked to the server context and otherwise as it was, objects outside
    the registry are untouched, and the register file of every registered
    device is in place and reaches every cell address below 100. *)
Theorem buildContext_makes_devices_readable (devices : Devices) (w : World) :
  context w = {| blocks := initial_blocks; slaves := ∅ |} ->
  (forall r, r ∈ concat (map snd devices) -> is_Some (heap w !! r)) ->
  exists w',
    buildContext devices w = (w', Ok tt) /\
    (forall r, r ∉ concat (map snd devices) -> heap w' !! r = heap w !! r) /\
    (forall r o, r ∈ concat (map snd devices) -> heap w !! r = Some o ->
       heap w' !! r = Some (link_obj o) /\
       forall addr, (addr < 100)%nat ->
         readable (context w') (obj_base (link_obj o)) addr).
Proof.
  intros Hc Hv. unfold buildContext.
  assert (Hf : context_fresh (context w))
    by (rewrite Hc; apply initial_context_fresh).
  destruct (create_datastores_spec _ w Hf Hv)
    as (w1 & E1 & Hh & Hf1 & _ & Hcov).
  destruct (link_contexts_heap (concat (map snd devices)) w1)
    as (w2 & E2 & Hc2 & Hh2).
  { intros r Hr. rewrite Hh. apply Hv, Hr. }
  exists w2. split.
  { unfold bind. rewrite for_each_groups, E1. rewrite for_each_groups.
    exact E2. }
  split.
  { intros r Hr. rewrite Hh2, bool_decide_eq_false_2 by exact Hr.
    rewrite Hh. reflexivity. }
  intros r o Hr Ho. split.
  { rewrite Hh2, bool_decide_eq_true_2 by exact Hr. rewrite Hh, Ho.
    reflexivity. }
  intros addr Ha. unfold link_obj. rewrite obj_base_set_base.
  split; [reflexivity|]. rewrite Hc2.
  destruct (Hcov r o Hr Ho) as [s Hs]. exists s. split; [exact Hs|].
  intros x. destruct Hf1 as (_ & Hs1 & _).
  destruct (Hs1 _ s x Hs) as [_ Hz]. exists zero_block.
  split; [exact Hz|]. unfold slave_address, zero_block.
  cbn [address values]. rewrite length_replicate. lia.
Qed.

Lemma buildContext_makes_devices_readable_witness :
  let res := generateDevices default_config false (initial_world rand0) in
  let devices := match snd res with Ok d => d | Raise _ => [] end in
  exists w',
    buildContext devices (fst res) = (w', Ok tt) /\
    forall r o, r ∈ [0; 1; 2; 3; 4; 5; 6; 7; 8; 9]%nat ->
      heap (fst res) !! r = Some o ->
      heap w' !! r = Some (link_obj o) /\
      readable (context w') (obj_base (link_obj o)) 1.
Proof.
  intros res devices.
  destruct (buildContext_makes_devices_readable devices (fst res))
    as (w' & E & _ & H).
  - vm_compute. reflexivity.
  - intros r Hr. vm_compute in Hr.
    repeat (apply elem_of_cons in Hr as [-> | Hr];
            [vm_compute; eauto|]).
    inversion Hr.
  - exists w'. split; [exact E|]. intros r o Hr Ho.
    destruct (H r o) as [H1 H2]; [vm_compute; exact Hr | exact Ho|].
    split; [exact H1 | apply H2; lia].
Defined.

(** ** What [readModbus] imports *)








(** ** What a tick never changes *)

Section StaticInvariant.
Variable sqrt : Q -> Q.
Variable B0 : list (Class * ModuleBase).
Variable S0 : gmap nat ModbusSlaveContext.
Variable n0 : nat.
Variable E0 : list Exn.

Local Abbreviation SInv := (static_inv B0 S0 n0 E0).

Lemma static_inv_shape w r o :
  SInv w -> heap w !! r = Some o -> B0 !! r = Some (shape o).
Proof.
  intros [<- _] Hr. rewrite list_lookup_fmap, Hr. reflexivity.
Qed.

Lemma static_getInverter r :
  keeps SInv (getInverter r)
    (fun a => B0 !! r = Some (CInverter, Inverter.base a)).
Proof.
  intros w Hw. unfold getInverter.
  destruct (heap w !! r) as [[]|] eqn:E; simpl; (split; [exact Hw|]);
    intros a [=]. subst a. apply (static_inv_shape _ _ _ Hw E).
Qed.

Lemma static_getMeter r :
  keeps SInv (getMeter r) (fun a => B0 !! r = Some (CMeter, Meter.base a)).
Proof.
  intros w Hw. unfold getMeter.
  destruct (heap w !! r) as [[]|] eqn:E; simpl; (split; [exact Hw|]);
    intros a [=]. subst a. apply (static_inv_shape _ _ _ Hw E).
Qed.

Lemma static_getBreaker r :
  keeps SInv (getBreaker r)
    (fun a => B0 !! r = Some (CBreaker, Breaker.base a)).
Proof.
  intros w Hw. unfold getBreaker.
  destruct (heap w !! r) as [[]|] eqn:E; simpl; (split; [exact Hw|]);
    intros a [=]. subst a. apply (static_inv_shape _ _ _ Hw E).
Qed.

Lemma static_getTransformer r :
  keeps SInv (getTransformer r)
    (fun a => B0 !! r = Some (CTransformer, Transformer.base a)).
Proof.
  intros w Hw. unfold getTransformer.
  destruct (heap w !! r) as [[]|] eqn:E; simpl; (split; [exact Hw|]);
    intros a [=]. subst a. apply (static_inv_shape _ _ _ Hw E).
Qed.

Lemma static_getSimulationController r :
  keeps SInv (getSimulationController r)
    (fun a => B0 !! r
              = Some (CSimulationController, SimulationController.base a)).
Proof.
  intros w Hw. unfold getSimulationController.
  destruct (heap w !! r) as [[]|] eqn:E; simpl; (split; [exact Hw|]);
    intros a [=]. subst a. apply (static_inv_shape _ _ _ Hw E).
Qed.

Lemma static_putObj r o :
  B0 !! r = Some (shape o) -> keeps SInv (putObj r o) (fun _ => True).
Proof.
  intros Hs w (Hh & Hsl & Hn & He). unfold putObj. simpl.
  split; [|intros; exact Logic.I].
  split; [|split; [exact Hsl | split; [exact Hn | exact He]]]. simpl.
  rewrite list_fmap_insert, Hh. apply list_insert_id. exact Hs.
Qed.

Lemma static_randint a b : keeps SInv (randint a b) (fun _ => True).
Proof.
  intros w Hw. unfold randint. simpl. split; [exact Hw | intros; exact Logic.I].
Qed.

Lemma static_setValues self fc addr new :
  keeps SInv (setValues self fc addr new) (fun _ => True).
Proof.
  intros w (Hh & Hsl & Hn & He). split; [|intros; exact Logic.I].
  unfold setValues, bind, context_getitem.
  destruct (modbusContext self); [|repeat split; assumption].
  destruct (slaves (context w) !! slaveId self); [|repeat split; assumption].
  unfold add_event, set_context. simpl. destruct (decode fc);
    [destruct (blocks (context w) !! _)|]; simpl;
    (split; [exact Hh|]; split; simpl; [exact Hsl|]; split; simpl;
     [|exact He]);
    rewrite ?length_insert; exact Hn.
Qed.

Ltac static_prim :=
  first [ apply static_getInverter | apply static_getMeter
        | apply static_getBreaker | apply static_getTransformer
        | apply static_getSimulationController | apply static_randint
        | apply static_setValues | apply keeps_index | apply keeps_getitem
        | apply keeps_iterable | apply keeps_raise
        | apply keeps_ret; exact Logic.I ].

Ltac static_bind_prim := eapply keeps_bind; [static_prim | intros ? ?].

Ltac static_put H :=
  eapply keeps_bind; [apply static_putObj; exact H | intros _ _].

Lemma static_Inverter_writeModbus r :
  keeps SInv (Inverter_writeModbus r) (fun _ => True).
Proof. unfold Inverter_writeModbus. static_bind_prim. static_prim. Qed.

Lemma static_Meter_writeModbus r :
  keeps SInv (Meter_writeModbus sqrt r) (fun _ => True).
Proof. unfold Meter_writeModbus. static_bind_prim. static_prim. Qed.

Lemma static_Breaker_writeModbus r :
  keeps SInv (Breaker_writeModbus sqrt r) (fun _ => True).
Proof.
  unfold Breaker_writeModbus. static_bind_prim. static_bind_prim. static_prim.
Qed.

Lemma static_Transformer_writeModbus r :
  keeps SInv (Transformer_writeModbus r) (fun _ => True).
Proof. unfold Transformer_writeModbus. static_bind_prim. static_prim. Qed.

Lemma static_SimulationController_writeModbus r :
  keeps SInv (SimulationController_writeModbus r) (fun _ => True).
Proof.
  unfold SimulationController_writeModbus. static_bind_prim. static_prim.
Qed.

Lemma static_Breaker_enable_inverter v i :
  keeps SInv (Breaker_enable_inverter v i) (fun _ => True).
Proof.
  unfold Breaker_enable_inverter. static_bind_prim.
  apply static_putObj. assumption.
Qed.

Lemma static_Breaker_feeder_block self :
  keeps SInv (Breaker_feeder_block self) (fun _ => True).
Proof.
  unfold Breaker_feeder_block. static_bind_prim.
  eapply keeps_bind.
  { apply keeps_fold_each. intros acc x. unfold Breaker_add_inverter.
    static_bind_prim. static_prim. }
  intros c _. eapply keeps_bind.
  { apply keeps_for_each. intros x. apply static_Breaker_enable_inverter. }
  intros _ _. static_prim.
Qed.

Lemma static_Breaker_main_block self c :
  keeps SInv (Breaker_main_block self c) (fun _ => True).
Proof.
  unfold Breaker_main_block. static_bind_prim.
  eapply keeps_bind.
  { apply keeps_fold_each. intros acc x. unfold Breaker_add_breaker.
    static_bind_prim. static_prim. }
  intros c' _. static_bind_prim.
  apply keeps_fold_each. intros acc x. unfold Breaker_add_transformer.
  static_bind_prim. static_prim.
Qed.

Lemma static_Breaker_update r :
  keeps SInv (Breaker_update sqrt r) (fun _ => True).
Proof.
  unfold Breaker_update. static_bind_prim. static_put H.
  destruct (_ && _); [static_prim|].
  eapply keeps_bind.
  { destruct (String.eqb _ _); [apply static_Breaker_feeder_block
                               | static_prim]. }
  intros c _. destruct (_ && _); [static_prim|].
  eapply keeps_bind.
  { destruct (String.eqb _ _); [apply static_Breaker_main_block
                               | static_prim]. }
  intros c' _. static_put H. apply static_Breaker_writeModbus.
Qed.

Lemma static_Transformer_update r :
  keeps SInv (Transformer_update r) (fun _ => True).
Proof.
  unfold Transformer_update. static_bind_prim. static_put H.
  destruct (negb _); [static_prim|].
  static_bind_prim. eapply keeps_bind.
  { apply keeps_fold_each. intros acc x. unfold Transformer_add_breaker.
    static_bind_prim. static_prim. }
  intros c _. static_put H. apply static_Transformer_writeModbus.
Qed.

Lemma static_weatherSim s :
  keeps SInv (weatherSim s)
    (fun s' => SimulationController.base s' = SimulationController.base s).
Proof.
  intros w Hw.
  destruct (weatherSim_table s w)
    as (w' & st & irr & E & (Hh & Hc & _ & He & _) & _).
  rewrite E. simpl. split.
  - destruct Hw as (H1 & H2 & H3 & H4). unfold static_inv.
    rewrite Hh, Hc, He. auto.
  - intros a [= <-]. reflexivity.
Qed.

Lemma static_SimulationController_feed_inverter irr i :
  keeps SInv (SimulationController_feed_inverter irr i) (fun _ => True).
Proof.
  unfold SimulationController_feed_inverter.
  static_bind_prim. static_bind_prim.
  apply static_putObj. assumption.
Qed.

Lemma static_SimulationController_update r :
  keeps SInv (SimulationController_update r) (fun _ => True).
Proof.
  unfold SimulationController_update.
  eapply keeps_bind; [apply static_getSimulationController|].
  intros self Hc.
  do 5 static_bind_prim.
  eapply keeps_bind; [apply static_getMeter|]. intros m Hm.
  static_put Hm. static_bind_prim.
  eapply keeps_bind.
  { apply keeps_fold_each. intros acc x.
    unfold SimulationController_add_reactive. static_bind_prim. static_prim. }
  intros acc _.
  assert (Hc' : B0 !! r = Some (shape (OSimulationController
                   (if truthy (SimulationController.voltageStepCommand self)
                    then SimulationController_set_voltageStepCommand 0 self
                    else self)))).
  { destruct (truthy _); exact Hc. }
  eapply keeps_bind; [apply static_putObj; exact Hc'|].
  intros _ _. do 3 static_bind_prim. static_put Hm.
  apply keeps_bind with (P := fun _ => True);
    [|intros _ _; apply static_SimulationController_writeModbus].
  destruct (SimulationController.simWeatherEnabled _); [|static_prim].
  eapply keeps_bind; [apply static_weatherSim|].
  intros s' Hs'. eapply keeps_bind.
  { apply static_putObj. unfold shape. simpl. rewrite Hs'.
    destruct (truthy _); exact Hc. }
  intros _ _. apply keeps_for_each. intros x.
  apply static_SimulationController_feed_inverter.
Qed.

Lemma static_update r : keeps SInv (update sqrt r) (fun _ => True).
Proof.
  intros w Hw. unfold update, Module_update.
  destruct (heap w !! r) as [[]|].
  - apply static_Inverter_writeModbus, Hw.
  - apply static_Meter_writeModbus, Hw.
  - apply static_Breaker_update, Hw.
  - apply static_Transformer_update, Hw.
  - apply static_SimulationController_update, Hw.
  - simpl. split; [exact Hw | intros; exact Logic.I].
Qed.

Lemma static_updateDevices devices :
  keeps SInv (updateDevices sqrt devices) (fun _ => True).
Proof.
  unfold updateDevices. apply keeps_for_each. intros g.
  apply keeps_for_each. intros r. apply static_update.
Qed.

End StaticInvariant.

Lemma static_loop_iteration sqrt B0 S0 n0 E0 devices w :
  static_inv B0 S0 n0 E0 w ->
  exists E1, static_inv B0 S0 n0 E1 (loop_iteration sqrt devices w).
Proof.
  intros Hw. unfold loop_iteration.
  destruct (static_updateDevices sqrt B0 S0 n0 E0 devices w Hw) as [H _].
  destruct (updateDevices sqrt devices w) as [w' [a|e]]; simpl in *.
  - exists E0. exact H.
  - exists (E0 ++ [e]). destruct H as (H1 & H2 & H3 & H4).
    repeat split; simpl; congruence.
Qed.

Lemma static_start sqrt B0 S0 n0 E0 devices k w :
  static_inv B0 S0 n0 E0 w ->
  exists E1, static_inv B0 S0 n0 E1 (start sqrt devices k w).
Proof.
  intros Hw. unfold start. induction k as [|k IH]; simpl.
  - exists E0. exact Hw.
  - destruct IH as [E1 H1]. exact (static_loop_iteration _ _ _ _ _ _ _ H1).
Qed.


(** X18: what no tick changes.  Whatever the registry and however many
    iterations of the event loop run, with or without failing updates,
    every object keeps its class and the fields of [Module] (slave id,
    name, group, link to the server context, connections, description
    entry); no object is added or removed; the register file of every
    slave id and the number of data blocks stay the same. *)
Theorem tick_keeps_static_part (sqrt : Q -> Q) (devices : Devices)
  (ticks : nat) (w : World) :
  let w' := start sqrt devices ticks w in
  shape <$> heap w' = shape <$> heap w /\
  length (heap w') = length (heap w) /\
  slaves (context w') = slaves (context w) /\
  length (blocks (context w')) = length (blocks (context w)).
Proof.
  intros w'.
  destruct (static_start sqrt (shape <$> heap w) (slaves (context w))
              (length (blocks (context w))) (errors w) devices ticks w)
    as (E1 & H1 & H2 & H3 & _).
  { repeat split. }
  split; [exact H1|]. split; [|split; assumption].
  apply (f_equal length) in H1. rewrite !length_fmap in H1. exact H1.
Qed.

(** ** A well-wired plant does not fail *)

Lemma lookup_all_total {A} (f : ref -> option A) (refs : list ref) :
  (forall r, r ∈ refs -> is_Some (f r)) ->
  exists xs, lookup_all f refs = Some xs.
Proof.
  induction refs as [|r refs IH]; intros H; simpl; [eauto|].
  destruct (H r ltac:(left)) as [a Ha]. rewrite Ha.
  destruct IH as [xs Hxs]; [intros r' Hr'; apply H; right; exact Hr'|].
  rewrite Hxs. eauto.
Qed.

Section WellWired.
Variable sqrt : Q -> Q.
Variable B0 : list (Class * ModuleBase).
Variable S0 : gmap nat ModbusSlaveContext.
Variable n0 : nat.
Variable L0 : list Exn.
Hypothesis Hwired : well_wired B0 S0 n0.

Local Abbreviation WInv := (static_inv B0 S0 n0 L0).

Lemma static_lookup w r c b :
  WInv w -> B0 !! r = Some (c, b) ->
  exists o, heap w !! r = Some o /\ class_of o = c /\ obj_base o = b.
Proof.
  intros [<- _] Hr. rewrite list_lookup_fmap in Hr.
  destruct (heap w !! r) as [o|]; [|discriminate Hr].
  injection Hr as <- <-. eauto.
Qed.

Lemma static_exportable w self :
  WInv w -> has_register_file S0 n0 self -> exportable (context w) self.
Proof.
  intros (_ & <- & <- & _) (Hl & s & Hs & Hb). split; [exact Hl|].
  exists s. split; [exact Hs|]. intros x. apply lookup_lt_is_Some, Hb.
Qed.

Lemma static_inverters w refs :
  WInv w -> all_of B0 CInverter refs ->
  exists ivs, lookup_all (inverter_at w) refs = Some ivs.
Proof.
  intros Hw Hall. apply lookup_all_total. intros r Hr.
  destruct (Hall r Hr) as [b Hb].
  destruct (static_lookup w r _ _ Hw Hb) as (o & Ho & Hc & _).
  unfold inverter_at. rewrite Ho. destruct o; try discriminate Hc. eauto.
Qed.

Lemma static_breakers w refs :
  WInv w -> all_of B0 CBreaker refs ->
  exists bks, lookup_all (breaker_at w) refs = Some bks.
Proof.
  intros Hw Hall. apply lookup_all_total. intros r Hr.
  destruct (Hall r Hr) as [b Hb].
  destruct (static_lookup w r _ _ Hw Hb) as (o & Ho & Hc & _).
  unfold breaker_at. rewrite Ho. destruct o; try discriminate Hc. eauto.
Qed.

Lemma static_transformers w refs :
  WInv w -> all_of B0 CTransformer refs ->
  exists trs, lookup_all (transformer_at w) refs = Some trs.
Proof.
  intros Hw Hall. apply lookup_all_total. intros r Hr.
  destruct (Hall r Hr) as [b Hb].
  destruct (static_lookup w r _ _ Hw Hb) as (o & Ho & Hc & _).
  unfold transformer_at. rewrite Ho. destruct o; try discriminate Hc. eauto.
Qed.

Lemma static_put_lookup w r o :
  WInv w -> B0 !! r = Some (shape o) ->
  let w1 := set_heap (<[r := o]> (heap w)) w in
  WInv w1 /\ heap w1 !! r = Some o.
Proof.
  intros Hw Hs w1. split.
  - exact (proj1 (static_putObj B0 S0 n0 L0 r o Hs w Hw)).
  - unfold w1. simpl. apply list_lookup_insert_eq.
    destruct Hw as [Hh _]. apply lookup_lt_Some in Hs.
    rewrite <- Hh, length_fmap in Hs. exact Hs.
Qed.

Lemma Breaker_store_and_export r b w :
  WInv w -> B0 !! r = Some (CBreaker, Breaker.base b) ->
  exists w', (putObj r (OBreaker b) ;;; Breaker_writeModbus sqrt r) w
             = (w', Ok tt) /\ WInv w'.
Proof.
  intros Hw Hs.
  destruct (static_put_lookup w r (OBreaker b) Hw Hs) as [Hw1 Hr1].
  set (w1 := set_heap (<[r := OBreaker b]> (heap w)) w) in *.
  assert (E1 : putObj r (OBreaker b) w = (w1, Ok tt)) by reflexivity.
  rewrite (bind_ok _ _ _ _ _ E1).
  destruct (Breaker_writeModbus_returns sqrt r b w1 Hr1) as (w2 & E2 & _).
  { apply static_exportable; [exact Hw1|]. apply (Hwired r _ Hs). }
  exists w2. split; [exact E2|].
  pose proof (static_Breaker_writeModbus sqrt B0 S0 n0 L0 r w1 Hw1) as [H _].
  rewrite E2 in H. exact H.
Qed.

Lemma Breaker_update_returns r b w :
  WInv w -> heap w !! r = Some (OBreaker b) ->
  exists w', Breaker_update sqrt r w = (w', Ok tt) /\ WInv w'.
Proof.
  intros Hw Hr.
  pose proof (static_inv_shape B0 S0 n0 L0 w r _ Hw Hr) as Hs.
  destruct (Hwired r _ Hs) as [Hrf [Hfeed Hmain]].
  cbn [shape class_of obj_base fst snd] in Hs, Hrf, Hfeed, Hmain.
  unfold Breaker_update.
  assert (E0 : getBreaker r w = (w, Ok b))
    by (unfold getBreaker; rewrite Hr; reflexivity).
  rewrite (bind_ok _ _ _ _ _ E0). cbv beta zeta.
  cbn [Breaker.base Breaker_set_connected Breaker.inverters Breaker.breakers
       Breaker.transformers].
  set (b1 := Breaker_set_connected _ _ _ b).
  destruct (static_put_lookup w r (OBreaker b1) Hw Hs) as [Hw1 Hr1].
  set (w1 := set_heap (<[r := OBreaker b1]> (heap w)) w) in *.
  assert (E1 : putObj r (OBreaker b1) w = (w1, Ok tt)) by reflexivity.
  rewrite (bind_ok _ _ _ _ _ E1).
  destruct (String.eqb_spec (moduleGroup (Breaker.base b)) "feederBreakers")
    as [Hg|Hg].
  - (* a feeder breaker *)
    rewrite Hg.
    change ("feederBreakers" =? "mainBreakers")%string with false.
    cbn [andb].
    destruct (dict_get (connections (Breaker.base b)) "inverters")
      as [[|i refs]|] eqn:Einv; cbn [nonempty negb];
      [exists w1; split; [reflexivity | exact Hw1] | |
       exists w1; split; [reflexivity | exact Hw1]].
    destruct (static_inverters w1 (i :: refs) Hw1 (Hfeed Hg _ eq_refl))
      as [ivs Hivs].
    destruct (Breaker_feeder_block_spec b1 (i :: refs) ivs w1)
      as (w2 & E2 & _); [reflexivity | exact Hivs |].
    rewrite (bind_ok _ _ _ _ _ E2). rewrite ?bind_ret.
    pose proof (static_Breaker_feeder_block B0 S0 n0 L0 b1 w1 Hw1) as [Hw2 _].
    rewrite E2 in Hw2. simpl in Hw2.
    apply Breaker_store_and_export; [exact Hw2 | exact Hs].
  - rewrite ?bind_ret.
    destruct (String.eqb_spec (moduleGroup (Breaker.base b)) "mainBreakers")
      as [Hm|Hm].
    + (* a main breaker *)
      cbn [andb].
      destruct (dict_get (connections (Breaker.base b)) "feederBreakers")
        as [[|fb fbs]|] eqn:Efb; cbn [nonempty negb];
        [exists w1; split; [reflexivity | exact Hw1] | |
         exists w1; split; [reflexivity | exact Hw1]].
      destruct (Hmain Hm _ eq_refl ltac:(discriminate))
        as (Hbks & ts & Ets & Htrs).
      destruct (static_breakers w1 _ Hw1 Hbks) as [bks Ebks].
      destruct (static_transformers w1 _ Hw1 Htrs) as [trs Etrs].
      rewrite ?bind_ret.
      rewrite (bind_ok _ _ _ _ _
                 (Breaker_main_block_sums b1 Combined0 w1 (fb :: fbs) ts bks
                    trs eq_refl Ets Ebks Etrs)).
      apply Breaker_store_and_export; [exact Hw1 | exact Hs].
    + cbn [andb]. rewrite ?bind_ret.
      apply Breaker_store_and_export; [exact Hw1 | exact Hs].
Qed.
Lemma Transformer_update_returns r t w :
  WInv w -> heap w !! r = Some (OTransformer t) ->
  exists w', Transformer_update r w = (w', Ok tt).
Proof.
  intros Hw Hr.
  pose proof (static_inv_shape B0 S0 n0 L0 w r _ Hw Hr) as Hs.
  destruct (Hwired r _ Hs) as [Hrf Hfb].
  cbn [shape class_of obj_base fst snd wired] in Hs, Hrf, Hfb.
  unfold Transformer_update.
  assert (E0 : getTransformer r w = (w, Ok t))
    by (unfold getTransformer; rewrite Hr; reflexivity).
  rewrite (bind_ok _ _ _ _ _ E0). cbv beta zeta.
  cbn [Transformer.base Transformer_set_breakers Transformer.breakers].
  set (t1 := Transformer_set_breakers _ t).
  destruct (static_put_lookup w r (OTransformer t1) Hw Hs) as [Hw1 Hr1].
  set (w1 := set_heap (<[r := OTransformer t1]> (heap w)) w) in *.
  assert (E1 : putObj r (OTransformer t1) w = (w1, Ok tt)) by reflexivity.
  rewrite (bind_ok _ _ _ _ _ E1).
  destruct (dict_get (connections (Transformer.base t)) "feederBreakers")
    as [[|fb fbs]|] eqn:Efb; cbn [nonempty negb iterable];
    [exists w1; reflexivity | | exists w1; reflexivity].
  destruct (static_breakers w1 _ Hw1 (Hfb _ eq_refl)) as [bks Ebks].
  rewrite bind_ret.
  rewrite (bind_ok _ _ _ _ _
             (fold_Transformer_add_breaker (fb :: fbs) bks Combined0 w1 Ebks)).
  match goal with |- context [putObj r (OTransformer ?tf)] => set (t2 := tf) end.
  destruct (static_put_lookup w1 r (OTransformer t2) Hw1 Hs) as [Hw2 Hr2].
  set (w2 := set_heap (<[r := OTransformer t2]> (heap w1)) w1) in *.
  assert (E2 : putObj r (OTransformer t2) w1 = (w2, Ok tt)) by reflexivity.
  rewrite (bind_ok _ _ _ _ _ E2).
  destruct (Transformer_writeModbus_heap r t2 w2 Hr2) as (w3 & E3 & _).
  { apply static_exportable; [exact Hw2 | exact Hrf]. }
  exists w3. exact E3.
Qed.

Lemma SimulationController_update_returns r s w :
  WInv w -> heap w !! r = Some (OSimulationController s) ->
  exists w', SimulationController_update r w = (w', Ok tt).
Proof.
  intros Hw Hr.
  pose proof (static_inv_shape B0 S0 n0 L0 w r _ Hw Hr) as Hs.
  destruct (Hwired r _ Hs)
    as [Hrf (mb & bs & cm & ms & invs & Hbk & Hmb & Hmt & Hcm & Hinv & Hall)].
  cbn [shape class_of obj_base fst snd] in Hs, Hrf, Hbk, Hmt, Hinv.
  destruct (Hmb mb ltac:(left)) as [bb Hbb].
  destruct (static_lookup w mb _ _ Hw Hbb) as (o1 & Ho1 & Hc1 & _).
  destruct o1 as [| |b| |]; try discriminate Hc1.
  destruct (Hcm cm ltac:(left)) as [mm Hmm].
  destruct (static_lookup w cm _ _ Hw Hmm) as (o2 & Ho2 & Hc2 & _).
  destruct o2 as [|m| | |]; try discriminate Hc2.
  destruct (static_inverters w invs Hw Hall) as [ivs Hivs].
  destruct (SimulationController_update_spec r s w mb bs cm ms invs m b ivs
              Hr Hbk Hmt Hinv Ho2 Ho1 Hivs
              (static_exportable w _ Hw Hrf))
    as (w' & _ & _ & _ & _ & _ & E & _).
  exists w'. exact E.
Qed.

Lemma update_returns r w :
  WInv w -> (r < length B0)%nat ->
  exists w', update sqrt r w = (w', Ok tt) /\ WInv w'.
Proof.
  intros Hw Hlt.
  assert (Hex : exists w', update sqrt r w = (w', Ok tt)).
  { destruct (lookup_lt_is_Some_2 _ _ Hlt) as [cb Hcb].
    destruct cb as [c base].
    destruct (static_lookup w r _ _ Hw Hcb) as (o & Ho & _ & _).
    pose proof (static_inv_shape B0 S0 n0 L0 w r _ Hw Ho) as Hs.
    destruct (Hwired r _ Hs) as [Hrf _].
    unfold update, Module_update. rewrite Ho. destruct o as [i|m|b|t|s].
    - unfold Inverter_writeModbus, getInverter, bind at 1. rewrite Ho.
      match goal with |- context [setValues ?s ?fc ?a ?n w] =>
        destruct (setValues_returns s fc a n BankI w
                    (static_exportable w _ Hw Hrf) eq_refl)
          as (w1 & E1 & _) end.
      exists w1. exact E1.
    - unfold Meter_writeModbus, getMeter, bind at 1. rewrite Ho.
      match goal with |- context [setValues ?s ?fc ?a ?n w] =>
        destruct (setValues_returns s fc a n BankI w
                    (static_exportable w _ Hw Hrf) eq_refl)
          as (w1 & E1 & _) end.
      exists w1. exact E1.
    - destruct (Breaker_update_returns r b w Hw Ho) as (w1 & E1 & _).
      exists w1. exact E1.
    - exact (Transformer_update_returns r t w Hw Ho).
    - exact (SimulationController_update_returns r s w Hw Ho). }
  destruct Hex as [w' E]. exists w'. split; [exact E|].
  pose proof (static_update sqrt B0 S0 n0 L0 r w Hw) as [H _].
  rewrite E in H. exact H.
Qed.

Lemma updateDevices_returns devices w :
  (forall r, r ∈ concat (map snd devices) -> (r < length B0)%nat) ->
  WInv w ->
  exists w', updateDevices sqrt devices w = (w', Ok tt) /\ WInv w'.
Proof.
  intros Hreg Hw. unfold updateDevices. rewrite for_each_groups.
  apply (for_each_returns WInv); [|exact Hw].
  intros r w0 Hr Hw0. apply update_returns; [exact Hw0 | apply Hreg, Hr].
Qed.

Lemma start_returns devices ticks w :
  (forall r, r ∈ concat (map snd devices) -> (r < length B0)%nat) ->
  WInv w ->
  WInv (start sqrt devices ticks w) /\
  forall k, (k < ticks)%nat ->
    snd (updateDevices sqrt devices (start sqrt devices k w)) = Ok tt.
Proof.
  intros Hreg Hw. induction ticks as [|n IH].
  - split; [exact Hw|]. intros k Hk. lia.
  - destruct IH as (Hn & Hk).
    destruct (updateDevices_returns devices _ Hreg Hn) as (w' & E & Hw').
    change (start sqrt devices (S n) w)
      with (loop_iteration sqrt devices (start sqrt devices n w)).
    unfold loop_iteration at 1. rewrite E. split; [exact Hw'|].
    intros k Hlt. destruct (decide (k = n)) as [->|Hne].
    + rewrite E. reflexivity.
    + apply Hk. lia.
Qed.
End WellWired.

(** ** The default plant *)

Lemma default_plant_well_wired (simWeather : bool) (rand : nat -> Z) :
  let w := fst (Simulator_init default_config simWeather (initial_world rand))
  in
  snd (Simulator_init default_config simWeather (initial_world rand))
    = Ok [ ("inverters", [0; 1; 2; 3]); ("feederBreakers", [4; 5]);
           ("transformers", [6]); ("mainBreakers", [7]);
           ("checkMeters", [8]); ("simControl", [9]) ]%nat /\
  length (heap w) = 10%nat /\ errors w = [] /\
  well_wired (shape <$> heap w) (slaves (context w))
    (length (blocks (context w))).
Proof.
  intros w. split; [vm_compute; reflexivity|].
  split; [vm_compute; reflexivity|]. split; [vm_compute; reflexivity|].
  intros r cb Hr.
  destruct r as [|[|[|[|[|[|[|[|[|[|r]]]]]]]]]];
    (vm_compute in Hr; first [discriminate Hr | injection Hr as <-]).
  all: split;
    [split; [reflexivity|]; eexists;
     split; [vm_compute; reflexivity|]; intros []; vm_compute; lia|].
  all: try exact Logic.I.
  - split; [|intros Hg; discriminate Hg].
    intros _ refs Href. vm_compute in Href. injection Href as <-.
    intros r' Hr'.
    repeat (apply elem_of_cons in Hr' as [-> | Hr'];
            [eexists; vm_compute; reflexivity|]).
    inversion Hr'.
  - split; [|intros Hg; discriminate Hg].
    intros _ refs Href. vm_compute in Href. injection Href as <-.
    intros r' Hr'.
    repeat (apply elem_of_cons in Hr' as [-> | Hr'];
            [eexists; vm_compute; reflexivity|]).
    inversion Hr'.
  - intros refs Href. vm_compute in Href. injection Href as <-.
    intros r' Hr'.
    repeat (apply elem_of_cons in Hr' as [-> | Hr'];
            [eexists; vm_compute; reflexivity|]).
    inversion Hr'.
  - split; [intros Hg; discriminate Hg|].
    intros _ refs Href _. vm_compute in Href. injection Href as <-.
    split.
    + intros r' Hr'.
      repeat (apply elem_of_cons in Hr' as [-> | Hr'];
              [eexists; vm_compute; reflexivity|]).
      inversion Hr'.
    + exists [6%nat]. split; [vm_compute; reflexivity|].
      intros r' Hr'.
      repeat (apply elem_of_cons in Hr' as [-> | Hr'];
              [eexists; vm_compute; reflexivity|]).
      inversion Hr'.
  - exists 7%nat, [], 8%nat, [], [0; 1; 2; 3]%nat.
    split; [vm_compute; reflexivity|]. split.
    { intros r' Hr'.
      repeat (apply elem_of_cons in Hr' as [-> | Hr'];
              [eexists; vm_compute; reflexivity|]).
      inversion Hr'. }
    split; [vm_compute; reflexivity|]. split.
    { intros r' Hr'.
      repeat (apply elem_of_cons in Hr' as [-> | Hr'];
              [eexists; vm_compute; reflexivity|]).
      inversion Hr'. }
    split; [vm_compute; reflexivity|].
    intros r' Hr'.
    repeat (apply elem_of_cons in Hr' as [-> | Hr'];
            [eexists; vm_compute; reflexivity|]).
    inversion Hr'.
Qed.

(** X19: a well-wired plant does not fail.  When every object has its
    register file and finds what its update looks up (a feeder breaker
    its inverters; a main breaker with feeder breakers those breakers and
    a list of transformers; a transformer its feeder breakers; the
    controller a main breaker, a check meter and its inverters), and the
    registry refers to objects, then in every iteration of the event
    loop the pass over the devices returns: no update raises, and nothing
    is added to the error log. *)
Theorem well_wired_plant_never_raises (sqrt : Q -> Q) (devices : Devices)
  (w : World) :
  well_wired (shape <$> heap w) (slaves (context w))
    (length (blocks (context w))) ->
  (forall r, r ∈ concat (map snd devices) -> (r < length (heap w))%nat) ->
  forall ticks,
    snd (updateDevices sqrt devices (start sqrt devices ticks w)) = Ok tt /\
    errors (start sqrt devices ticks w) = errors w.
Proof.
  intros Hwired Hreg ticks.
  destruct (start_returns sqrt _ _ _ (errors w) Hwired devices (S ticks) w)
    as [_ Hok].
  { intros r Hr. rewrite length_fmap. apply Hreg, Hr. }
  { repeat split. }
  split; [apply Hok; lia|].
  destruct (start_returns sqrt _ _ _ (errors w) Hwired devices ticks w)
    as [(_ & _ & _ & He) _].
  { intros r Hr. rewrite length_fmap. apply Hreg, Hr. }
  { repeat split. }
  exact He.
Qed.

(** X20: the plant of the default configuration runs without errors.
    Whatever the random source and the square root, with the weather
    simulation on or off, [Simulator.__init__] builds the ten devices of
    the default configuration, and in every iteration of the event loop
    the pass over them returns; the error log stays empty. *)
Theorem default_plant_never_raises (sqrt : Q -> Q) (rand : nat -> Z)
  (simWeather : bool) (ticks : nat) :
  let w := fst (Simulator_init default_config simWeather (initial_world rand))
  in
  let devices :=
    [ ("inverters", [0; 1; 2; 3]); ("feederBreakers", [4; 5]);
      ("transformers", [6]); ("mainBreakers", [7]);
      ("checkMeters", [8]); ("simControl", [9]) ]%nat in
  snd (Simulator_init default_config simWeather (initial_world rand))
    = Ok devices /\
  snd (updateDevices sqrt devices (start sqrt devices ticks w)) = Ok tt /\
  errors (start sqrt devices ticks w) = [].
Proof.
  intros w devices.
  destruct (default_plant_well_wired simWeather rand)
    as (Hdev & Hlen & Herr & Hwired).
  fold w in Hlen, Herr, Hwired.
  split; [exact Hdev|].
  assert (Hreg : forall r, r ∈ concat (map snd devices) ->
                           (r < length (shape <$> heap w))%nat).
  { intros r Hr. rewrite length_fmap, Hlen. simpl in Hr.
    repeat (apply elem_of_cons in Hr as [-> | Hr]; [lia|]).
    inversion Hr. }
  assert (Hinv : static_inv (shape <$> heap w) (slaves (context w))
                   (length (blocks (context w))) [] w)
    by (repeat split; exact Herr).
  destruct (start_returns sqrt _ _ _ [] Hwired devices (S ticks) w Hreg Hinv)
    as [_ Hok].
  split; [apply Hok; lia|].
  destruct (start_returns sqrt _ _ _ [] Hwired devices ticks w Hreg Hinv)
    as [(_ & _ & _ & He) _].
  exact He.
Qed.

Lemma well_wired_plant_never_raises_witness :
  let w := plant_world default_config true in
  let devices := plant_devices default_config true in
  snd (updateDevices sqrt_milli devices (start sqrt_milli devices 2 w))
    = Ok tt /\
  errors (start sqrt_milli devices 2 w) = errors w.
Proof.
  intros w devices.
  apply (well_wired_plant_never_raises sqrt_milli devices w).
  - exact (proj2 (proj2 (proj2 (default_plant_well_wired true rand0)))).
  - intros r Hr. vm_compute in Hr.
    repeat (apply elem_of_cons in Hr as [-> | Hr]; [vm_compute; lia|]).
    inversion Hr.
Defined.

(** ** The register maps of breakers and transformers *)











(** ** The flow of power through the default plant *)

Lemma mainBreaker_update_lemma sqrt r b w fb fbs ts bks trs :
  heap w !! r = Some (OBreaker b) ->
  moduleGroup (Breaker.base b) = "mainBreakers" ->
  dict_get (connections (Breaker.base b)) "feederBreakers" = Some (fb :: fbs) ->
  dict_get (connections (Breaker.base b)) "transformers" = Some ts ->
  r ∉ fb :: fbs ->
  lookup_all (breaker_at w) (fb :: fbs) = Some bks ->
  lookup_all (transformer_at w) ts = Some trs ->
  exportable (context w) (Breaker.base b) ->
  exists w' b',
    update sqrt r w = (w', Ok tt) /\
    heap w' !! r = Some (OBreaker b') /\
    Breaker._realPower b' = Qsum (map Breaker.realPower bks) /\
    Breaker._reactivePower b' = Qsum (map Breaker.reactivePower bks) /\
    Breaker.closeCommand b' = Breaker.closeCommand b /\
    forall j, j <> r -> heap w' !! j = heap w !! j.
Proof.
  intros Hr Hg Hfb Hts Hnot Hbks Htrs Hex.
  unfold update. rewrite Hr. unfold Breaker_update.
  assert (E0 : getBreaker r w = (w, Ok b))
    by (unfold getBreaker; rewrite Hr; reflexivity).
  rewrite (bind_ok _ _ _ _ _ E0). cbv beta zeta.
  cbn [Breaker.base Breaker_set_connected Breaker.inverters Breaker.breakers
       Breaker.transformers].
  rewrite Hg, Hfb, Hts.
  change ("mainBreakers" =? "feederBreakers")%string with false.
  change ("mainBreakers" =? "mainBreakers")%string with true.
  cbn [andb negb nonempty].
  set (b1 := Breaker_set_connected (Some (fb :: fbs))
               (dict_get (connections (Breaker.base b)) "inverters")
               (Some ts) b).
  set (w1 := set_heap (<[r := OBreaker b1]> (heap w)) w).
  assert (E1 : putObj r (OBreaker b1) w = (w1, Ok tt)) by reflexivity.
  rewrite (bind_ok _ _ _ _ _ E1).
  assert (Hlen : (r < length (heap w))%nat)
    by (apply lookup_lt_Some in Hr; exact Hr).
  assert (Hbks1 : lookup_all (breaker_at w1) (fb :: fbs) = Some bks).
  { rewrite <- Hbks. apply lookup_all_insert. intros r' Hr'.
    unfold breaker_at, w1. simpl. rewrite list_lookup_insert_ne; [reflexivity|].
    intros ->. contradiction. }
  assert (Htrs1 : lookup_all (transformer_at w1) ts = Some trs).
  { rewrite <- Htrs. apply lookup_all_insert. intros r' Hr'.
    unfold transformer_at, w1. simpl.
    destruct (decide (r = r')) as [<-|Hne].
    - rewrite list_lookup_insert_eq by exact Hlen. rewrite Hr. reflexivity.
    - rewrite list_lookup_insert_ne by exact Hne. reflexivity. }
  unfold bind at 1, ret at 1.
  rewrite (bind_ok _ _ _ _ _
             (Breaker_main_block_sums b1 Combined0 w1 (fb :: fbs) ts bks trs
                eq_refl eq_refl Hbks1 Htrs1)).
  match goal with |- context [putObj r (OBreaker ?bf)] => set (b2 := bf) end.
  set (w2 := set_heap (<[r := OBreaker b2]> (heap w1)) w1).
  assert (E2 : putObj r (OBreaker b2) w1 = (w2, Ok tt)) by reflexivity.
  rewrite (bind_ok _ _ _ _ _ E2).
  assert (Hr2 : heap w2 !! r = Some (OBreaker b2)).
  { unfold w2, w1. simpl. apply list_lookup_insert_eq.
    rewrite length_insert. exact Hlen. }
  destruct (Breaker_writeModbus_returns sqrt r b2 w2 Hr2 Hex) as (w3 & E3 & Hh3).
  exists w3, b2. split; [exact E3|]. split; [rewrite Hh3; exact Hr2|].
  do 3 (split; [reflexivity|]).
  intros j Hj. rewrite Hh3. unfold w2, w1. simpl.
  rewrite !list_lookup_insert_ne by (intros ->; contradiction). reflexivity.
Qed.

Lemma export_step sqrt B0 S0 n0 L0 r o w :
  well_wired B0 S0 n0 -> static_inv B0 S0 n0 L0 w ->
  heap w !! r = Some o -> class_of o = CInverter \/ class_of o = CMeter ->
  exists w', update sqrt r w = (w', Ok tt) /\
             static_inv B0 S0 n0 L0 w' /\ heap w' = heap w.
Proof.
  intros Hwired Hw Hr Hcl.
  destruct (update_returns sqrt B0 S0 n0 L0 Hwired r w Hw) as (w' & E & Hw').
  { destruct Hw as [<- _]. rewrite length_fmap.
    apply lookup_lt_Some in Hr. exact Hr. }
  exists w'. split; [exact E|]. split; [exact Hw'|].
  pose proof (Module_update_heap sqrt r w o Hr Hcl) as H.
  rewrite E in H. exact H.
Qed.

Lemma static_step sqrt B0 S0 n0 L0 r w w' :
  static_inv B0 S0 n0 L0 w -> update sqrt r w = (w', Ok tt) ->
  static_inv B0 S0 n0 L0 w'.
Proof.
  intros Hw E. pose proof (static_update sqrt B0 S0 n0 L0 r w Hw) as [H _].
  rewrite E in H. exact H.
Qed.

Lemma has_register_file_of B0 S0 n0 L0 w r o :
  well_wired B0 S0 n0 -> static_inv B0 S0 n0 L0 w ->
  heap w !! r = Some o -> exportable (context w) (obj_base o).
Proof.
  intros Hwired Hw Hr.
  apply (static_exportable B0 S0 n0 L0 Hwired w _ Hw).
  apply (Hwired r (shape o)). destruct Hw as [<- _].
  rewrite list_lookup_fmap, Hr. reflexivity.
Qed.

Lemma default_topology_power_lemma (sqrt : Q -> Q) B0 S0 n0 L0 (w : World)
  (i0 i1 i2 i3 : Inverter.t) (b4 b5 b7 : Breaker.t) (t6 : Transformer.t)
  (m8 : Meter.t) (s9 : SimulationController.t) :
  well_wired B0 S0 n0 -> static_inv B0 S0 n0 L0 w ->
  heap w !! 0%nat = Some (OInverter i0) ->
  heap w !! 1%nat = Some (OInverter i1) ->
  heap w !! 2%nat = Some (OInverter i2) ->
  heap w !! 3%nat = Some (OInverter i3) ->
  heap w !! 4%nat = Some (OBreaker b4) ->
  heap w !! 5%nat = Some (OBreaker b5) ->
  heap w !! 6%nat = Some (OTransformer t6) ->
  heap w !! 7%nat = Some (OBreaker b7) ->
  heap w !! 8%nat = Some (OMeter m8) ->
  heap w !! 9%nat = Some (OSimulationController s9) ->
  moduleGroup (Breaker.base b4) = "feederBreakers" ->
  dict_get (connections (Breaker.base b4)) "inverters" = Some [0; 1]%nat ->
  moduleGroup (Breaker.base b5) = "feederBreakers" ->
  dict_get (connections (Breaker.base b5)) "inverters" = Some [2; 3]%nat ->
  dict_get (connections (Transformer.base t6)) "feederBreakers"
    = Some [4; 5]%nat ->
  moduleGroup (Breaker.base b7) = "mainBreakers" ->
  dict_get (connections (Breaker.base b7)) "feederBreakers"
    = Some [4; 5]%nat ->
  dict_get (connections (Breaker.base b7)) "transformers" = Some [6%nat] ->
  dict_get (connections (SimulationController.base s9)) "breakers"
    = Some [7%nat] ->
  dict_get (connections (SimulationController.base s9)) "meters"
    = Some [8%nat] ->
  dict_get (connections (SimulationController.base s9)) "inverters"
    = Some [0; 1; 2; 3]%nat ->
  exists w' m',
    for_each [0; 1; 2; 3; 4; 5; 6; 7; 8; 9]%nat (update sqrt) w = (w', Ok tt) /\
    heap w' !! 8%nat = Some (OMeter m') /\
    Meter.realPower m' =
      passes (Breaker.closeCommand b7)
        (Qsum [ passes (Breaker.closeCommand b4)
                  (Qsum [Inverter.realPower i0; Inverter.realPower i1]);
                passes (Breaker.closeCommand b5)
                  (Qsum [Inverter.realPower i2; Inverter.realPower i3]) ]).
Proof.
  intros Hwired Hw H0 H1 H2 H3 H4 H5 H6 H7 H8 H9
    G4 C4 G5 C5 C6 G7 C7a C7b C9a C9b C9c.
  cbn [for_each].
  (* the four inverters export *)
  destruct (export_step sqrt B0 S0 n0 L0 0 _ w Hwired Hw H0 (or_introl eq_refl))
    as (w1 & E1 & Hw1 & Hh1).
  rewrite (bind_ok _ _ _ _ _ E1).
  destruct (export_step sqrt B0 S0 n0 L0 1 (OInverter i1) w1 Hwired Hw1
              ltac:(rewrite Hh1; exact H1) (or_introl eq_refl))
    as (w2 & E2 & Hw2 & Hh2).
  rewrite (bind_ok _ _ _ _ _ E2).
  destruct (export_step sqrt B0 S0 n0 L0 2 (OInverter i2) w2 Hwired Hw2
              ltac:(rewrite Hh2, Hh1; exact H2) (or_introl eq_refl))
    as (w3 & E3 & Hw3 & Hh3).
  rewrite (bind_ok _ _ _ _ _ E3).
  destruct (export_step sqrt B0 S0 n0 L0 3 (OInverter i3) w3 Hwired Hw3
              ltac:(rewrite Hh3, Hh2, Hh1; exact H3) (or_introl eq_refl))
    as (w4 & E4 & Hw4 & Hh4).
  rewrite (bind_ok _ _ _ _ _ E4).
  assert (Hheap4 : heap w4 = heap w) by congruence.
  clear E1 E2 E3 E4 Hw1 Hw2 Hw3 Hh1 Hh2 Hh3 Hh4 w1 w2 w3.
  (* the first feeder breaker *)
  destruct (feederBreaker_update_lemma sqrt 4 b4 w4 0 [1]%nat [i0; i1])
    as (w5 & b4' & E5 & Hr5 & Hp4 & _ & _ & _ & _ & _ & Hc4 & Hf5).
  { rewrite Hheap4. exact H4. }
  { exact G4. }
  { exact C4. }
  { unfold lookup_all, inverter_at. rewrite Hheap4, H0, H1. reflexivity. }
  { apply (has_register_file_of B0 S0 n0 L0 w4 4 (OBreaker b4) Hwired Hw4).
    rewrite Hheap4. exact H4. }
  rewrite (bind_ok _ _ _ _ _ E5).
  pose proof (static_step _ _ _ _ _ _ _ _ Hw4 E5) as Hw5.
  assert (Hk5 : forall j, (4 < j)%nat -> heap w5 !! j = heap w !! j).
  { intros j Hj. rewrite Hf5 by lia. rewrite Hheap4.
    rewrite bool_decide_eq_false_2; [reflexivity|].
    intros Hin. apply elem_of_cons in Hin as [-> | Hin]; [lia|].
    apply list_elem_of_singleton in Hin. lia. }
  assert (Hi5 : forall j iv, (2 <= j < 4)%nat ->
            heap w !! j = Some (OInverter iv) ->
            heap w5 !! j = Some (OInverter iv)).
  { intros j iv Hj Hiv. rewrite Hf5 by lia. rewrite Hheap4.
    rewrite bool_decide_eq_false_2; [exact Hiv|].
    intros Hin. apply elem_of_cons in Hin as [-> | Hin]; [lia|].
    apply list_elem_of_singleton in Hin. lia. }
  (* the second feeder breaker *)
  destruct (feederBreaker_update_lemma sqrt 5 b5 w5 2 [3]%nat [i2; i3])
    as (w6 & b5' & E6 & Hr6 & Hp5 & _ & _ & _ & _ & _ & Hc5 & Hf6).
  { rewrite Hk5 by lia. exact H5. }
  { exact G5. }
  { exact C5. }
  { unfold lookup_all, inverter_at.
    rewrite (Hi5 2%nat i2 ltac:(lia) H2), (Hi5 3%nat i3 ltac:(lia) H3).
    reflexivity. }
  { apply (has_register_file_of B0 S0 n0 L0 w5 5 (OBreaker b5) Hwired Hw5).
    rewrite Hk5 by lia. exact H5. }
  rewrite (bind_ok _ _ _ _ _ E6).
  pose proof (static_step _ _ _ _ _ _ _ _ Hw5 E6) as Hw6.
  assert (Hk6 : forall j, (5 < j)%nat -> heap w6 !! j = heap w !! j).
  { intros j Hj. rewrite Hf6 by lia.
    rewrite bool_decide_eq_false_2; [apply Hk5; lia|].
    intros Hin. apply elem_of_cons in Hin as [-> | Hin]; [lia|].
    apply list_elem_of_singleton in Hin. lia. }
  assert (H46 : heap w6 !! 4%nat = Some (OBreaker b4')).
  { rewrite Hf6 by lia.
    rewrite bool_decide_eq_false_2; [exact Hr5|].
    intros Hin. apply elem_of_cons in Hin as [Hin | Hin]; [lia|].
    apply list_elem_of_singleton in Hin. lia. }
  (* the transformer *)
  destruct (Transformer_update_lemma sqrt 6 t6 w6 4 [5]%nat [b4'; b5'])
    as (w7 & t6' & E7 & Hr7 & _ & _ & _ & _ & _ & _ & Hf7).
  { rewrite Hk6 by lia. exact H6. }
  { exact C6. }
  { unfold lookup_all, breaker_at. rewrite H46, Hr6. reflexivity. }
  { apply (has_register_file_of B0 S0 n0 L0 w6 6 (OTransformer t6) Hwired Hw6).
    rewrite Hk6 by lia. exact H6. }
  rewrite (bind_ok _ _ _ _ _ E7).
  pose proof (static_step _ _ _ _ _ _ _ _ Hw6 E7) as Hw7.
  (* the main breaker *)
  destruct (mainBreaker_update_lemma sqrt 7 b7 w7 4 [5]%nat [6%nat]
              [b4'; b5'] [t6'])
    as (w8 & b7' & E8 & Hr8 & Hp7 & _ & Hc7 & Hf8).
  { rewrite Hf7, Hk6 by lia. exact H7. }
  { exact G7. }
  { exact C7a. }
  { exact C7b. }
  { intros Hin. apply elem_of_cons in Hin as [Hin | Hin]; [lia|].
    apply list_elem_of_singleton in Hin. lia. }
  { unfold lookup_all, breaker_at.
    rewrite !Hf7 by lia. rewrite H46, Hr6. reflexivity. }
  { unfold lookup_all, transformer_at. rewrite Hr7. reflexivity. }
  { apply (has_register_file_of B0 S0 n0 L0 w7 7 (OBreaker b7) Hwired Hw7).
    rewrite Hf7, Hk6 by lia. exact H7. }
  rewrite (bind_ok _ _ _ _ _ E8).
  pose proof (static_step _ _ _ _ _ _ _ _ Hw7 E8) as Hw8.
  (* the check meter exports *)
  destruct (export_step sqrt B0 S0 n0 L0 8 (OMeter m8) w8 Hwired Hw8
              ltac:(rewrite Hf8, Hf7, Hk6 by lia; exact H8)
              (or_intror eq_refl))
    as (w9 & E9 & Hw9 & Hh9).
  rewrite (bind_ok _ _ _ _ _ E9).
  (* the controller *)
  assert (H99 : heap w9 !! 9%nat = Some (OSimulationController s9))
    by (rewrite Hh9, Hf8, Hf7, Hk6 by lia; exact H9).
  assert (Hall : all_of B0 CInverter [0; 1; 2; 3]%nat).
  { assert (HB : B0 !! 9%nat = Some (shape (OSimulationController s9))).
    { destruct Hw9 as [<- _]. rewrite list_lookup_fmap, H99. reflexivity. }
    destruct (Hwired 9%nat _ HB)
      as [_ (mb & bs & cm & ms & invs & _ & _ & _ & _ & Hinv & Hall)].
    cbn [shape obj_base snd] in Hinv. rewrite C9c in Hinv.
    injection Hinv as <-. exact Hall. }
  destruct (static_inverters B0 S0 n0 L0 Hwired w9 _ Hw9 Hall) as [ivs Hivs].
  destruct (SimulationController_update_spec 9 s9 w9 7 [] 8 [] [0; 1; 2; 3]%nat
              m8 b7' ivs H99 C9a C9b C9c)
    as (w' & m' & s' & d1 & d2 & d3 & E & Hcm' & _ & _ & _ & Hm' & _).
  { rewrite Hh9, Hf8, Hf7, Hk6 by lia. exact H8. }
  { rewrite Hh9. exact Hr8. }
  { exact Hivs. }
  { exact (has_register_file_of B0 S0 n0 L0 w9 9 _ Hwired Hw9 H99). }
  assert (E' : update sqrt 9 w9 = (w', Ok tt))
    by (unfold update; rewrite H99; exact E).
  rewrite (bind_ok _ _ _ _ _ E').
  exists w', m'. split; [reflexivity|]. split; [exact Hcm'|].
  rewrite Hm'. cbn [Meter.realPower Meter_set_readouts].
  unfold Breaker.realPower at 1. unfold Breaker.isBreakerClosed.
  rewrite Hc7, Hp7. cbn [map].
  unfold Breaker.realPower, Breaker.isBreakerClosed.
  rewrite Hc4, Hc5, Hp4, Hp5. cbn [map]. unfold passes.
  destruct (truthy (Breaker.closeCommand b7));
    destruct (truthy (Breaker.closeCommand b4));
    destruct (truthy (Breaker.closeCommand b5)); reflexivity.
Qed.

(** X23: the flow of real power through a plant with the topology of
    the default configuration (four inverters, two feeder breakers with
    two inverters each, one transformer on both feeder breakers, a main
    breaker on both feeder breakers and the transformer, a check meter,
    the controller), well wired.  One pass over the devices returns, and
    afterwards the check meter reads as real power what the main breaker
    passes of the sum of what the two feeder breakers pass of the sums
    of the real powers of their inverters, as these were before the
    pass; a breaker passes everything while its close command is set and
    nothing while it is 0. *)
Theorem default_topology_power_balance (sqrt : Q -> Q) (w : World)
  (i0 i1 i2 i3 : Inverter.t) (b4 b5 b7 : Breaker.t) (t6 : Transformer.t)
  (m8 : Meter.t) (s9 : SimulationController.t) :
  well_wired (shape <$> heap w) (slaves (context w))
    (length (blocks (context w))) ->
  heap w !! 0%nat = Some (OInverter i0) ->
  heap w !! 1%nat = Some (OInverter i1) ->
  heap w !! 2%nat = Some (OInverter i2) ->
  heap w !! 3%nat = Some (OInverter i3) ->
  heap w !! 4%nat = Some (OBreaker b4) ->
  heap w !! 5%nat = Some (OBreaker b5) ->
  heap w !! 6%nat = Some (OTransformer t6) ->
  heap w !! 7%nat = Some (OBreaker b7) ->
  heap w !! 8%nat = Some (OMeter m8) ->
  heap w !! 9%nat = Some (OSimulationController s9) ->
  moduleGroup (Breaker.base b4) = "feederBreakers" ->
  dict_get (connections (Breaker.base b4)) "inverters" = Some [0; 1]%nat ->
  moduleGroup (Breaker.base b5) = "feederBreakers" ->
  dict_get (connections (Breaker.base b5)) "inverters" = Some [2; 3]%nat ->
  dict_get (connections (Transformer.base t6)) "feederBreakers"
    = Some [4; 5]%nat ->
  moduleGroup (Breaker.base b7) = "mainBreakers" ->
  dict_get (connections (Breaker.base b7)) "feederBreakers"
    = Some [4; 5]%nat ->
  dict_get (connections (Breaker.base b7)) "transformers" = Some [6%nat] ->
  dict_get (connections (SimulationController.base s9)) "breakers"
    = Some [7%nat] ->
  dict_get (connections (SimulationController.base s9)) "meters"
    = Some [8%nat] ->
  dict_get (connections (SimulationController.base s9)) "inverters"
    = Some [0; 1; 2; 3]%nat ->
  exists w' m',
    updateDevices sqrt default_registry w = (w', Ok tt) /\
    heap w' !! 8%nat = Some (OMeter m') /\
    Meter.realPower m' =
      passes (Breaker.closeCommand b7)
        (Qsum [ passes (Breaker.closeCommand b4)
                  (Qsum [Inverter.realPower i0; Inverter.realPower i1]);
                passes (Breaker.closeCommand b5)
                  (Qsum [Inverter.realPower i2; Inverter.realPower i3]) ]).
Proof.
  intros Hwired H0 H1 H2 H3 H4 H5 H6 H7 H8 H9
    G4 C4 G5 C5 C6 G7 C7a C7b C9a C9b C9c.
  unfold updateDevices. rewrite for_each_groups.
  change (concat (map snd default_registry))
    with [0; 1; 2; 3; 4; 5; 6; 7; 8; 9]%nat.
  apply (default_topology_power_lemma sqrt _ _ _ (errors w) w
           i0 i1 i2 i3 b4 b5 b7 t6 m8 s9 Hwired); try assumption.
  repeat split.
Qed.

Lemma default_topology_power_balance_witness :
  let w := plant_world default_config false in
  exists w' m',
    updateDevices sqrt_milli default_registry w = (w', Ok tt) /\
    heap w' !! 8%nat = Some (OMeter m') /\
    (Meter.realPower m' == 0)%Q.
Proof.
  intros w.
  destruct (default_topology_power_balance sqrt_milli w
              (default (Inverter.init 0) (inverter_at w 0))
              (default (Inverter.init 0) (inverter_at w 1))
              (default (Inverter.init 0) (inverter_at w 2))
              (default (Inverter.init 0) (inverter_at w 3))
              (default (Breaker.init 0) (breaker_at w 4))
              (default (Breaker.init 0) (breaker_at w 5))
              (default (Breaker.init 0) (breaker_at w 7))
              (default (Transformer.init 0) (transformer_at w 6))
              (match heap w !! 8%nat with
               | Some (OMeter m) => m
               | _ => Meter.init 0
               end)
              (default (SimulationController.init 0) (controller_at w 9)))
    as (w' & m' & E & Hm & Hp).
  - exact (proj2 (proj2 (proj2 (default_plant_well_wired false rand0)))).
  - vm_compute. reflexivity.
  - vm_compute. reflexivity.
  - vm_compute. reflexivity.
  - vm_compute. reflexivity.
  - vm_compute. reflexivity.
  - vm_compute. reflexivity.
  - vm_compute. reflexivity.
  - vm_compute. reflexivity.
  - vm_compute. reflexivity.
  - vm_compute. reflexivity.
  - vm_compute. reflexivity.
  - vm_compute. reflexivity.
  - vm_compute. reflexivity.
  - vm_compute. reflexivity.
  - vm_compute. reflexivity.
  - vm_compute. reflexivity.
  - vm_compute. reflexivity.
  - vm_compute. reflexivity.
  - vm_compute. reflexivity.
  - vm_compute. reflexivity.
  - vm_compute. reflexivity.
  - exists w', m'. split; [exact E|]. split; [exact Hm|].
    rewrite Hp. vm_compute. reflexivity.
Defined.
